(** * gozip: a model of the [ziplib] package

    The development embeds the archive writer ([Zip]), the extractor
    ([Unzip]), the lister ([List]) and the pattern matcher ([matchesAny])
    of [ziplib/ziplib.go] and [ziplib/match.go] as Rocq functions, together
    with the parts of the Go standard library they call: [path/filepath]
    (Unix flavour), a file system of regular files and directories, and the
    ZIP container seen through its reader and writer interface. *)

From Stdlib Require Import String Ascii List ZArith Lia Bool Arith.
Import ListNotations.

Local Open Scope string_scope.
Local Open Scope list_scope.

Set Implicit Arguments.

(** ** Go strings *)

Module strings.

Definition len (s : string) : nat := String.length s.

(** [strings.HasPrefix]. *)
Definition HasPrefix (s pre : string) : bool := String.prefix pre s.

(** [strings.Split(s, "/")]: the elements between separators, empty ones
    included. *)
Fixpoint SplitSlash (s : string) : list string :=
  match s with
  | EmptyString => [""]
  | String c r =>
      if Ascii.eqb c "/" then "" :: SplitSlash r
      else match SplitSlash r with
           | x :: xs => String c x :: xs
           | [] => [String c ""]
           end
  end.

(** [strings.Join(elems, "/")]. *)
Fixpoint JoinSlash (elems : list string) : string :=
  match elems with
  | [] => ""
  | [e] => e
  | e :: rest => e ++ "/" ++ JoinSlash rest
  end.

(** [strings.Contains(s, "/")]. *)
Fixpoint ContainsSlash (s : string) : bool :=
  match s with
  | EmptyString => false
  | String c r => Ascii.eqb c "/" || ContainsSlash r
  end.

End strings.

(** ** Errors

    A Go [error] is its message; [filepath.SkipDir] and
    [filepath.ErrBadPattern] are the two sentinel values the code
    distinguishes.  A nil error is [None]. *)

Inductive error : Type :=
| SkipDir
| ErrBadPattern
| errorString (msg : string).

Inductive result (A : Type) : Type :=
| Ok (a : A)
| Err (e : error).
Arguments Ok {A} a.
Arguments Err {A} e.

(** ** path/filepath on Unix *)

Module filepath.

Definition Separator : ascii := "/"%char.

Definition IsAbs (path : string) : bool := strings.HasPrefix path "/".

(** The output buffer of [Clean]: the number of leading [..] elements that
    can no longer be cancelled, and the real elements written after them,
    innermost first. *)
Definition cleanBuf : Type := (nat * list string)%type.

(** One iteration of the element loop of [Clean]. *)
Definition cleanStep (rooted : bool) (buf : cleanBuf) (elem : string) : cleanBuf :=
  let (dotdot, out) := buf in
  if (elem =? "") || (elem =? ".") then buf
  else if elem =? ".." then
    match out with
    | _ :: out' => (dotdot, out')
    | [] => if rooted then buf else (S dotdot, [])
    end
  else (dotdot, elem :: out).

Definition cleanElems (buf : cleanBuf) : list string :=
  repeat ".." (fst buf) ++ rev (snd buf).

Definition cleanString (rooted : bool) (buf : cleanBuf) : string :=
  let s := strings.JoinSlash (cleanElems buf) in
  if rooted then "/" ++ s
  else if s =? "" then "." else s.

(** [filepath.Clean]: the shortest equivalent path by lexical processing:
    repeated separators and [.] elements are dropped, an inner [..]
    cancels the element before it, a [..] at the start of a rooted path
    is dropped, and the empty result is written [.]. *)
Definition Clean (path : string) : string :=
  let rooted := IsAbs path in
  cleanString rooted (fold_left (cleanStep rooted) (strings.SplitSlash path) (0, [])).

(** [filepath.Join]: leading empty elements are ignored, the others are
    joined with the separator and cleaned; no element at all gives the
    empty string. *)
Fixpoint Join (elem : list string) : string :=
  match elem with
  | [] => ""
  | e :: rest =>
      if e =? "" then Join rest else Clean (strings.JoinSlash elem)
  end.

(** The path without its trailing separators. *)
Fixpoint trimSlashes (path : string) : string :=
  match path with
  | EmptyString => ""
  | String c r =>
      let r' := trimSlashes r in
      if Ascii.eqb c "/" && (r' =? "") then "" else String c r'
  end.

(** [filepath.Base]: the last element of the path, trailing separators
    removed first; [.] for the empty path and [/] for a path of
    separators only. *)
Definition Base (path : string) : string :=
  if path =? "" then "."
  else
    let path := trimSlashes path in
    let path := last (strings.SplitSlash path) "" in
    if path =? "" then "/" else path.

(** The path up to and including its last separator. *)
Fixpoint uptoLastSlash (path : string) : string :=
  match path with
  | EmptyString => ""
  | String c r =>
      let r' := uptoLastSlash r in
      if Ascii.eqb c "/" then String c r'
      else if r' =? "" then "" else String c r'
  end.

(** [filepath.Dir]. *)
Definition Dir (path : string) : string := Clean (uptoLastSlash path).

(** [filepath.ToSlash]: the separator already is the slash. *)
Definition ToSlash (path : string) : string := path.

(** [filepath.Abs], given the working directory [os.Getwd] reports. *)
Definition Abs (wd path : string) : string :=
  if IsAbs path then Clean path else Join [wd; path].

(** *** filepath.Match

    Patterns and names are matched byte by byte: every byte is taken as
    one character. *)

Definition byteLe (a b : ascii) : bool := (nat_of_ascii a <=? nat_of_ascii b)%nat.

(** [scanChunk] after the leading stars were removed: the length of the
    chunk, which ends at the first star outside a character class. *)
Fixpoint scanChunkEnd (pattern : string) (inrange : bool) : nat :=
  match pattern with
  | EmptyString => 0
  | String c r =>
      if Ascii.eqb c "\" then
        match r with
        | EmptyString => 1
        | String _ r' => 2 + scanChunkEnd r' inrange
        end
      else if Ascii.eqb c "[" then S (scanChunkEnd r true)
      else if Ascii.eqb c "]" then S (scanChunkEnd r false)
      else if Ascii.eqb c "*" then
        if inrange then S (scanChunkEnd r inrange) else 0
      else S (scanChunkEnd r inrange)
  end.

Fixpoint trimStars (pattern : string) : bool * string :=
  match pattern with
  | String c r =>
      if Ascii.eqb c "*" then (true, snd (trimStars r)) else (false, pattern)
  | EmptyString => (false, "")
  end.

Definition scanChunk (pattern : string) : bool * string * string :=
  let (star, pattern) := trimStars pattern in
  let i := scanChunkEnd pattern false in
  (star, substring 0 i pattern, substring i (String.length pattern - i) pattern).

(** [getEsc]: one, possibly escaped, character of a character class. *)
Definition getEsc (chunk : string) : result (ascii * string) :=
  match chunk with
  | EmptyString => Err ErrBadPattern
  | String c r =>
      if Ascii.eqb c "-" || Ascii.eqb c "]" then Err ErrBadPattern
      else
        let chunk := if Ascii.eqb c "\" then r else chunk in
        match chunk with
        | EmptyString => Err ErrBadPattern
        | String r0 nchunk =>
            if nchunk =? "" then Err ErrBadPattern else Ok (r0, nchunk)
        end
  end.

Definition startsWith (c : ascii) (s : string) : bool :=
  match s with
  | String c' _ => Ascii.eqb c' c
  | EmptyString => false
  end.

Definition tail (s : string) : string :=
  match s with
  | String _ r => r
  | EmptyString => ""
  end.

Definition head (s : string) : ascii :=
  match s with
  | String c _ => c
  | EmptyString => zero
  end.

(** The range loop of a character class: [r] is the character of the
    name, [nrange] the number of ranges read so far, [matched] whether
    one of them held [r].  Returns the chunk after the closing bracket.
    Every iteration consumes at least one byte of the chunk, which bounds
    the loop. *)
Fixpoint classLoop (fuel : nat) (chunk : string) (r : ascii) (nrange : nat)
    (matched : bool) : result (string * bool) :=
  match fuel with
  | O => Err ErrBadPattern
  | S fuel =>
      if startsWith "]" chunk && (0 <? nrange)%nat then Ok (tail chunk, matched)
      else
        match getEsc chunk with
        | Err e => Err e
        | Ok (lo, chunk) =>
            match (if startsWith "-" chunk then getEsc (tail chunk)
                   else Ok (lo, chunk)) with
            | Err e => Err e
            | Ok (hi, chunk) =>
                classLoop fuel chunk r (S nrange)
                  (matched || (byteLe lo r && byteLe r hi))
            end
        end
  end.

(** The loop of [matchChunk]: after the match has failed the loop goes on
    through the chunk to check that it is well formed and no longer reads
    the name. *)
Fixpoint matchChunkLoop (fuel : nat) (chunk s : string) (failed : bool)
    : string * bool * option error :=
  match fuel with
  | O => ("", false, Some ErrBadPattern)
  | S fuel =>
      match chunk with
      | EmptyString => if failed then ("", false, None) else (s, true, None)
      | String c rest =>
          let failed := failed || (s =? "") in
          if Ascii.eqb c "[" then
            let r := if failed then zero else head s in
            let s := if failed then s else tail s in
            let negated := startsWith "^" rest in
            let chunk := if negated then tail rest else rest in
            match classLoop (S (String.length chunk)) chunk r 0 false with
            | Err e => ("", false, Some e)
            | Ok (chunk, matched) =>
                matchChunkLoop fuel chunk s (failed || Bool.eqb matched negated)
            end
          else if Ascii.eqb c "?" then
            let failed' := failed || Ascii.eqb (head s) Separator in
            matchChunkLoop fuel rest (if failed then s else tail s) failed'
          else
            let lit (chunk : string) :=
              let failed' := failed || negb (Ascii.eqb (head chunk) (head s)) in
              matchChunkLoop fuel (tail chunk) (if failed then s else tail s) failed' in
            if Ascii.eqb c "\" then
              if rest =? "" then ("", false, Some ErrBadPattern) else lit rest
            else lit chunk
      end
  end.

Definition matchChunk (chunk s : string) : string * bool * option error :=
  matchChunkLoop (S (String.length chunk)) chunk s false.

(** The search for a match of a starred chunk after skipping [i+1] bytes
    of the name; a separator cannot be skipped.  [last] tells that no
    pattern is left after the chunk, in which case the chunk has to
    exhaust the name. *)
Fixpoint starLoop (chunk : string) (last : bool) (name : string)
    : result (option string) :=
  match name with
  | EmptyString => Ok None
  | String c name' =>
      if Ascii.eqb c Separator then Ok None
      else
        match matchChunk chunk name' with
        | (t, true, _) =>
            if last && negb (t =? "") then starLoop chunk last name'
            else Ok (Some t)
        | (_, false, Some e) => Err e
        | (_, false, None) => starLoop chunk last name'
        end
  end.

(** The check, made before [Match] answers false, that what is left of
    the pattern is well formed. *)
Fixpoint checkRest (fuel : nat) (pattern : string) : option error :=
  match fuel with
  | O => None
  | S fuel =>
      if pattern =? "" then None
      else
        let '(_, chunk, pattern) := scanChunk pattern in
        match matchChunk chunk "" with
        | (_, _, Some e) => Some e
        | (_, _, None) => checkRest fuel pattern
        end
  end.

Fixpoint matchLoop (fuel : nat) (pattern name : string) : bool * option error :=
  match fuel with
  | O => (false, Some ErrBadPattern)
  | S fuel =>
      if pattern =? "" then (name =? "", None)
      else
        let '(star, chunk, pattern) := scanChunk pattern in
        if star && (chunk =? "") then (negb (strings.ContainsSlash name), None)
        else
          let '(t, ok, err) := matchChunk chunk name in
          if ok && ((t =? "") || negb (pattern =? "")) then matchLoop fuel pattern t
          else
            match err with
            | Some e => (false, Some e)
            | None =>
                match (if star then starLoop chunk (pattern =? "") name
                       else Ok None) with
                | Err e => (false, Some e)
                | Ok (Some t) => matchLoop fuel pattern t
                | Ok None =>
                    match checkRest (String.length pattern) pattern with
                    | Some e => (false, Some e)
                    | None => (false, None)
                    end
                end
            end
  end.

(** [filepath.Match]: every pass of the pattern loop removes a non-empty
    prefix of the pattern, so its length bounds the number of passes. *)
Definition Match (pattern name : string) : bool * option error :=
  matchLoop (S (String.length pattern)) pattern name.

End filepath.

(** The message of an error, as [err.Error()] gives it. *)
Definition Error (e : error) : string :=
  match e with
  | SkipDir => "skip this directory"
  | ErrBadPattern => "syntax error in pattern"
  | errorString msg => msg
  end.

(** ** The file system: package os

    The file system is a tree of directories and regular files; there are
    no symbolic links and no other kinds of file.  A path is resolved
    element by element from the root or from the working directory: an empty
    element and [.] stay, [..] goes to the parent, a name goes to the
    child.  The elements cancelled by a later [..] are not looked up, so
    the resolution is that of the system on paths in cleaned form, from a
    working directory that is a directory.  A lookup that finds nothing
    reports a regular file on the way as [ENOTDIR] and a missing name as
    [ENOENT].  The process passes every permission check (it runs
    privileged), so the permission bits are recorded and reported but
    refuse nothing, and the mask of the process is empty. *)

Module os.

Definition FileMode : Type := Z.

Definition ModeDir : FileMode := Z.shiftl 1 31.
Definition ModePerm : FileMode := 511%Z.

(** [FileMode.Perm]. *)
Definition Perm (m : FileMode) : FileMode := Z.land m ModePerm.

(** [FileMode.IsDir]. *)
Definition ModeIsDir (m : FileMode) : bool := negb (Z.land m ModeDir =? 0)%Z.

#[local] Unset Elimination Schemes.
Inductive node : Type :=
| File (perm : FileMode) (mtime : Z) (data : list Byte.byte)
| Dir (perm : FileMode) (entries : list (string * node)).
#[local] Set Elimination Schemes.

Definition isDir (n : node) : bool :=
  match n with
  | Dir _ _ => true
  | File _ _ _ => false
  end.

(** The entries of a directory are kept in the order [ReadDir] lists
    them, sorted by name. *)
Fixpoint getEntry (name : string) (es : list (string * node)) : option node :=
  match es with
  | [] => None
  | (k, v) :: es => if k =? name then Some v else getEntry name es
  end.

Fixpoint replaceEntry (name : string) (v : node) (es : list (string * node))
    : list (string * node) :=
  match es with
  | [] => []
  | (k, x) :: rest =>
      if k =? name then (name, v) :: rest else (k, x) :: replaceEntry name v rest
  end.

Fixpoint insertEntry (name : string) (v : node) (es : list (string * node))
    : list (string * node) :=
  match es with
  | [] => [(name, v)]
  | (k, x) :: rest =>
      if String.ltb name k then (name, v) :: es
      else (k, x) :: insertEntry name v rest
  end.

(** The entry of a name is replaced where it is; a new name goes to its
    place in the order of the names. *)
Definition setEntry (name : string) (v : node) (es : list (string * node))
    : list (string * node) :=
  match getEntry name es with
  | Some _ => replaceEntry name v es
  | None => insertEntry name v es
  end.

(** The node at the end of a sequence of names, from [n]. *)
Fixpoint lookup (n : node) (elems : list string) : option node :=
  match elems with
  | [] => Some n
  | e :: elems =>
      match n with
      | Dir _ es =>
          match getEntry e es with
          | Some child => lookup child elems
          | None => None
          end
      | File _ _ _ => None
      end
  end.

(** The names in a directory are real names, each once. *)
Definition plainNameb (s : string) : bool :=
  negb (strings.ContainsSlash s) && negb (s =? "") && negb (s =? ".")
  && negb (s =? "..").

Fixpoint distinct (names : list string) : bool :=
  match names with
  | [] => true
  | x :: rest => negb (existsb (String.eqb x) rest) && distinct rest
  end.

Fixpoint wellFormed (n : node) : bool :=
  match n with
  | File _ _ _ => true
  | Dir _ es =>
      forallb plainNameb (map fst es) && distinct (map fst es)
      && (fix all (es : list (string * node)) : bool :=
            match es with
            | [] => true
            | (_, child) :: es => wellFormed child && all es
            end) es
  end.

(** *** Path resolution *)

Definition nameiStep (cur : list string) (elem : string) : list string :=
  if (elem =? "") || (elem =? ".") then cur
  else if elem =? ".." then List.tl cur
  else elem :: cur.

(** The names from the root to the place [path] denotes, innermost
    first. *)
Definition nameiRev (wd path : string) : list string :=
  fold_left nameiStep (strings.SplitSlash path)
    (if filepath.IsAbs path then []
     else fold_left nameiStep (strings.SplitSlash wd) []).

(** The empty path names nothing. *)
Definition namei (wd path : string) : option (list string) :=
  if path =? "" then None else Some (rev (nameiRev wd path)).

(** *** Errors *)

Definition ENOENT : string := "no such file or directory".
Definition ENOTDIR : string := "not a directory".
Definition EISDIR : string := "is a directory".

(** [PathError.Error]. *)
Definition PathError (op path errno : string) : error :=
  errorString (op ++ " " ++ path ++ ": " ++ errno).

(** The error of a lookup that finds nothing: a regular file on the way
    is not a directory, otherwise a name is missing. *)
Fixpoint lookupErrno (n : node) (elems : list string) : string :=
  match elems with
  | [] => ENOENT
  | e :: elems =>
      match n with
      | Dir _ es =>
          match getEntry e es with
          | Some child => lookupErrno child elems
          | None => ENOENT
          end
      | File _ _ _ => ENOTDIR
      end
  end.

(** *** Changing the tree

    [update mk leaf n elems] goes down from [n] along [elems] and
    replaces what is at the end by [leaf] of it.  A missing directory on
    the way is created with permissions [perm] when [mk] is [Some perm]
    and is an error otherwise; a regular file on the way is an error. *)
Fixpoint update (mk : option FileMode) (leaf : option node -> string + node)
    (n : node) (elems : list string) : string + node :=
  match elems with
  | [] => leaf (Some n)
  | e :: elems' =>
      match n with
      | File _ _ _ => inl ENOTDIR
      | Dir perm es =>
          let put (r : string + node) : string + node :=
            match r with
            | inl errno => inl errno
            | inr child => inr (Dir perm (setEntry e child es))
            end in
          match getEntry e es with
          | Some child => put (update mk leaf child elems')
          | None =>
              match elems' with
              | [] => put (leaf None)
              | _ :: _ =>
                  match mk with
                  | Some perm' => put (update mk leaf (Dir perm' []) elems')
                  | None => inl ENOENT
                  end
              end
          end
      end
  end.

(** What [MkdirAll] does where the path ends. *)
Definition mkdirLeaf (perm : FileMode) (old : option node) : string + node :=
  match old with
  | None => inr (Dir perm [])
  | Some (Dir p es) => inr (Dir p es)
  | Some (File _ _ _) => inl ENOTDIR
  end.

(** What opening with [O_CREATE|O_TRUNC] does where the path ends: an
    existing file is emptied and keeps its permissions, a missing one is
    created with [perm]. *)
Definition truncLeaf (perm : FileMode) (now : Z) (old : option node) : string + node :=
  match old with
  | None => inr (File perm now [])
  | Some (File p _ _) => inr (File p now [])
  | Some (Dir _ _) => inl EISDIR
  end.

(** Writing [data] through a descriptor of a regular file. *)
Definition writeLeaf (now : Z) (data : list Byte.byte) (old : option node) : string + node :=
  match old with
  | Some (File p _ d) => inr (File p now (d ++ data))
  | Some (Dir _ _) => inl EISDIR
  | None => inl ENOENT
  end.

Definition chtimesLeaf (mtime : Z) (old : option node) : string + node :=
  match old with
  | Some (File p _ d) => inr (File p mtime d)
  | Some (Dir p es) => inr (Dir p es)
  | None => inl ENOENT
  end.

(** [FileInfo], as [Stat] and [Lstat] return it. *)
Record FileInfo : Type := mkFileInfo {
  Name : string;
  Size : Z;
  Mode : FileMode;
  ModTime : Z;
  IsDir : bool
}.

Definition infoOf (path : string) (n : node) : FileInfo :=
  match n with
  | File perm mtime data =>
      mkFileInfo (filepath.Base path) (Z.of_nat (List.length data)) perm mtime false
  | Dir perm _ =>
      mkFileInfo (filepath.Base path) 0%Z (Z.lor perm ModeDir) 0%Z true
  end.

(** The nil [FileInfo] that goes with an error. *)
Definition nilFileInfo : FileInfo := mkFileInfo "" 0%Z 0%Z 0%Z false.

(** An open file: the place it was opened at. *)
Definition File_ : Type := list string.

End os.

(** ** The ZIP container: package archive/zip

    The container format is the business of the codec.  The model holds
    what the writer was given and what the reader hands out, and takes the
    two directions of the codec as parameters. *)

Module zip.

Local Open Scope Z_scope.

Definition Store : Z := 0.
Definition Deflate : Z := 8.

(** [flate.DefaultCompression]. *)
Definition DefaultCompression : Z := -1.

Record FileHeader : Type := mkFileHeader {
  Name : string;
  Method : Z;
  Modified : Z;
  Mode : os.FileMode;
  UncompressedSize64 : Z;
  CompressedSize64 : Z
}.

Definition setName (h : FileHeader) (name : string) : FileHeader :=
  mkFileHeader name (Method h) (Modified h) (Mode h)
    (UncompressedSize64 h) (CompressedSize64 h).

Definition setMethod (h : FileHeader) (method : Z) : FileHeader :=
  mkFileHeader (Name h) method (Modified h) (Mode h)
    (UncompressedSize64 h) (CompressedSize64 h).

(** [zip.FileInfoHeader]: a header with the name, size, time and mode of
    the file, and the method left at its zero value. *)
Definition FileInfoHeader (fi : os.FileInfo) : result FileHeader :=
  Ok (mkFileHeader (os.Name fi) 0 (os.ModTime fi) (os.Mode fi) (os.Size fi) 0).

(** An entry of an open archive.  [Open] is what [File.Open] and the
    reads that follow deliver: an error at once, or the bytes read and the
    error, if any, that ended the reading. *)
Record File : Type := mkFile {
  Header : FileHeader;
  Open : result (list Byte.byte * option error)
}.

(** [File.FileInfo().IsDir()]. *)
Definition IsDir (f : File) : bool := os.ModeIsDir (Mode (Header f)).

(** The state of a [zip.Writer]: the file it writes to, the level of the
    compressor registered for [Deflate], and the entries created so far,
    each with the bytes copied into it. *)
Record Writer : Type := mkWriter {
  dest : os.File_;
  level : Z;
  entries : list (FileHeader * list Byte.byte)
}.

(** The codec: the bytes of the container a writer produces when it is
    closed, and the entries a reader finds in the bytes of a file. *)
Record Codec : Type := mkCodec {
  encode : Z -> list (FileHeader * list Byte.byte) -> list Byte.byte;
  decode : list Byte.byte -> result (list File)
}.

End zip.

(** Package io.  A [Writer] is a status sink: [Discard] or the sink the
    caller gave, whose text is kept in the state.  The two other writers of
    the code, an open file and the entry a [zip.Writer] has just created,
    are the destinations of [io.Copy]. *)
Module io.
Inductive Writer : Type :=
| Discard
| Sink.

Inductive Dst : Type :=
| ToFile (f : os.File_)
| ToEntry.

(** [io.Reader]: the bytes a reader delivers and the error, if any, that
    ends the reading. *)
Definition Reader : Type := (list Byte.byte * option error)%type.
End io.

(** ** ziplib/options.go

    The field [Output] of the options is kept as the flag that tells
    whether a sink was given ([Output != nil]). *)

Record ZipOptions : Type := mkZipOptions {
  Recursive : bool;
  CompressionLevel : Z;
  ExcludePatterns : list string;
  ZipOutput : bool
}.

Record UnzipOptions : Type := mkUnzipOptions {
  OutputDir : string;
  Overwrite : bool;
  JunkPaths : bool;
  FilePatterns : list string;
  UnzipOutput : bool
}.

Record ListEntry : Type := mkListEntry {
  Name : string;
  UncompressedSize : Z;
  CompressedSize : Z;
  Modified : Z;
  IsDir : bool
}.

(** ** ziplib/match.go *)

(** [matchesAny] reports whether name matches any of the given glob
    patterns. *)
Fixpoint matchesAny (name : string) (patterns : list string) : bool :=
  match patterns with
  | [] => false
  | p :: patterns =>
      match filepath.Match p (filepath.Base name) with
      | (true, None) => true
      | _ => matchesAny name patterns
      end
  end.

(** ** The state of the process

    The file system with the working directory and the time of the clock,
    the text the status sink has received, and the [zip.Writer] of the
    running [Zip] call. *)

Record World : Type := mkWorld {
  disk : os.node;
  wd : string;
  clock : Z;
  sink : string;
  zw : zip.Writer
}.

Definition setDisk (s : World) (n : os.node) : World :=
  mkWorld n (wd s) (clock s) (sink s) (zw s).

Definition setSink (s : World) (text : string) : World :=
  mkWorld (disk s) (wd s) (clock s) text (zw s).

Definition setZw (s : World) (w : zip.Writer) : World :=
  mkWorld (disk s) (wd s) (clock s) (sink s) w.

(** A computation changes the state and returns a value or an error; the
    changes made before an error stay. *)
Definition M (A : Type) : Type := World -> World * result A.

Definition ret {A : Type} (a : A) : M A := fun s => (s, Ok a).

Definition fail {A : Type} (e : error) : M A := fun s => (s, Err e).

(** [bind m wrap k]: run [m]; on an error return it wrapped by [wrap],
    otherwise go on with [k]. *)
Definition bind {A B : Type} (m : M A) (wrap : error -> error) (k : A -> M B) : M B :=
  fun s =>
    match m s with
    | (s', Ok a) => k a s'
    | (s', Err e) => (s', Err (wrap e))
    end.

Notation "x <- m ;; k" := (bind m (fun err => err) (fun x => k))
  (at level 61, m at next level, right associativity).
Notation "x <- m 'orElse' err => e ;; k" := (bind m (fun err => e) (fun x => k))
  (at level 61, m at next level, err name, e at next level, right associativity).

(** [m orElse_ wrap]: [m] with its error wrapped. *)
Definition wrapErr {A : Type} (m : M A) (wrap : error -> error) : M A :=
  fun s =>
    match m s with
    | (s', Ok a) => (s', Ok a)
    | (s', Err e) => (s', Err (wrap e))
    end.
Notation "m 'orElse_' wrap" := (wrapErr m wrap) (at level 60).

(** [for _, x := range xs { if err := body(x); err != nil { return err } }]. *)
Fixpoint forRange {A : Type} (xs : list A) (body : A -> M unit) : M unit :=
  match xs with
  | [] => ret tt
  | x :: xs => _ <- body x ;; forRange xs body
  end.

(** [defer]: [cleanup] runs when [body] returns, whatever it returns. *)
Definition defer {A : Type} (cleanup : World -> World) (body : M A) : M A :=
  fun s => let (s', r) := body s in (cleanup s', r).

(** [fmt.Errorf("<prefix>: %w", err)]. *)
Definition Errorf (prefix : string) (err : error) : error :=
  errorString (prefix ++ ": " ++ Error err).

(** *** The calls into package os *)

Definition resolve (op path : string) : M (list string) :=
  fun s =>
    match os.namei (wd s) path with
    | Some elems => (s, Ok elems)
    | None => (s, Err (os.PathError op path os.ENOENT))
    end.

Definition os_update (op path : string) (mk : option os.FileMode)
    (leaf : option os.node -> string + os.node) (elems : list string) : M unit :=
  fun s =>
    match os.update mk leaf (disk s) elems with
    | inr n => (setDisk s n, Ok tt)
    | inl errno => (s, Err (os.PathError op path errno))
    end.

(** [os.Stat]; without symbolic links [os.Lstat] is the same. *)
Definition os_Stat (path : string) : M os.FileInfo :=
  elems <- resolve "stat" path ;;
  fun s =>
    match os.lookup (disk s) elems with
    | Some n => (s, Ok (os.infoOf path n))
    | None => (s, Err (os.PathError "stat" path (os.lookupErrno (disk s) elems)))
    end.

(** [os.Open]. *)
Definition os_Open (path : string) : M os.File_ :=
  elems <- resolve "open" path ;;
  fun s =>
    match os.lookup (disk s) elems with
    | Some _ => (s, Ok elems)
    | None => (s, Err (os.PathError "open" path (os.lookupErrno (disk s) elems)))
    end.

(** [os.OpenFile(path, os.O_CREATE|os.O_WRONLY|os.O_TRUNC, perm)]. *)
Definition os_OpenFile (path : string) (perm : os.FileMode) : M os.File_ :=
  elems <- resolve "open" path ;;
  _ <- (fun s => os_update "open" path None (os.truncLeaf (os.Perm perm) (clock s)) elems s) ;;
  ret elems.

(** [os.Create]. *)
Definition os_Create (path : string) : M os.File_ := os_OpenFile path 438%Z.

(** [os.MkdirAll]. *)
Definition os_MkdirAll (path : string) (perm : os.FileMode) : M unit :=
  elems <- resolve "mkdir" path ;;
  os_update "mkdir" path (Some (os.Perm perm)) (os.mkdirLeaf (os.Perm perm)) elems.

(** [os.Chtimes]. *)
Definition os_Chtimes (path : string) (atime mtime : Z) : M unit :=
  elems <- resolve "chtimes" path ;;
  os_update "chtimes" path None (os.chtimesLeaf mtime) elems.

(** Reading an open file to its end. *)
Definition os_reader (f : os.File_) : M io.Reader :=
  fun s =>
    match os.lookup (disk s) f with
    | Some (os.File _ _ data) => (s, Ok (data, None))
    | Some (os.Dir _ _) => (s, Ok ([], Some (os.PathError "read" (strings.JoinSlash f) os.EISDIR)))
    | None => (s, Ok ([], Some (os.PathError "read" (strings.JoinSlash f) os.ENOENT)))
    end.

(** *** Writing *)

Definition appendToLast (es : list (zip.FileHeader * list Byte.byte))
    (data : list Byte.byte) : list (zip.FileHeader * list Byte.byte) :=
  match rev es with
  | (h, d) :: before => rev before ++ [(h, d ++ data)]
  | [] => []
  end.

(** [f.Write] on an open file. *)
Definition os_Write (f : os.File_) (data : list Byte.byte) : M unit :=
  fun s => os_update "write" (strings.JoinSlash f) None (os.writeLeaf (clock s) data) f s.

(** [Write] on the entry last created by the [zip.Writer]. *)
Definition zip_Write (data : list Byte.byte) : M unit :=
  fun s =>
    let w := zw s in
    (setZw s (zip.mkWriter (zip.dest w) (zip.level w) (appendToLast (zip.entries w) data)),
     Ok tt).

(** [io.Copy]: what the reader delivers is written, then the error of the
    reader, if any, is returned. *)
Definition io_Copy (dst : io.Dst) (src : io.Reader) : M Z :=
  _ <- match dst with
       | io.ToFile f => os_Write f (fst src)
       | io.ToEntry => zip_Write (fst src)
       end ;;
  match snd src with
  | Some e => fail e
  | None => ret (Z.of_nat (List.length (fst src)))
  end.

(** [fmt.Fprintf], the format already filled in. *)
Definition Fprintf (out : io.Writer) (text : string) : M unit :=
  match out with
  | io.Discard => ret tt
  | io.Sink => fun s => (setSink s (sink s ++ text), Ok tt)
  end.


(** ** ziplib/ziplib.go *)

Section Ziplib.

Variable codec : zip.Codec.

(** *** The calls into package archive/zip *)

(** [zip.NewWriter]; the compressor registered for [Deflate] at first is
    the one of level 5. *)
Definition zip_NewWriter (f : os.File_) : M unit :=
  fun s => (setZw s (zip.mkWriter f 5%Z []), Ok tt).

(** [w.RegisterCompressor(zip.Deflate, ...)] with a compressor of
    [flate.NewWriter(out, level)]. *)
Definition zip_RegisterCompressor (level : Z) : M unit :=
  fun s =>
    let w := zw s in
    (setZw s (zip.mkWriter (zip.dest w) level (zip.entries w)), Ok tt).

(** [w.CreateHeader]: a new entry, empty so far.  The model keeps the
    entries in the writer until [Close] hands the container to the file;
    the bytes the writer of the program sends to the file before that are
    not in the tree of the model.  The two agree on every run that does
    not read the archive file while it is written, which is what
    [offArchive] says of the files taken. *)
Definition zip_CreateHeader (header : zip.FileHeader) : M io.Dst :=
  fun s =>
    let w := zw s in
    (setZw s (zip.mkWriter (zip.dest w) (zip.level w) (zip.entries w ++ [(header, [])])),
     Ok io.ToEntry).

(** [w.Close] and [f.Close], deferred by [Zip]: the container is written
    out.  The error of [Close] is dropped. *)
Definition zip_Close (s : World) : World :=
  let w := zw s in
  fst (os_Write (zip.dest w) (zip.encode codec (zip.level w) (zip.entries w)) s).

(** [zip.OpenReader]: the entries of the archive. *)
Definition zip_OpenReader (path : string) : M (list zip.File) :=
  f <- os_Open path ;;
  src <- os_reader f ;;
  match snd src with
  | Some e => fail e
  | None =>
      match zip.decode codec (fst src) with
      | Ok files => ret files
      | Err e => fail e
      end
  end.

(** [filepath.Abs] reads the working directory. *)
Definition filepath_Abs (path : string) : M string :=
  fun s => (s, Ok (filepath.Abs (wd s) path)).

(** [filepath.Walk]: [fn] is called for the root and then, in the order
    of the names, for everything below it; a directory is read when it is
    entered.  The directories are taken from the tree as it is when the
    walk begins.  [SkipDir] from a directory skips what is below it,
    [SkipDir] from a file skips the rest of its directory. *)
Definition WalkFunc : Type := string -> os.FileInfo -> option error -> M unit.

Definition isSkipDir (e : error) : bool :=
  match e with
  | SkipDir => true
  | _ => false
  end.

(** The loop of [walk] over the names of a directory; [walk] is the
    recursive call. *)
Definition walkNames (walk : string -> os.node -> M unit) (path : string)
    : list (string * os.node) -> M unit :=
  fix range (names : list (string * os.node)) : M unit :=
    match names with
    | [] => ret tt
    | (name, child) :: names =>
        let filename := filepath.Join [path; name] in
        fun s =>
          match walk filename child s with
          | (s', Err err) =>
              if negb (os.isDir child) || negb (isSkipDir err)
              then (s', Err err)
              else range names s'
          | (s', Ok _) => range names s'
          end
    end.

Fixpoint walk (path : string) (n : os.node) (walkFn : WalkFunc) {struct n} : M unit :=
  match n with
  | os.File _ _ _ => walkFn path (os.infoOf path n) None
  | os.Dir _ names =>
      _ <- walkFn path (os.infoOf path n) None ;;
      walkNames (fun filename child => walk filename child walkFn) path names
  end.

Definition filepath_Walk (root : string) (fn : WalkFunc) : M unit :=
  fun s =>
    let r :=
      match os_Stat root s with
      | (s', Err err) => fn root os.nilFileInfo (Some err) s'
      | (s', Ok _) =>
          match os.namei (wd s') root with
          | Some elems =>
              match os.lookup (disk s') elems with
              | Some n => walk root n fn s'
              | None => (s', Ok tt)
              end
          | None => (s', Ok tt)
          end
      end in
    match r with
    | (s', Err SkipDir) => (s', Ok tt)
    | _ => r
    end.

(** *** Zip *)

Definition writeFileToZip (path : string) (info : os.FileInfo) (opts : ZipOptions)
    (out : io.Writer) : M unit :=
  header <- (fun s => (s, zip.FileInfoHeader info))
    orElse err => Errorf ("file header " ++ path) err ;;
  let header := zip.setName header (filepath.ToSlash path) in
  let header :=
    if (CompressionLevel opts =? 0)%Z
    then zip.setMethod header zip.Store
    else zip.setMethod header zip.Deflate in
  fw <- zip_CreateHeader header
    orElse err => Errorf ("create header " ++ path) err ;;
  f <- os_Open path
    orElse err => Errorf ("open " ++ path) err ;;
  src <- os_reader f ;;
  _ <- io_Copy fw src
    orElse err => Errorf ("write " ++ path) err ;;
  Fprintf out ("  adding: " ++ path ++ String "010" "").

Definition addToZip (path : string) (opts : ZipOptions) (out : io.Writer) : M unit :=
  info <- os_Stat path
    orElse err => Errorf ("stat " ++ path) err ;;
  if os.IsDir info then
    if negb (Recursive opts) then
      Fprintf out ("  adding: " ++ path ++ "/ (skipped, not recursive)" ++ String "010" "")
    else
      filepath_Walk path (fun p fi err =>
        match err with
        | Some err => fail err
        | None =>
            if matchesAny p (ExcludePatterns opts) then
              if os.IsDir fi then fail SkipDir else ret tt
            else if os.IsDir fi then ret tt
            else writeFileToZip p fi opts out
        end)
  else if matchesAny path (ExcludePatterns opts) then ret tt
  else writeFileToZip path info opts out.

(** [Zip] creates a zip archive at [zipPath] containing the given files. *)
Definition Zip (zipPath : string) (files : list string) (opts : ZipOptions) : M unit :=
  let out := if ZipOutput opts then io.Sink else io.Discard in
  f <- os_Create zipPath
    orElse err => Errorf "creating archive" err ;;
  defer zip_Close (
    _ <- zip_NewWriter f ;;
    let level := CompressionLevel opts in
    let level := if (level <? -1)%Z || (level >? 9)%Z then (-1)%Z else level in
    _ <- zip_RegisterCompressor level ;;
    forRange files (fun name => addToZip name opts out)).

(** *** Unzip *)

Definition extractFile (f : zip.File) (destPath : string) (overwrite : bool)
    (out : io.Writer) : M unit :=
  _ <- (if negb overwrite then
          fun s =>
            match os_Stat destPath s with
            | (s', Ok _) =>
                (s', Err (errorString ("file exists: " ++ destPath ++ " (use overwrite option)")))
            | (s', Err _) => (s', Ok tt)
            end
        else ret tt) ;;
  _ <- os_MkdirAll (filepath.Dir destPath) 493%Z
    orElse err => Errorf ("mkdir for " ++ destPath) err ;;
  rc <- (fun s => (s, zip.Open f))
    orElse err => Errorf ("open entry " ++ zip.Name (zip.Header f)) err ;;
  w <- os_OpenFile destPath (zip.Mode (zip.Header f))
    orElse err => Errorf ("create " ++ destPath) err ;;
  _ <- io_Copy (io.ToFile w) rc
    orElse err => Errorf ("extract " ++ zip.Name (zip.Header f)) err ;;
  Fprintf out ("  inflating: " ++ destPath ++ String "010" "").

(** The body of the loop of [Unzip], from the zip-slip prevention on:
    [f] goes to [destPath]. *)
Definition placeEntry (opts : UnzipOptions) (out : io.Writer)
    (absOutputDir : string) (f : zip.File) (destPath : string) : M unit :=
  absDest <- filepath_Abs destPath
    orElse err => Errorf "resolve path" err ;;
  if negb (strings.HasPrefix absDest (absOutputDir ++ String filepath.Separator ""))
     && negb (absDest =? absOutputDir)
  then fail (errorString ("illegal file path: " ++ zip.Name (zip.Header f)))
  else if zip.IsDir f then
    os_MkdirAll destPath (zip.Mode (zip.Header f))
      orElse_ (Errorf ("mkdir " ++ destPath))
  else
    _ <- extractFile f destPath (Overwrite opts) out ;;
    os_Chtimes destPath (zip.Modified (zip.Header f)) (zip.Modified (zip.Header f))
      orElse_ (Errorf ("chtimes " ++ destPath)).

(** The body of the loop of [Unzip] over the entries of the archive. *)
Definition unzipEntry (opts : UnzipOptions) (out : io.Writer)
    (outputDir absOutputDir : string) (f : zip.File) : M unit :=
  if (0 <? List.length (FilePatterns opts))%nat
     && negb (matchesAny (zip.Name (zip.Header f)) (FilePatterns opts))
  then ret tt
  else
    let name := zip.Name (zip.Header f) in
    let name := if JunkPaths opts then filepath.Base name else name in
    let destPath := filepath.Join [outputDir; name] in
    placeEntry opts out absOutputDir f destPath.

(** [Unzip] extracts the contents of a zip archive. *)
Definition Unzip (zipPath : string) (opts : UnzipOptions) : M unit :=
  let out := if UnzipOutput opts then io.Sink else io.Discard in
  let outputDir := OutputDir opts in
  let outputDir := if outputDir =? "" then "." else outputDir in
  absOutputDir <- filepath_Abs outputDir
    orElse err => Errorf "resolve output dir" err ;;
  r <- zip_OpenReader zipPath
    orElse err => Errorf "open archive" err ;;
  forRange r (unzipEntry opts out outputDir absOutputDir).

(** *** List *)

(** [List] returns metadata for all entries in a zip archive. *)
Definition List (zipPath : string) : M (list ListEntry) :=
  r <- zip_OpenReader zipPath
    orElse err => Errorf "open archive" err ;;
  ret (map (fun f =>
         mkListEntry (zip.Name (zip.Header f))
           (zip.UncompressedSize64 (zip.Header f))
           (zip.CompressedSize64 (zip.Header f))
           (zip.Modified (zip.Header f))
           (zip.IsDir f)) r).

End Ziplib.

(** ** What the writer is to archive

    The files [Zip] is to take from a path it walks: nothing when the base
    name of the path matches an exclusion pattern, be it a file or a
    directory with all that is below it; the file itself when the path is a
    regular file; and for a directory what is to be taken from each of its
    names in turn.  A directory is never in the list. *)

Definition archivedEach (archived : string -> os.node -> list (string * os.node))
    (path : string) : list (string * os.node) -> list (string * os.node) :=
  fix each (names : list (string * os.node)) : list (string * os.node) :=
    match names with
    | [] => []
    | (name, child) :: names =>
        archived (filepath.Join [path; name]) child ++ each names
    end.

Fixpoint archived (excl : list string) (path : string) (n : os.node) {struct n}
    : list (string * os.node) :=
  if matchesAny path excl then []
  else
    match n with
    | os.File _ _ _ => [(path, n)]
    | os.Dir _ names =>
        archivedEach (fun filename child => archived excl filename child) path names
    end.

Definition methodFor (opts : ZipOptions) : Z :=
  if (CompressionLevel opts =? 0)%Z then zip.Store else zip.Deflate.

Definition levelFor (opts : ZipOptions) : Z :=
  if ((CompressionLevel opts <? -1) || (CompressionLevel opts >? 9))%Z
  then zip.DefaultCompression else CompressionLevel opts.

(** The entry written for the file [n] found at [path]. *)
Definition entryOf (opts : ZipOptions) (path : string) (n : os.node)
    : zip.FileHeader * list Byte.byte :=
  let info := os.infoOf path n in
  (zip.mkFileHeader path (methodFor opts) (os.ModTime info) (os.Mode info) (os.Size info) 0,
   match n with
   | os.File _ _ data => data
   | os.Dir _ _ => []
   end).

(** The state after a file was added: its entry is the last of the
    [zip.Writer] and the status sink has its line. *)
Definition zipAdd (opts : ZipOptions) (out : io.Writer) (s : World)
    (e : string * os.node) : World :=
  let w := zw s in
  fst (Fprintf out ("  adding: " ++ fst e ++ String "010" "")
         (setZw s (zip.mkWriter (zip.dest w) (zip.level w)
                     (zip.entries w ++ [entryOf opts (fst e) (snd e)])))).

(** ** A container format for the examples

    The examples need a codec that computes.  This one writes an entry as
    the length of its name, the name, the method, the mode, the time, the
    length of the data and the data, numbers in little-endian bytes, and
    stores every entry as it is. *)

Module refcodec.

Local Open Scope Z_scope.

Definition byteOfZ (z : Z) : Byte.byte :=
  match Byte.of_N (Z.to_N (z mod 256)) with
  | Some b => b
  | None => Byte.x00
  end.

Fixpoint putLE (width : nat) (z : Z) : list Byte.byte :=
  match width with
  | O => []
  | S width => byteOfZ z :: putLE width (z / 256)
  end.

Fixpoint getLE (bs : list Byte.byte) : Z :=
  match bs with
  | [] => 0
  | b :: bs => Z.of_N (Byte.to_N b) + 256 * getLE bs
  end.

Definition putEntry (e : zip.FileHeader * list Byte.byte) : list Byte.byte :=
  let (h, data) := e in
  let name := list_byte_of_string (zip.Name h) in
  putLE 4 (Z.of_nat (List.length name)) ++ name
  ++ putLE 1 (zip.Method h) ++ putLE 4 (zip.Mode h) ++ putLE 8 (zip.Modified h)
  ++ putLE 4 (Z.of_nat (List.length data)) ++ data.

Definition encode (level : Z) (es : list (zip.FileHeader * list Byte.byte))
    : list Byte.byte :=
  list_byte_of_string "ZIP" ++ flat_map putEntry es.

(** The first [n] bytes and the rest, if there are [n] bytes. *)
Definition take (n : nat) (bs : list Byte.byte) : option (list Byte.byte * list Byte.byte) :=
  if (n <=? List.length bs)%nat then Some (firstn n bs, skipn n bs) else None.

Definition getEntry (bs : list Byte.byte) : option (zip.File * list Byte.byte) :=
  match take 4 bs with
  | None => None
  | Some (n, bs) =>
  match take (Z.to_nat (getLE n)) bs with
  | None => None
  | Some (name, bs) =>
  match take 1 bs with
  | None => None
  | Some (method, bs) =>
  match take 4 bs with
  | None => None
  | Some (mode, bs) =>
  match take 8 bs with
  | None => None
  | Some (mtime, bs) =>
  match take 4 bs with
  | None => None
  | Some (n, bs) =>
  match take (Z.to_nat (getLE n)) bs with
  | None => None
  | Some (data, bs) =>
      Some (zip.mkFile
              (zip.mkFileHeader (string_of_list_byte name) (getLE method)
                 (getLE mtime) (getLE mode) (getLE n) (getLE n))
              (Ok (data, None)),
            bs)
  end end end end end end end.

Fixpoint getEntries (fuel : nat) (bs : list Byte.byte) : result (list zip.File) :=
  match bs with
  | [] => Ok []
  | _ :: _ =>
      match fuel, getEntry bs with
      | S fuel, Some (f, bs) =>
          match getEntries fuel bs with
          | Ok fs => Ok (f :: fs)
          | Err e => Err e
          end
      | _, _ => Err (errorString "zip: not a valid zip file")
      end
  end.

Definition decode (bs : list Byte.byte) : result (list zip.File) :=
  match take 3 bs with
  | Some (magic, bs) =>
      if (string_of_list_byte magic =? "ZIP")%string
      then getEntries (List.length bs) bs
      else Err (errorString "zip: not a valid zip file")
  | None => Err (errorString "zip: not a valid zip file")
  end.

Definition codec : zip.Codec := zip.mkCodec encode decode.

End refcodec.

(** The table of [TestMatchesAny] in [ziplib/match_test.go]. *)
Example TestMatchesAny :
  matchesAny "foo.txt" [] = false /\
  matchesAny "foo.txt" ["foo.txt"] = true /\
  matchesAny "foo.txt" ["*.txt"] = true /\
  matchesAny "foo.txt" ["*.go"] = false /\
  matchesAny "foo.txt" ["*.txt"; "*.go"] = true /\
  matchesAny "foo.go" ["*.txt"; "*.go"] = true /\
  matchesAny "foo.rs" ["*.txt"; "*.go"] = false /\
  matchesAny "dir/foo.txt" ["*.txt"] = true /\
  matchesAny "foo.txt" ["[invalid"] = false /\
  matchesAny "foo.txt" ["fo?.txt"] = true.
Proof. vm_compute. repeat split. Qed.


(** ** Worlds for the examples *)

Module Examples.

Local Open Scope Z_scope.

Definition bytes (s : string) : list Byte.byte := list_byte_of_string s.

Definition header (name : string) (mode : os.FileMode) : zip.FileHeader :=
  zip.mkFileHeader name zip.Deflate 100 mode 0 0.

Definition noWriter : zip.Writer := zip.mkWriter [] 0 [].

(** The archive of [TestUnzipZipSlipPrevention]: one entry named
    [../../etc/passwd] with the content [evil]. *)
Definition evilZip : list Byte.byte :=
  refcodec.encode 5 [(header "../../etc/passwd" 420, bytes "evil")].

(** A file system with that archive and an empty directory [/tmp]. *)
Definition evilWorld : World :=
  mkWorld
    (os.Dir 493 [("evil.zip"%string, os.File 420 100 evilZip);
                 ("tmp"%string, os.Dir 493 [])])
    "/" 1000 "" noWriter.

(** The entry as the reader hands it out. *)
Definition evilEntry : zip.File :=
  zip.mkFile (zip.mkFileHeader "../../etc/passwd" 8 100 420 4 4)
    (Ok (bytes "evil", None)).

Definition intoTmpOut (junkPaths : bool) : UnzipOptions :=
  mkUnzipOptions "/tmp/out" true junkPaths [] false.

(** The directory of [setupTestDir] in [ziplib_test.go], as [/src], next
    to an empty [/tmp]; the working directory is [/src]. *)
Definition srcDir : os.node :=
  os.Dir 493
    [("foo.go"%string, os.File 420 100 (bytes "package foo"));
     ("hello.txt"%string, os.File 420 100 (bytes "hello world"));
     ("sub"%string,
      os.Dir 493 [("nested.txt"%string, os.File 420 100 (bytes "nested content"))])].

Definition srcWorld : World :=
  mkWorld (os.Dir 493 [("src"%string, srcDir); ("tmp"%string, os.Dir 493 [])])
    "/src" 1000 "" noWriter.

Definition zipOpts (recursive : bool) (level : Z) (excl : list string) : ZipOptions :=
  mkZipOptions recursive level excl true.

(** An archive with the one file entry [a/b/f.txt] of mode 0600. *)
Definition nestedEntry : zip.File :=
  zip.mkFile (zip.mkFileHeader "a/b/f.txt" 8 100 384 5 5) (Ok (bytes "hello", None)).

Definition nestedWorld : World :=
  mkWorld
    (os.Dir 493
       [("n.zip"%string,
         os.File 420 100 (refcodec.encode 5 [(header "a/b/f.txt" 384, bytes "hello")]));
        ("tmp"%string, os.Dir 493 [])])
    "/" 1000 "" noWriter.

Definition unzipOpts (overwrite : bool) : UnzipOptions :=
  mkUnzipOptions "/tmp/out" overwrite false [] false.

(** An archive with the one directory entry [d/]. *)
Definition dirEntry : zip.File :=
  zip.mkFile (zip.mkFileHeader "d/" 0 100 (Z.lor os.ModeDir 493) 0 0) (Ok ([], None)).

Definition dirWorld : World :=
  mkWorld
    (os.Dir 493
       [("d.zip"%string,
         os.File 420 100 (refcodec.encode 5 [(header "d/" (Z.lor os.ModeDir 493), [])]));
        ("tmp"%string, os.Dir 493 [])])
    "/" 1000 "" noWriter.

(** The world of [nestedWorld] with a directory where the entry is to
    go. *)
Definition blockedWorld : World :=
  mkWorld
    (os.Dir 493
       [("n.zip"%string,
         os.File 420 100 (refcodec.encode 5 [(header "a/b/f.txt" 384, bytes "hello")]));
        ("tmp"%string,
         os.Dir 493
           [("out"%string,
             os.Dir 493
               [("a"%string,
                 os.Dir 493 [("b"%string, os.Dir 493 [("f.txt"%string, os.Dir 493 [])])])])])])
    "/" 1000 "" noWriter.

End Examples.

(** * Properties *)

Unset Implicit Arguments.

(** ** The pattern matcher *)

Lemma matchesAny_true_iff (name : string) (patterns : list string) :
  matchesAny name patterns = true <->
  exists p, In p patterns /\ filepath.Match p (filepath.Base name) = (true, None).
Proof.
  induction patterns as [|q patterns IH]; simpl.
  - split; [discriminate | intros (p & [] & _)].
  - destruct (filepath.Match q (filepath.Base name)) as [[|] [e|]] eqn:Hq.
    + rewrite IH. split.
      * intros (p & Hin & Hp). exists p. auto.
      * intros (p & [<-|Hin] & Hp); [congruence | exists p; auto].
    + split; [intros _; exists q; auto | reflexivity].
    + rewrite IH. split.
      * intros (p & Hin & Hp). exists p. auto.
      * intros (p & [<-|Hin] & Hp); [congruence | exists p; auto].
    + rewrite IH. split.
      * intros (p & Hin & Hp). exists p. auto.
      * intros (p & [<-|Hin] & Hp); [congruence | exists p; auto].
Qed.

Lemma matchesAny_false_iff (name : string) (patterns : list string) :
  matchesAny name patterns = false <->
  forall p, In p patterns -> filepath.Match p (filepath.Base name) <> (true, None).
Proof.
  rewrite <- Bool.not_true_iff_false, matchesAny_true_iff. split.
  - intros H p Hin Hp. apply H. exists p. auto.
  - intros H (p & Hin & Hp). exact (H p Hin Hp).
Qed.

(** C4. The pattern matcher answers false for the empty pattern list, and
    otherwise answers true exactly when some pattern of the list matches
    the base name of the name without an error of the pattern; a pattern
    with an error never makes it answer true and the answer is a boolean,
    so no error comes out.  Names with the same base name get the same
    answer. *)
Theorem matchesAny_base_name (name : string) (patterns : list string) :
  matchesAny name [] = false /\
  (matchesAny name patterns = true <->
   exists p, In p patterns /\ filepath.Match p (filepath.Base name) = (true, None)) /\
  (forall p, filepath.Match p (filepath.Base name) <> (true, None) ->
             matchesAny name (p :: patterns) = matchesAny name patterns) /\
  (forall name', filepath.Base name' = filepath.Base name ->
                 matchesAny name' patterns = matchesAny name patterns).
Proof.
  split; [reflexivity|]. split; [apply matchesAny_true_iff|]. split.
  - intros p H. simpl.
    destruct (filepath.Match p (filepath.Base name)) as [[|] [e|]];
      try reflexivity; congruence.
  - intros name' Hb. induction patterns as [|q patterns IH]; simpl; [reflexivity|].
    rewrite Hb, IH. reflexivity.
Qed.

(** ** Calls that only read *)

Ltac unfold_M :=
  unfold bind, wrapErr, ret, fail, defer in *.

Lemma resolve_state (op path : string) (s : World) :
  fst (resolve op path s) = s.
Proof. unfold resolve. destruct (os.namei _ _); reflexivity. Qed.

Lemma os_Stat_state (path : string) (s : World) :
  fst (os_Stat path s) = s.
Proof.
  unfold os_Stat, bind, resolve.
  destruct (os.namei _ _); [|reflexivity].
  destruct (os.lookup _ _); reflexivity.
Qed.

Lemma os_Open_state (path : string) (s : World) :
  fst (os_Open path s) = s.
Proof.
  unfold os_Open, bind, resolve.
  destruct (os.namei _ _); [|reflexivity].
  destruct (os.lookup _ _); reflexivity.
Qed.

Lemma os_reader_state (f : os.File_) (s : World) :
  fst (os_reader f s) = s.
Proof.
  unfold os_reader. destruct (os.lookup _ _) as [[]|]; reflexivity.
Qed.

Lemma zip_OpenReader_state (codec : zip.Codec) (path : string) (s : World) :
  fst (zip_OpenReader codec path s) = s.
Proof.
  unfold zip_OpenReader, bind.
  pose proof (os_Open_state path s) as Ho.
  destruct (os_Open path s) as [s1 [f|e]]; simpl in Ho; subst s1; [|reflexivity].
  pose proof (os_reader_state f s) as Hr.
  destruct (os_reader f s) as [s1 [[data [e|]]|e]]; simpl in Hr; subst s1;
    try reflexivity.
  simpl. destruct (zip.decode codec data); reflexivity.
Qed.

(** ** The lister *)

Definition metadata (f : zip.File) : ListEntry :=
  mkListEntry (zip.Name (zip.Header f))
    (zip.UncompressedSize64 (zip.Header f))
    (zip.CompressedSize64 (zip.Header f))
    (zip.Modified (zip.Header f))
    (zip.IsDir f).

(** C9. [List] leaves the state, the file system with it, as it was.  When
    the archive opens, the list has the metadata of every entry of the
    archive, one record for one entry and in the order of the archive,
    whether the entry is a file or a directory; when it does not open, the
    result is the error of the opening, wrapped, and no list. *)
Theorem List_metadata (codec : zip.Codec) (zipPath : string) (s : World) :
  fst (List codec zipPath s) = s /\
  match snd (zip_OpenReader codec zipPath s) with
  | Ok files =>
      exists l, snd (List codec zipPath s) = Ok l /\
                List.length l = List.length files /\
                forall i, nth_error l i = option_map metadata (nth_error files i)
  | Err err => snd (List codec zipPath s) = Err (Errorf "open archive" err)
  end.
Proof.
  unfold List, bind.
  pose proof (zip_OpenReader_state codec zipPath s) as Hs.
  destruct (zip_OpenReader codec zipPath s) as [s1 [files|e]]; simpl in *; subst s1.
  - split; [reflexivity|]. exists (map metadata files).
    split; [reflexivity|]. split; [apply length_map|].
    intros i. apply nth_error_map.
  - split; reflexivity.
Qed.

(** ** Directories without the recursive flag *)

Lemma os_Stat_found (path : string) (s : World) (elems : list string) (n : os.node) :
  os.namei (wd s) path = Some elems ->
  os.lookup (disk s) elems = Some n ->
  os_Stat path s = (s, Ok (os.infoOf path n)).
Proof.
  intros Hn Hl. unfold os_Stat, bind, resolve. rewrite Hn, Hl. reflexivity.
Qed.

(** C8. When a source path names a directory and [Recursive] is false,
    [addToZip] writes the line ["  adding: <path>/ (skipped, not
    recursive)"] to the status sink and does nothing else: no entry is
    created, the file system is as before, no error is returned, and the
    loop of [Zip] goes on with the next source path. *)
Theorem addToZip_skips_directory (path : string) (rest : list string)
    (opts : ZipOptions) (out : io.Writer) (s : World)
    (elems : list string) (perm : os.FileMode) (names : list (string * os.node)) :
  os.namei (wd s) path = Some elems ->
  os.lookup (disk s) elems = Some (os.Dir perm names) ->
  Recursive opts = false ->
  let line := ("  adding: " ++ path ++ "/ (skipped, not recursive)" ++ String "010" "")%string in
  let s' := fst (addToZip path opts out s) in
  snd (addToZip path opts out s) = Ok tt /\
  zw s' = zw s /\ disk s' = disk s /\
  sink s' = (match out with io.Sink => (sink s ++ line)%string | io.Discard => sink s end) /\
  forRange (path :: rest) (fun name => addToZip name opts out) s =
  forRange rest (fun name => addToZip name opts out) s'.
Proof.
  intros Hn Hl Hrec line s'.
  assert (Hadd : addToZip path opts out s = Fprintf out line s).
  { unfold addToZip, bind. rewrite (os_Stat_found path s _ _ Hn Hl). simpl.
    rewrite Hrec. reflexivity. }
  subst s'. simpl forRange. unfold bind. rewrite Hadd.
  destruct out; simpl; repeat split; reflexivity.
Qed.

(** ** Selection and naming of the entries to extract *)

(** C7. An entry of the archive is skipped, the state left as it is,
    exactly when [FilePatterns] is not empty and no pattern of it matches
    the base name of the entry name; so with an empty [FilePatterns] no
    entry is skipped.  An entry that is not skipped is placed at the
    output directory joined with the base name of the entry name when
    [JunkPaths] is set, and with the whole entry name otherwise. *)
Theorem unzipEntry_selection (opts : UnzipOptions) (out : io.Writer)
    (outputDir absOutputDir : string) (f : zip.File) :
  let name := zip.Name (zip.Header f) in
  let target := if JunkPaths opts then filepath.Base name else name in
  exists skipped : bool,
    (skipped = true <->
     FilePatterns opts <> [] /\
     forall p, In p (FilePatterns opts) ->
               filepath.Match p (filepath.Base name) <> (true, None)) /\
    (FilePatterns opts = [] -> skipped = false) /\
    unzipEntry opts out outputDir absOutputDir f =
    if skipped then ret tt
    else placeEntry opts out absOutputDir f (filepath.Join [outputDir; target]).
Proof.
  intros name target.
  exists ((0 <? List.length (FilePatterns opts))%nat
          && negb (matchesAny name (FilePatterns opts))).
  split; [|split].
  - rewrite Bool.andb_true_iff, Bool.negb_true_iff, matchesAny_false_iff.
    rewrite Nat.ltb_lt.
    destruct (FilePatterns opts); simpl; split; intros [H1 H2]; split; auto;
      try lia; try congruence.
  - intros ->. reflexivity.
  - reflexivity.
Qed.

(** ** Relations every step of a computation keeps

    [preserves R m]: the state [m] ends in is related by [R] to the state
    it starts in.  For a reflexive and transitive [R] this goes through
    the combinators of computations. *)

Section Preserves.

Variable R : World -> World -> Prop.
Hypothesis R_refl : forall s, R s s.
Hypothesis R_trans : forall s1 s2 s3, R s1 s2 -> R s2 s3 -> R s1 s3.

Definition preserves {A : Type} (m : M A) : Prop :=
  forall s, R s (fst (m s)).

Lemma preserves_ret {A : Type} (a : A) : preserves (ret a).
Proof. intros s. apply R_refl. Qed.

Lemma preserves_fail {A : Type} (e : error) : preserves (@fail A e).
Proof. intros s. apply R_refl. Qed.

Lemma preserves_pure {A : Type} (r : World -> result A) :
  preserves (fun s => (s, r s)).
Proof. intros s. apply R_refl. Qed.

Lemma preserves_bind {A B : Type} (m : M A) (wrap : error -> error) (k : A -> M B) :
  preserves m -> (forall a, preserves (k a)) -> preserves (bind m wrap k).
Proof.
  intros Hm Hk s. unfold bind. specialize (Hm s).
  destruct (m s) as [s1 [a|e]]; simpl in *; [|exact Hm].
  eapply R_trans; [exact Hm | apply Hk].
Qed.

Lemma preserves_wrapErr {A : Type} (m : M A) (wrap : error -> error) :
  preserves m -> preserves (wrapErr m wrap).
Proof.
  intros Hm s. unfold wrapErr. specialize (Hm s).
  destruct (m s) as [s1 [a|e]]; exact Hm.
Qed.

Lemma preserves_forRange {A : Type} (xs : list A) (body : A -> M unit) :
  (forall x, preserves (body x)) -> preserves (forRange xs body).
Proof.
  intros Hb. induction xs as [|x xs IH]; simpl.
  - apply preserves_ret.
  - apply preserves_bind; [apply Hb | intros _; exact IH].
Qed.

Lemma preserves_if {A : Type} (b : bool) (m1 m2 : M A) :
  preserves m1 -> preserves m2 -> preserves (if b then m1 else m2).
Proof. destruct b; auto. Qed.

Lemma preserves_ext {A : Type} (m m' : M A) :
  (forall s, m s = m' s) -> preserves m -> preserves m'.
Proof. intros E H s. rewrite <- E. apply H. Qed.

(** The calls that read. *)

Lemma preserves_resolve (op path : string) : preserves (resolve op path).
Proof. intros s. rewrite resolve_state. apply R_refl. Qed.

Lemma preserves_os_Stat (path : string) : preserves (os_Stat path).
Proof. intros s. rewrite os_Stat_state. apply R_refl. Qed.

Lemma preserves_os_Open (path : string) : preserves (os_Open path).
Proof. intros s. rewrite os_Open_state. apply R_refl. Qed.

Lemma preserves_os_reader (f : os.File_) : preserves (os_reader f).
Proof. intros s. rewrite os_reader_state. apply R_refl. Qed.

Lemma preserves_filepath_Abs (path : string) : preserves (filepath_Abs path).
Proof. intros s. apply R_refl. Qed.

(** The calls that write, given that the three kinds of change keep
    [R]: a successful update of the tree, text sent to the sink, a change
    of the [zip.Writer]. *)

Hypothesis R_update :
  forall s mk leaf elems n,
    (exists perm now data mtime,
       (mk = Some perm /\ leaf = os.mkdirLeaf perm) \/
       (mk = None /\ leaf = os.truncLeaf perm now) \/
       (mk = None /\ leaf = os.writeLeaf now data) \/
       (mk = None /\ leaf = os.chtimesLeaf mtime)) ->
    os.update mk leaf (disk s) elems = inr n -> R s (setDisk s n).
Hypothesis R_sink : forall s text, R s (setSink s text).
Hypothesis R_zw : forall s w, R s (setZw s w).

Lemma preserves_os_MkdirAll (path : string) (perm : os.FileMode) :
  preserves (os_MkdirAll path perm).
Proof.
  unfold os_MkdirAll. apply preserves_bind; [apply preserves_resolve|].
  intros elems s. unfold os_update.
  destruct (os.update _ _ _ _) eqn:E; [apply R_refl|]. simpl.
  eapply R_update; [|exact E]. exists (os.Perm perm), 0%Z, [], 0%Z. auto.
Qed.

Lemma preserves_os_OpenFile (path : string) (perm : os.FileMode) :
  preserves (os_OpenFile path perm).
Proof.
  unfold os_OpenFile. apply preserves_bind; [apply preserves_resolve|].
  intros elems. apply preserves_bind; [|intros; apply preserves_ret].
  intros s. unfold os_update.
  destruct (os.update _ _ _ _) eqn:E; [apply R_refl|]. simpl.
  eapply R_update; [|exact E]. exists (os.Perm perm), (clock s), [], 0%Z. auto.
Qed.

Lemma preserves_os_Chtimes (path : string) (atime mtime : Z) :
  preserves (os_Chtimes path atime mtime).
Proof.
  unfold os_Chtimes. apply preserves_bind; [apply preserves_resolve|].
  intros elems s. unfold os_update.
  destruct (os.update _ _ _ _) eqn:E; [apply R_refl|]. simpl.
  eapply R_update; [|exact E]. exists 0%Z, 0%Z, [], mtime. auto 6.
Qed.

Lemma preserves_os_Write (f : os.File_) (data : list Byte.byte) :
  preserves (os_Write f data).
Proof.
  intros s. unfold os_Write, os_update.
  destruct (os.update _ _ _ _) eqn:E; [apply R_refl|]. simpl.
  eapply R_update; [|exact E]. exists 0%Z, (clock s), data, 0%Z. auto 6.
Qed.

Lemma preserves_zip_Write (data : list Byte.byte) : preserves (zip_Write data).
Proof. intros s. apply R_zw. Qed.

Lemma preserves_io_Copy (dst : io.Dst) (src : io.Reader) :
  preserves (io_Copy dst src).
Proof.
  unfold io_Copy. apply preserves_bind.
  - destruct dst; [apply preserves_os_Write | apply preserves_zip_Write].
  - intros _. destruct (snd src); [apply preserves_fail | apply preserves_ret].
Qed.

Lemma preserves_Fprintf (out : io.Writer) (text : string) :
  preserves (Fprintf out text).
Proof. destruct out; intros s; simpl; [apply R_refl | apply R_sink]. Qed.

Lemma preserves_extractFile (f : zip.File) (destPath : string) (overwrite : bool)
    (out : io.Writer) :
  preserves (extractFile f destPath overwrite out).
Proof.
  unfold extractFile.
  apply preserves_bind.
  { destruct overwrite; simpl; [apply preserves_ret|].
    intros s. pose proof (os_Stat_state destPath s) as E.
    destruct (os_Stat destPath s) as [s1 [|]]; simpl in *; subst; apply R_refl. }
  intros _. apply preserves_bind; [apply preserves_os_MkdirAll|].
  intros _. apply preserves_bind; [apply preserves_pure|].
  intros rc. apply preserves_bind; [apply preserves_os_OpenFile|].
  intros w. apply preserves_bind; [apply preserves_io_Copy|].
  intros _. apply preserves_Fprintf.
Qed.

Lemma preserves_placeEntry (opts : UnzipOptions) (out : io.Writer)
    (absOutputDir : string) (f : zip.File) (destPath : string) :
  preserves (placeEntry opts out absOutputDir f destPath).
Proof.
  unfold placeEntry.
  apply preserves_bind; [apply preserves_filepath_Abs|]. intros absDest.
  apply preserves_if; [apply preserves_fail|].
  apply preserves_if.
  - apply preserves_wrapErr, preserves_os_MkdirAll.
  - apply preserves_bind; [apply preserves_extractFile|].
    intros _. apply preserves_wrapErr, preserves_os_Chtimes.
Qed.

Lemma preserves_unzipEntry (opts : UnzipOptions) (out : io.Writer)
    (outputDir absOutputDir : string) (f : zip.File) :
  preserves (unzipEntry opts out outputDir absOutputDir f).
Proof.
  unfold unzipEntry.
  apply preserves_if; [apply preserves_ret | apply preserves_placeEntry].
Qed.

End Preserves.

(** ** The frame of a run: working directory and clock stay *)

Definition sameEnv (s s' : World) : Prop :=
  wd s' = wd s /\ clock s' = clock s.

Lemma sameEnv_refl (s : World) : sameEnv s s.
Proof. split; reflexivity. Qed.

Lemma sameEnv_trans (s1 s2 s3 : World) : sameEnv s1 s2 -> sameEnv s2 s3 -> sameEnv s1 s3.
Proof. unfold sameEnv. intros [] []. split; congruence. Qed.

Lemma unzipEntry_sameEnv (opts : UnzipOptions) (out : io.Writer)
    (outputDir absOutputDir : string) (f : zip.File) (s : World) :
  sameEnv s (fst (unzipEntry opts out outputDir absOutputDir f s)).
Proof.
  apply (@preserves_unzipEntry sameEnv sameEnv_refl sameEnv_trans);
    intros; split; reflexivity.
Qed.

Lemma unzipRange_sameEnv (opts : UnzipOptions) (out : io.Writer)
    (outputDir absOutputDir : string) (files : list zip.File) (s : World) :
  sameEnv s (fst (forRange files (unzipEntry opts out outputDir absOutputDir) s)).
Proof.
  apply (@preserves_forRange sameEnv sameEnv_refl sameEnv_trans).
  intros f s'. apply unzipEntry_sameEnv.
Qed.

(** ** Loops *)

Lemma forRange_app {A : Type} (pre post : list A) (body : A -> M unit) (s s1 : World) :
  forRange pre body s = (s1, Ok tt) ->
  forRange (pre ++ post) body s = forRange post body s1.
Proof.
  revert s. induction pre as [|x pre IH]; simpl; intros s H.
  - unfold ret in H. congruence.
  - unfold bind in *. destruct (body x s) as [s2 [[]|e]]; [|discriminate].
    apply IH. exact H.
Qed.

Lemma forRange_stops {A : Type} (pre post : list A) (x : A) (body : A -> M unit)
    (s s1 s2 : World) (e : error) :
  forRange pre body s = (s1, Ok tt) ->
  body x s1 = (s2, Err e) ->
  forRange (pre ++ x :: post) body s = (s2, Err e).
Proof.
  intros Hpre Hx. rewrite (forRange_app pre (x :: post) body s s1 Hpre).
  simpl. unfold bind.
  rewrite Hx. reflexivity.
Qed.

(** ** Unzip as the loop over the entries *)

Definition statusWriter (given : bool) : io.Writer :=
  if given then io.Sink else io.Discard.

Definition outputDirOf (opts : UnzipOptions) : string :=
  if (OutputDir opts =? "")%string then "."%string else OutputDir opts.

(** The entry would be taken by the filter of [Unzip]. *)
Definition selected (opts : UnzipOptions) (f : zip.File) : Prop :=
  FilePatterns opts = [] \/
  exists p, In p (FilePatterns opts) /\
            filepath.Match p (filepath.Base (zip.Name (zip.Header f))) = (true, None).

(** The name the entry gets under the output directory. *)
Definition targetName (opts : UnzipOptions) (f : zip.File) : string :=
  if JunkPaths opts then filepath.Base (zip.Name (zip.Header f))
  else zip.Name (zip.Header f).

Definition destPathOf (opts : UnzipOptions) (f : zip.File) : string :=
  filepath.Join [outputDirOf opts; targetName opts f].

(** The resolved destination is the resolved root or lies within it. *)
Definition within (absOutputDir absDest : string) : Prop :=
  absDest = absOutputDir \/
  exists rest, absDest = (absOutputDir ++ "/" ++ rest)%string.

Lemma Unzip_loop (codec : zip.Codec) (zipPath : string) (opts : UnzipOptions)
    (s : World) (files : list zip.File) :
  snd (zip_OpenReader codec zipPath s) = Ok files ->
  Unzip codec zipPath opts s =
  forRange files
    (unzipEntry opts (statusWriter (UnzipOutput opts)) (outputDirOf opts)
       (filepath.Abs (wd s) (outputDirOf opts))) s.
Proof.
  intros H. unfold Unzip, bind, filepath_Abs.
  pose proof (zip_OpenReader_state codec zipPath s) as Hs.
  destruct (zip_OpenReader codec zipPath s) as [s1 [fl|e]]; simpl in *; [|discriminate].
  subst s1. injection H as ->. reflexivity.
Qed.

Lemma unzipEntry_selected (opts : UnzipOptions) (out : io.Writer)
    (outputDir absOutputDir : string) (f : zip.File) :
  selected opts f ->
  unzipEntry opts out outputDir absOutputDir f =
  placeEntry opts out absOutputDir f
    (filepath.Join [outputDir;
       if JunkPaths opts then filepath.Base (zip.Name (zip.Header f))
       else zip.Name (zip.Header f)]).
Proof.
  intros Hsel. unfold unzipEntry.
  destruct (((0 <? List.length (FilePatterns opts))%nat
             && negb (matchesAny (zip.Name (zip.Header f)) (FilePatterns opts)))) eqn:E;
    [|reflexivity].
  apply Bool.andb_true_iff in E. destruct E as [E1 E2].
  apply Bool.negb_true_iff in E2. apply Nat.ltb_lt in E1.
  destruct Hsel as [Hnil | Hm].
  - rewrite Hnil in E1. simpl in E1. lia.
  - apply matchesAny_true_iff in Hm. congruence.
Qed.

Lemma prefix_iff (pre s : string) :
  String.prefix pre s = true <-> exists rest, s = (pre ++ rest)%string.
Proof.
  revert s. induction pre as [|c pre IH]; intros s.
  - destruct s; simpl; (split; [intros _; eexists; reflexivity | reflexivity]).
  - destruct s as [|d s]; simpl.
    + split; [discriminate | intros (rest & H); discriminate].
    + destruct (Ascii.ascii_dec c d) as [->|Hne].
      * rewrite IH. split; intros (rest & H); exists rest.
        -- rewrite H. reflexivity.
        -- injection H. auto.
      * split; [discriminate | intros (rest & H); congruence].
Qed.

Lemma append_assoc (a b c : string) : ((a ++ b) ++ c = a ++ (b ++ c))%string.
Proof. induction a; simpl; congruence. Qed.

Lemma guard_within (absOutputDir absDest : string) :
  negb (strings.HasPrefix absDest (absOutputDir ++ String filepath.Separator ""))
  && negb (absDest =? absOutputDir)%string = false <->
  within absOutputDir absDest.
Proof.
  unfold within, strings.HasPrefix.
  rewrite Bool.andb_false_iff, !Bool.negb_false_iff, prefix_iff, String.eqb_eq.
  split.
  - intros [(rest & ->)|H]; [right|left; exact H].
    exists rest. rewrite append_assoc. reflexivity.
  - intros [H|(rest & ->)]; [right; exact H|left].
    exists rest. rewrite append_assoc. reflexivity.
Qed.

(** ** Paths: elements, cleaning and resolution *)

Definition slashFree (s : string) : Prop := strings.ContainsSlash s = false.

(** A real name of a directory entry. *)
Definition plainName (s : string) : Prop :=
  slashFree s /\ s <> ""%string /\ s <> "."%string /\ s <> ".."%string.

Lemma SplitSlash_nonempty (s : string) : strings.SplitSlash s <> [].
Proof.
  destruct s as [|c r]; simpl; [discriminate|].
  destruct (Ascii.eqb c "/"); [discriminate|].
  destruct (strings.SplitSlash r); discriminate.
Qed.

Lemma SplitSlash_app (a b : string) :
  strings.SplitSlash (a ++ "/" ++ b) = strings.SplitSlash a ++ strings.SplitSlash b.
Proof.
  induction a as [|c r IH]; simpl; [reflexivity|].
  destruct (Ascii.eqb c "/"); simpl.
  - f_equal. exact IH.
  - simpl in IH. rewrite IH.
    pose proof (SplitSlash_nonempty r) as Hne.
    destruct (strings.SplitSlash r); [congruence | reflexivity].
Qed.

Lemma SplitSlash_slashFree (s : string) :
  Forall slashFree (strings.SplitSlash s).
Proof.
  induction s as [|c r IH]; simpl.
  - constructor; [reflexivity | constructor].
  - destruct (Ascii.eqb c "/") eqn:E.
    + constructor; [reflexivity | exact IH].
    + destruct (strings.SplitSlash r) as [|x xs].
      * constructor; [|constructor]. unfold slashFree. simpl. rewrite E. reflexivity.
      * inversion IH; subst. constructor; [|assumption].
        unfold slashFree in *. simpl. rewrite E. assumption.
Qed.

Lemma SplitSlash_single (s : string) :
  slashFree s -> strings.SplitSlash s = [s].
Proof.
  unfold slashFree. induction s as [|c r IH]; simpl; [reflexivity|].
  intros H. apply Bool.orb_false_iff in H. destruct H as [Hc Hr].
  rewrite Hc, (IH Hr). reflexivity.
Qed.

Lemma SplitSlash_JoinSlash (elems : list string) :
  elems <> [] -> Forall slashFree elems ->
  strings.SplitSlash (strings.JoinSlash elems) = elems.
Proof.
  induction elems as [|e rest IH]; [congruence|]. intros _ Hall.
  inversion Hall as [|? ? He Hrest]; subst.
  destruct rest as [|e' rest'].
  - simpl. apply SplitSlash_single. exact He.
  - change (strings.JoinSlash (e :: e' :: rest'))
      with (e ++ "/" ++ strings.JoinSlash (e' :: rest'))%string.
    rewrite SplitSlash_app, (SplitSlash_single _ He), IH; [reflexivity|discriminate|assumption].
Qed.

Lemma JoinSlash_cons (e : string) (rest : list string) :
  rest <> [] ->
  strings.JoinSlash (e :: rest) = (e ++ "/" ++ strings.JoinSlash rest)%string.
Proof. destruct rest; [congruence | reflexivity]. Qed.

(** The rooted machine of [Clean] is the walk of path resolution. *)
Lemma cleanStep_rooted (elems : list string) (st : list string) :
  fold_left (filepath.cleanStep true) elems (0, st) =
  (0, fold_left os.nameiStep elems st).
Proof.
  revert st. induction elems as [|e elems IH]; intros st; simpl; [reflexivity|].
  unfold os.nameiStep at 2.
  destruct ((e =? "") || (e =? "."))%string; [apply IH|].
  destruct (e =? "..")%string; [|apply IH].
  destruct st; simpl; apply IH.
Qed.

(** What the walk pushes are real names. *)
Lemma nameiStep_plain (elems st : list string) :
  Forall slashFree elems -> Forall plainName st ->
  Forall plainName (fold_left os.nameiStep elems st).
Proof.
  revert st. induction elems as [|e elems IH]; intros st Hel Hst; simpl; [exact Hst|].
  inversion Hel as [|? ? He Hrest]; subst. apply IH; [exact Hrest|].
  unfold os.nameiStep.
  destruct (e =? "")%string eqn:E1; [exact Hst|].
  destruct (e =? ".")%string eqn:E2; [exact Hst|]. simpl.
  destruct (e =? "..")%string eqn:E3.
  - destruct st; [constructor|]. inversion Hst; assumption.
  - constructor; [|exact Hst].
    apply String.eqb_neq in E1, E2, E3. repeat split; assumption.
Qed.

Lemma nameiStep_push (names st : list string) :
  Forall plainName names ->
  fold_left os.nameiStep names st = rev names ++ st.
Proof.
  revert st. induction names as [|e names IH]; intros st H; simpl; [reflexivity|].
  inversion H as [|? ? (Hs & H1 & H2 & H3) Hrest]; subst.
  unfold os.nameiStep at 2.
  apply String.eqb_neq in H1, H2, H3. rewrite H1, H2, H3. simpl.
  rewrite (IH _ Hrest), <- app_assoc. reflexivity.
Qed.

Lemma plainName_slashFree (names : list string) :
  Forall plainName names -> Forall slashFree names.
Proof. intros H. eapply Forall_impl; [|exact H]. intros a (Ha & _). exact Ha. Qed.

Lemma IsAbs_cons (c : ascii) (r : string) :
  filepath.IsAbs (String c r) = Ascii.eqb c "/".
Proof.
  unfold filepath.IsAbs, strings.HasPrefix.
  change (String.prefix "/" (String c r))
    with (if Ascii.ascii_dec "/" c then String.prefix "" r else false).
  destruct (Ascii.ascii_dec "/" c) as [<-|Hne].
  - destruct r; reflexivity.
  - symmetry. apply Ascii.eqb_neq. congruence.
Qed.

Lemma IsAbs_append (a b : string) :
  a <> ""%string -> filepath.IsAbs (a ++ b) = filepath.IsAbs a.
Proof. destruct a; [congruence|]. intros _. simpl. rewrite !IsAbs_cons. reflexivity. Qed.

Lemma IsAbs_slashFree (s : string) :
  slashFree s -> filepath.IsAbs s = false.
Proof.
  destruct s; [reflexivity|]. unfold slashFree. simpl. rewrite IsAbs_cons.
  intros H. apply Bool.orb_false_iff in H. tauto.
Qed.

(** The elements the relative machine of [Clean] keeps, replayed by the
    walk of path resolution. *)
Definition replay (buf : filepath.cleanBuf) (st : list string) : list string :=
  fold_left os.nameiStep (filepath.cleanElems buf) st.

Lemma repeat_snoc {A : Type} (x : A) (n : nat) : repeat x (S n) = repeat x n ++ [x].
Proof. induction n; simpl in *; congruence. Qed.

Lemma replay_push (dd : nat) (out : list string) (x : string) (st : list string) :
  replay (dd, x :: out) st = os.nameiStep (replay (dd, out) st) x.
Proof.
  unfold replay, filepath.cleanElems. simpl fst. simpl snd. simpl rev.
  rewrite app_assoc, fold_left_app. reflexivity.
Qed.

Lemma replay_dotdot (dd : nat) (st : list string) :
  replay (S dd, []) st = os.nameiStep (replay (dd, []) st) "..".
Proof.
  unfold replay, filepath.cleanElems. simpl fst. simpl snd. simpl rev.
  rewrite !app_nil_r, repeat_snoc, fold_left_app. reflexivity.
Qed.

Lemma nameiStep_plainName (st : list string) (x : string) :
  plainName x -> os.nameiStep st x = x :: st.
Proof.
  intros (_ & H1 & H2 & H3). apply String.eqb_neq in H1, H2, H3.
  unfold os.nameiStep. rewrite H1, H2, H3. reflexivity.
Qed.

Lemma replay_step (dd : nat) (out : list string) (e : string) (st : list string) :
  Forall plainName out -> slashFree e ->
  replay (filepath.cleanStep false (dd, out) e) st = os.nameiStep (replay (dd, out) st) e /\
  Forall plainName (snd (filepath.cleanStep false (dd, out) e)).
Proof.
  intros Hout He. unfold filepath.cleanStep.
  destruct (e =? "")%string eqn:E1.
  { simpl. split; [|exact Hout]. unfold os.nameiStep. rewrite E1. reflexivity. }
  destruct (e =? ".")%string eqn:E2.
  { simpl. split; [|exact Hout]. unfold os.nameiStep. rewrite E1, E2. reflexivity. }
  simpl. destruct (e =? "..")%string eqn:E3.
  - apply String.eqb_eq in E3. subst e. destruct out as [|x out'].
    + split; [apply replay_dotdot | constructor].
    + inversion Hout as [|? ? Hx Hout']; subst. split; [|exact Hout'].
      rewrite replay_push, (nameiStep_plainName _ _ Hx). reflexivity.
  - assert (Hp : plainName e).
    { apply String.eqb_neq in E1, E2, E3. repeat split; assumption. }
    split; [|constructor; assumption].
    rewrite replay_push. reflexivity.
Qed.

Lemma replay_fold (elems : list string) (dd : nat) (out st : list string) :
  Forall plainName out -> Forall slashFree elems ->
  replay (fold_left (filepath.cleanStep false) elems (dd, out)) st =
  fold_left os.nameiStep elems (replay (dd, out) st).
Proof.
  revert dd out. induction elems as [|e elems IH]; intros dd out Hout Hel;
    cbn [fold_left]; [reflexivity|].
  inversion Hel as [|? ? He Hrest]; subst.
  destruct (replay_step dd out e st Hout He) as [Hstep Hplain].
  destruct (filepath.cleanStep false (dd, out) e) as [dd' out'] eqn:E.
  rewrite (IH dd' out' Hplain Hrest), Hstep. reflexivity.
Qed.

Lemma cleanStep_false_plain (elems : list string) (dd : nat) (out : list string) :
  Forall plainName out -> Forall slashFree elems ->
  Forall plainName (snd (fold_left (filepath.cleanStep false) elems (dd, out))).
Proof.
  revert dd out. induction elems as [|e elems IH]; intros dd out Hout Hel;
    cbn [fold_left]; [exact Hout|].
  inversion Hel as [|? ? He Hrest]; subst.
  destruct (replay_step dd out e [] Hout He) as [_ Hplain].
  destruct (filepath.cleanStep false (dd, out) e) as [dd' out'].
  apply IH; assumption.
Qed.

Definition dotsOrPlain (s : string) : Prop := s = ".."%string \/ plainName s.

Lemma cleanElems_dotsOrPlain (dd : nat) (out : list string) :
  Forall plainName out -> Forall dotsOrPlain (filepath.cleanElems (dd, out)).
Proof.
  intros H. unfold filepath.cleanElems. apply Forall_app. split.
  - simpl. induction dd; simpl; constructor; [left; reflexivity | assumption].
  - simpl. apply Forall_rev. eapply Forall_impl; [|exact H]. intros a Ha. right. exact Ha.
Qed.

Lemma dotsOrPlain_slashFree (elems : list string) :
  Forall dotsOrPlain elems -> Forall slashFree elems.
Proof.
  intros H. eapply Forall_impl; [|exact H].
  intros a [->|(Ha & _)]; [reflexivity | exact Ha].
Qed.

Lemma JoinSlash_IsAbs (elems : list string) :
  Forall dotsOrPlain elems -> filepath.IsAbs (strings.JoinSlash elems) = false.
Proof.
  destruct elems as [|e rest]; [reflexivity|]. intros H.
  inversion H as [|? ? He Hrest]; subst.
  assert (Hne : e <> ""%string) by (destruct He as [->|(_ & Hn & _)]; [discriminate|exact Hn]).
  assert (Hsf : slashFree e) by (destruct He as [->|(Hs & _)]; [reflexivity|exact Hs]).
  destruct rest.
  - simpl. apply IsAbs_slashFree. exact Hsf.
  - rewrite JoinSlash_cons by discriminate. rewrite IsAbs_append by exact Hne.
    apply IsAbs_slashFree. exact Hsf.
Qed.

Lemma JoinSlash_empty (elems : list string) :
  Forall dotsOrPlain elems -> strings.JoinSlash elems = ""%string -> elems = [].
Proof.
  destruct elems as [|e rest]; [reflexivity|]. intros H.
  inversion H as [|? ? He Hrest]; subst.
  assert (Hne : e <> ""%string) by (destruct He as [->|(_ & Hn & _)]; [discriminate|exact Hn]).
  destruct rest.
  - simpl. congruence.
  - rewrite JoinSlash_cons by discriminate. destruct e; [congruence|discriminate].
Qed.

(** Resolution does not see whether a path was cleaned. *)
Lemma nameiRev_Clean (wd path : string) :
  os.nameiRev wd (filepath.Clean path) = os.nameiRev wd path /\
  filepath.Clean path <> ""%string.
Proof.
  unfold os.nameiRev, filepath.Clean.
  pose proof (SplitSlash_slashFree path) as Hsf.
  destruct (filepath.IsAbs path) eqn:Habs.
  - rewrite cleanStep_rooted. unfold filepath.cleanString, filepath.cleanElems.
    simpl fst. simpl snd. simpl repeat. simpl app.
    set (st := fold_left os.nameiStep (strings.SplitSlash path) []).
    assert (Hst : Forall plainName st) by (apply nameiStep_plain; [exact Hsf|constructor]).
    split; [|discriminate].
    change ("/" ++ strings.JoinSlash (rev st))%string
      with (String "/" (strings.JoinSlash (rev st))).
    rewrite IsAbs_cons. simpl.
    destruct (rev st) as [|x xs] eqn:Erev.
    + simpl. apply (f_equal (@rev string)) in Erev. rewrite rev_involutive in Erev.
      simpl in Erev. symmetry. exact Erev.
    + rewrite SplitSlash_JoinSlash; [|discriminate|].
      * rewrite <- Erev. rewrite nameiStep_push by (apply Forall_rev; exact Hst).
        rewrite rev_involutive. simpl. unfold os.nameiStep. simpl.
        apply app_nil_r.
      * rewrite <- Erev. apply plainName_slashFree, Forall_rev. exact Hst.
  - set (W := fold_left os.nameiStep (strings.SplitSlash wd) []).
    destruct (fold_left (filepath.cleanStep false) (strings.SplitSlash path) (0, []))
      as [dd out] eqn:Ebuf.
    assert (Hout : Forall plainName out).
    { pose proof (cleanStep_false_plain (strings.SplitSlash path) 0 [] (Forall_nil _) Hsf) as H.
      rewrite Ebuf in H. exact H. }
    pose proof (cleanElems_dotsOrPlain dd out Hout) as Hdp.
    pose proof (replay_fold (strings.SplitSlash path) 0 [] W (Forall_nil _) Hsf) as Hrep.
    rewrite Ebuf in Hrep. unfold replay at 2 in Hrep. simpl in Hrep.
    unfold filepath.cleanString.
    destruct (strings.JoinSlash (filepath.cleanElems (dd, out)) =? "")%string eqn:Eempty.
    + apply String.eqb_eq in Eempty. apply (JoinSlash_empty _ Hdp) in Eempty.
      split; [|discriminate]. simpl. unfold os.nameiStep at 1. simpl.
      rewrite <- Hrep. unfold replay. rewrite Eempty. reflexivity.
    + apply String.eqb_neq in Eempty. split; [|exact Eempty].
      rewrite (JoinSlash_IsAbs _ Hdp).
      rewrite SplitSlash_JoinSlash.
      * exact Hrep.
      * intros E. rewrite E in Eempty. apply Eempty. reflexivity.
      * apply dotsOrPlain_slashFree. exact Hdp.
Qed.

Lemma Abs_elems (wd path : string) :
  filepath.IsAbs wd = true ->
  filepath.Abs wd path = ("/" ++ strings.JoinSlash (rev (os.nameiRev wd path)))%string.
Proof.
  intros Hwd. unfold filepath.Abs, os.nameiRev.
  destruct (filepath.IsAbs path) eqn:Habs.
  - unfold filepath.Clean. rewrite Habs, cleanStep_rooted. reflexivity.
  - assert (Hne : wd <> ""%string) by (intros ->; discriminate).
    cbn [filepath.Join]. apply String.eqb_neq in Hne. rewrite Hne.
    apply String.eqb_neq in Hne.
    change (strings.JoinSlash [wd; path]) with (wd ++ "/" ++ path)%string.
    unfold filepath.Clean. rewrite (IsAbs_append _ _ Hne), Hwd.
    rewrite SplitSlash_app, fold_left_app, !cleanStep_rooted. reflexivity.
Qed.

Lemma nameiRev_append (wd dir name : string) :
  dir <> ""%string ->
  os.nameiRev wd (dir ++ "/" ++ name) =
  fold_left os.nameiStep (strings.SplitSlash name) (os.nameiRev wd dir).
Proof.
  intros Hne. unfold os.nameiRev.
  rewrite (IsAbs_append _ _ Hne), SplitSlash_app, fold_left_app. reflexivity.
Qed.

Lemma nameiRev_Join (wd dir name : string) :
  dir <> ""%string ->
  os.nameiRev wd (filepath.Join [dir; name]) =
  fold_left os.nameiStep (strings.SplitSlash name) (os.nameiRev wd dir) /\
  filepath.Join [dir; name] <> ""%string.
Proof.
  intros Hne. cbn [filepath.Join].
  pose proof Hne as Hb. apply String.eqb_neq in Hb. rewrite Hb.
  change (strings.JoinSlash [dir; name]) with (dir ++ "/" ++ name)%string.
  destruct (nameiRev_Clean wd (dir ++ "/" ++ name)) as [H1 H2].
  split; [|exact H2]. rewrite H1. apply nameiRev_append. exact Hne.
Qed.

(** A real name joined to a path resolves to the child of that name. *)
Lemma namei_Join (wd dir name : string) (elems : list string) :
  plainName name ->
  os.namei wd dir = Some elems ->
  os.namei wd (filepath.Join [dir; name]) = Some (elems ++ [name]).
Proof.
  intros Hname. unfold os.namei.
  destruct (dir =? "")%string eqn:Hd; [discriminate|]. intros H. injection H as <-.
  apply String.eqb_neq in Hd.
  destruct (nameiRev_Join wd dir name Hd) as [H1 H2].
  apply String.eqb_neq in H2. rewrite H2, H1.
  rewrite (SplitSlash_single _ (proj1 Hname)). simpl.
  rewrite (nameiStep_plainName _ _ Hname). reflexivity.
Qed.

(** *** Strings with and without separators *)

Lemma append_inj_l (x y z : string) : (x ++ y = x ++ z)%string -> y = z.
Proof. induction x; simpl; intros H; [exact H|]. injection H. exact IHx. Qed.

Lemma ContainsSlash_append (x y : string) :
  strings.ContainsSlash (x ++ "/" ++ y) = true.
Proof.
  induction x as [|c x IH]; simpl in *; [reflexivity|].
  rewrite IH. apply Bool.orb_true_r.
Qed.

Lemma first_slash (a a' u u' : string) :
  slashFree a -> slashFree a' ->
  (a ++ "/" ++ u = a' ++ "/" ++ u')%string -> a = a' /\ u = u'.
Proof.
  unfold slashFree. revert a'. induction a as [|c a IH]; intros [|c' a'] Ha Ha' H; simpl in *.
  - injection H. auto.
  - injection H as Hc _. subst c'. simpl in Ha'. discriminate.
  - injection H as Hc _. subst c. simpl in Ha. discriminate.
  - injection H as Hc H. subst c'.
    apply Bool.orb_false_iff in Ha, Ha'.
    destruct (IH a' (proj2 Ha) (proj2 Ha') H) as [-> ->]. auto.
Qed.

Lemma JoinSlash_app (P Q : list string) :
  P <> [] -> Q <> [] ->
  strings.JoinSlash (P ++ Q) = (strings.JoinSlash P ++ "/" ++ strings.JoinSlash Q)%string.
Proof.
  induction P as [|p P IH]; [congruence|]. intros _ HQ.
  destruct P as [|p' P'].
  - simpl app. apply JoinSlash_cons. exact HQ.
  - change ((p :: p' :: P') ++ Q) with (p :: ((p' :: P') ++ Q)).
    rewrite JoinSlash_cons by discriminate.
    rewrite IH by (discriminate || exact HQ).
    rewrite (JoinSlash_cons p (p' :: P')) by discriminate.
    rewrite !append_assoc. reflexivity.
Qed.

(** The destination of an entry named [../../etc/passwd], resolved, lies
    within the resolved output root only when that root is [/etc] or ends
    with [/etc/passwd]. *)
Lemma passwd_within (wd outputDir : string) :
  filepath.IsAbs wd = true -> outputDir <> ""%string ->
  let absOutputDir := filepath.Abs wd outputDir in
  within absOutputDir
    (filepath.Abs wd (filepath.Join [outputDir; "../../etc/passwd"%string])) ->
  absOutputDir = "/etc"%string \/
  exists pre, absOutputDir = (pre ++ "/etc/passwd")%string.
Proof.
  intros Hwd Hne absOutputDir. subst absOutputDir.
  rewrite !(Abs_elems wd _ Hwd).
  destruct (nameiRev_Join wd outputDir "../../etc/passwd" Hne) as [-> _].
  assert (HS : Forall plainName (os.nameiRev wd outputDir)).
  { unfold os.nameiRev. apply nameiStep_plain; [apply SplitSlash_slashFree|].
    destruct (filepath.IsAbs outputDir); [constructor|].
    apply nameiStep_plain; [apply SplitSlash_slashFree | constructor]. }
  set (S := os.nameiRev wd outputDir) in *.
  change (strings.SplitSlash "../../etc/passwd") with ["..";"..";"etc";"passwd"]%string.
  cbn [fold_left]. unfold os.nameiStep. simpl String.eqb. simpl orb. cbv iota.
  unfold within.
  destruct S as [|b [|a T]].
  - simpl. intros [H|(rest & H)]; discriminate.
  - inversion HS as [|? ? (Hb & _) _]; subst. simpl.
    intros [H|(rest & H)].
    + injection H as H. subst b. discriminate.
    + injection H as H.
      destruct (first_slash "etc" b "passwd" rest eq_refl Hb H) as [<- _].
      left. reflexivity.
  - inversion HS as [|? ? (Hb & _) HS']; subst.
    inversion HS' as [|? ? (Ha & _) _]; subst.
    cbn [tl rev]. rewrite <- !app_assoc. cbn [app].
    set (P := rev T).
    assert (Hform : forall x y,
              ("/" ++ strings.JoinSlash (P ++ [x; y]))%string =
              ((match P with [] => "" | _ => "/" ++ strings.JoinSlash P end)
                 ++ "/" ++ x ++ "/" ++ y)%string).
    { intros x y. destruct P as [|p P'] eqn:EP; [reflexivity|].
      rewrite JoinSlash_app by discriminate.
      change (strings.JoinSlash [x; y]) with (x ++ "/" ++ y)%string.
      rewrite !append_assoc. reflexivity. }
    rewrite !Hform.
    set (pre := match P with [] => ""%string | _ => ("/" ++ strings.JoinSlash P)%string end).
    intros [H|(rest & H)].
    + apply append_inj_l in H. injection H as H.
      destruct (first_slash "etc" a "passwd" b eq_refl Ha H) as [<- <-].
      right. exists pre. reflexivity.
    + rewrite !append_assoc in H. apply append_inj_l in H. injection H as H.
      destruct (first_slash "etc" a "passwd" (b ++ "/" ++ rest) eq_refl Ha H) as [_ H'].
      pose proof (ContainsSlash_append b rest) as Hc. rewrite <- H' in Hc. discriminate.
Qed.

(** ** Zip-slip prevention *)

Lemma not_within (absOutputDir absDest : string) :
  negb (strings.HasPrefix absDest (absOutputDir ++ String filepath.Separator ""))
  && negb (absDest =? absOutputDir)%string = true ->
  ~ within absOutputDir absDest.
Proof.
  intros H Hw. apply guard_within in Hw. congruence.
Qed.

Lemma placeEntry_escapes (opts : UnzipOptions) (out : io.Writer)
    (absOutputDir : string) (f : zip.File) (destPath : string) (s : World) :
  ~ within absOutputDir (filepath.Abs (wd s) destPath) ->
  placeEntry opts out absOutputDir f destPath s =
  (s, Err (errorString ("illegal file path: " ++ zip.Name (zip.Header f)))).
Proof.
  intros H. unfold placeEntry, bind, filepath_Abs.
  destruct (negb (strings.HasPrefix (filepath.Abs (wd s) destPath)
                    (absOutputDir ++ String filepath.Separator ""))
            && negb (filepath.Abs (wd s) destPath =? absOutputDir)%string) eqn:E.
  - reflexivity.
  - apply guard_within in E. contradiction.
Qed.

Lemma placeEntry_within (opts : UnzipOptions) (out : io.Writer) (absOutputDir : string)
    (f : zip.File) (destPath : string) (s : World) :
  within absOutputDir (filepath.Abs (wd s) destPath) ->
  placeEntry opts out absOutputDir f destPath s =
  (if zip.IsDir f then
     wrapErr (os_MkdirAll destPath (zip.Mode (zip.Header f))) (Errorf ("mkdir " ++ destPath))
   else
     bind (extractFile f destPath (Overwrite opts) out) (fun err => err)
       (fun _ => wrapErr (os_Chtimes destPath (zip.Modified (zip.Header f))
                            (zip.Modified (zip.Header f)))
                   (Errorf ("chtimes " ++ destPath)))) s.
Proof.
  intros Hw. apply guard_within in Hw.
  unfold placeEntry. unfold bind at 1. unfold filepath_Abs. rewrite Hw. reflexivity.
Qed.

(** A real name joined to an output directory other than the root
    passes the check. *)
Lemma plain_within (w od x : string) (oelems : list string) :
  filepath.IsAbs w = true -> od <> ""%string -> plainName x ->
  os.namei w od = Some oelems -> oelems <> [] ->
  within (filepath.Abs w od) (filepath.Abs w (filepath.Join [od; x])).
Proof.
  intros Hw Hod Hx Ho Hne.
  assert (HO : oelems = rev (os.nameiRev w od)).
  { unfold os.namei in Ho. destruct (od =? "")%string; [discriminate|].
    injection Ho as <-. reflexivity. }
  rewrite !(Abs_elems w _ Hw).
  destruct (nameiRev_Join w od x Hod) as [-> _].
  rewrite (SplitSlash_single _ (proj1 Hx)). cbn [fold_left].
  rewrite (nameiStep_plainName _ _ Hx). cbn [rev]. rewrite <- HO.
  rewrite JoinSlash_app by (exact Hne || discriminate).
  right. exists x. reflexivity.
Qed.

(** C1. [Unzip] checks every entry it does not skip, a directory entry as
    well as a file entry, before anything is made for it: when the
    destination of the entry, resolved to absolute form, is neither the
    resolved output root nor a path that begins with that root and a
    separator, the extraction ends with the error
    ["illegal file path: <entry name>"] and the state is the one the
    entries before it left.  With [JunkPaths] unset this is what happens to
    an entry named [../../etc/passwd], unless the resolved output root is
    [/etc] or ends with [/etc/passwd].  With [JunkPaths] set the
    destination of that entry is the output directory joined with
    [passwd]; unless the output directory is the root directory it passes
    the check, and [Unzip] goes on with the entry as with any other: it
    makes the directory or extracts the file at that destination. *)
Theorem Unzip_zip_slip (codec : zip.Codec) (zipPath : string) (opts : UnzipOptions)
    (s s1 : World) (pre post : list zip.File) (f : zip.File) :
  let out := statusWriter (UnzipOutput opts) in
  let absOutputDir := filepath.Abs (wd s) (outputDirOf opts) in
  snd (zip_OpenReader codec zipPath s) = Ok (pre ++ f :: post) ->
  forRange pre (unzipEntry opts out (outputDirOf opts) absOutputDir) s = (s1, Ok tt) ->
  selected opts f ->
  (~ within absOutputDir (filepath.Abs (wd s) (destPathOf opts f)) \/
   (JunkPaths opts = false /\ zip.Name (zip.Header f) = "../../etc/passwd"%string /\
    filepath.IsAbs (wd s) = true /\
    absOutputDir <> "/etc"%string /\
    ~ exists p, absOutputDir = (p ++ "/etc/passwd")%string) ->
   Unzip codec zipPath opts s =
   (s1, Err (errorString ("illegal file path: " ++ zip.Name (zip.Header f))))) /\
  (forall oelems,
     JunkPaths opts = true -> zip.Name (zip.Header f) = "../../etc/passwd"%string ->
     filepath.IsAbs (wd s) = true ->
     os.namei (wd s) (outputDirOf opts) = Some oelems -> oelems <> [] ->
     let destPath := filepath.Join [outputDirOf opts; "passwd"%string] in
     destPathOf opts f = destPath /\
     os.namei (wd s) destPath = Some (oelems ++ ["passwd"%string]) /\
     within absOutputDir (filepath.Abs (wd s) destPath) /\
     Unzip codec zipPath opts s =
     bind (if zip.IsDir f then
             wrapErr (os_MkdirAll destPath (zip.Mode (zip.Header f)))
               (Errorf ("mkdir " ++ destPath))
           else
             bind (extractFile f destPath (Overwrite opts) out) (fun err => err)
               (fun _ => wrapErr (os_Chtimes destPath (zip.Modified (zip.Header f))
                                    (zip.Modified (zip.Header f)))
                           (Errorf ("chtimes " ++ destPath))))
       (fun err => err)
       (fun _ => forRange post (unzipEntry opts out (outputDirOf opts) absOutputDir)) s1).
Proof.
  intros out absOutputDir Hopen Hpre Hsel.
  pose proof (unzipRange_sameEnv opts out (outputDirOf opts) absOutputDir pre s) as [Hwd _].
  rewrite Hpre in Hwd. simpl in Hwd.
  assert (Hne : outputDirOf opts <> ""%string).
  { unfold outputDirOf. destruct (OutputDir opts =? "")%string eqn:E; [discriminate|].
    apply String.eqb_neq. exact E. }
  split.
  - intros Hesc.
    rewrite (Unzip_loop codec zipPath opts s _ Hopen).
    apply (forRange_stops pre post f _ s s1 s1); [exact Hpre|].
    rewrite (unzipEntry_selected opts _ _ _ f Hsel).
    apply placeEntry_escapes. rewrite Hwd.
    destruct Hesc as [Hesc | (Hj & Hname & Habs & H1 & H2)]; [exact Hesc|].
    rewrite Hj, Hname. intros Hw.
    destruct (passwd_within (wd s) (outputDirOf opts) Habs Hne Hw) as [H|H]; contradiction.
  - intros oelems Hj Hname Habs Ho Hroot destPath.
    assert (Hpw : plainName "passwd").
    { repeat split; discriminate. }
    assert (Hdest : destPathOf opts f = destPath).
    { unfold destPathOf, targetName. rewrite Hj, Hname. reflexivity. }
    assert (Hw : within absOutputDir (filepath.Abs (wd s) destPath)).
    { exact (plain_within (wd s) (outputDirOf opts) "passwd" oelems Habs Hne Hpw Ho Hroot). }
    split; [exact Hdest|].
    split; [exact (namei_Join (wd s) (outputDirOf opts) "passwd" oelems Hpw Ho)|].
    split; [exact Hw|].
    rewrite (Unzip_loop codec zipPath opts s _ Hopen). fold out absOutputDir.
    rewrite (forRange_app pre (f :: post) _ s s1 Hpre).
    cbn [forRange].
    rewrite (unzipEntry_selected opts _ _ _ f Hsel).
    rewrite Hj, Hname.
    change (filepath.Base "../../etc/passwd") with "passwd"%string.
    fold destPath. unfold bind at 1.
    rewrite <- Hwd in Hw.
    rewrite (placeEntry_within opts out absOutputDir f destPath s1 Hw).
    reflexivity.
Qed.

Lemma Unzip_zip_slip_witness :
  Unzip refcodec.codec "/evil.zip" (Examples.intoTmpOut false) Examples.evilWorld =
  (Examples.evilWorld, Err (errorString "illegal file path: ../../etc/passwd")) /\
  os.namei "/" (destPathOf (Examples.intoTmpOut true) Examples.evilEntry) =
  Some ["tmp"; "out"; "passwd"]%string /\
  within "/tmp/out" (filepath.Abs "/" (destPathOf (Examples.intoTmpOut true) Examples.evilEntry)).
Proof.
  split.
  - apply (Unzip_zip_slip refcodec.codec "/evil.zip" (Examples.intoTmpOut false)
             Examples.evilWorld Examples.evilWorld [] [] Examples.evilEntry).
    + vm_compute. reflexivity.
    + reflexivity.
    + left. reflexivity.
    + left. apply not_within. vm_compute. reflexivity.
  - destruct (Unzip_zip_slip refcodec.codec "/evil.zip" (Examples.intoTmpOut true)
                Examples.evilWorld Examples.evilWorld [] [] Examples.evilEntry)
      as [_ Hjunk].
    + vm_compute. reflexivity.
    + reflexivity.
    + left. reflexivity.
    + destruct (Hjunk ["tmp"; "out"]%string eq_refl eq_refl eq_refl eq_refl)
        as (Hd & Hn & Hw & _); [discriminate|].
      rewrite Hd. split; [exact Hn | exact Hw].
Defined.

(** With [JunkPaths] set the entry named [../../etc/passwd] is extracted as
    [passwd] in the output directory and [Unzip] returns no error. *)
Lemma Unzip_zip_slip_junk_paths :
  let r := Unzip refcodec.codec "/evil.zip" (Examples.intoTmpOut true)
             Examples.evilWorld in
  snd r = Ok tt /\
  os.lookup (disk (fst r)) ["tmp"; "out"; "passwd"]%string =
  Some (os.File 420%Z 100%Z (Examples.bytes "evil")).
Proof. vm_compute. split; reflexivity. Qed.

(** ** The tree under updates *)

Lemma getEntry_replaceEntry (name name' : string) (v : os.node)
    (es : list (string * os.node)) :
  os.getEntry name es <> None ->
  os.getEntry name' (os.replaceEntry name v es) =
  if (name =? name')%string then Some v else os.getEntry name' es.
Proof.
  induction es as [|[k x] es IH]; simpl; [congruence|].
  destruct (k =? name)%string eqn:E.
  - intros _. simpl. apply String.eqb_eq in E. subst k.
    destruct (name =? name')%string; reflexivity.
  - intros H. simpl. rewrite (IH H).
    destruct (k =? name')%string eqn:E'; [|reflexivity].
    apply String.eqb_eq in E'. subst k. rewrite String.eqb_sym, E. reflexivity.
Qed.

Lemma getEntry_insertEntry (name name' : string) (v : os.node)
    (es : list (string * os.node)) :
  os.getEntry name es = None ->
  os.getEntry name' (os.insertEntry name v es) =
  if (name =? name')%string then Some v else os.getEntry name' es.
Proof.
  induction es as [|[k x] es IH]; simpl; [reflexivity|].
  destruct (k =? name)%string eqn:E; [discriminate|]. intros H.
  destruct (String.ltb name k); simpl; [reflexivity|].
  rewrite (IH H).
  destruct (k =? name')%string eqn:E'; [|reflexivity].
  apply String.eqb_eq in E'. subst k. rewrite String.eqb_sym, E. reflexivity.
Qed.

Lemma getEntry_setEntry_any (name name' : string) (v : os.node)
    (es : list (string * os.node)) :
  os.getEntry name' (os.setEntry name v es) =
  if (name =? name')%string then Some v else os.getEntry name' es.
Proof.
  unfold os.setEntry. destruct (os.getEntry name es) eqn:E.
  - apply getEntry_replaceEntry. congruence.
  - apply getEntry_insertEntry. exact E.
Qed.

Lemma getEntry_setEntry (name : string) (v : os.node) (es : list (string * os.node)) :
  os.getEntry name (os.setEntry name v es) = Some v.
Proof. rewrite getEntry_setEntry_any, String.eqb_refl. reflexivity. Qed.

Lemma getEntry_setEntry_other (name name' : string) (v : os.node)
    (es : list (string * os.node)) :
  name' <> name ->
  os.getEntry name' (os.setEntry name v es) = os.getEntry name' es.
Proof.
  intros Hne. rewrite getEntry_setEntry_any.
  destruct (String.eqb_spec name name'); [congruence | reflexivity].
Qed.

Definition permOf (n : os.node) : os.FileMode :=
  match n with
  | os.File perm _ _ => perm
  | os.Dir perm _ => perm
  end.

(** A leaf action keeps the kind and the permissions of what is there and
    leaves a directory as it is. *)
Definition goodLeaf (leaf : option os.node -> string + os.node) : Prop :=
  forall x y, leaf (Some x) = inr y ->
    os.isDir y = os.isDir x /\ permOf y = permOf x /\ (os.isDir x = true -> y = x).

(** A leaf action keeps the content of a regular file. *)
Definition keepsData (leaf : option os.node -> string + os.node) : Prop :=
  forall perm mtime data y, leaf (Some (os.File perm mtime data)) = inr y ->
    exists mtime', y = os.File perm mtime' data.

Lemma goodLeaf_mkdir (perm : os.FileMode) : goodLeaf (os.mkdirLeaf perm).
Proof. intros [p t d|p es] y H; simpl in H; inversion H; subst; auto. Qed.

Lemma goodLeaf_trunc (perm : os.FileMode) (now : Z) : goodLeaf (os.truncLeaf perm now).
Proof.
  intros [p t d|p es] y H; simpl in H; inversion H; subst; simpl.
  repeat split. discriminate.
Qed.

Lemma goodLeaf_write (now : Z) (data : list Byte.byte) : goodLeaf (os.writeLeaf now data).
Proof.
  intros [p t d|p es] y H; simpl in H; inversion H; subst; simpl.
  repeat split. discriminate.
Qed.

Lemma goodLeaf_chtimes (mtime : Z) : goodLeaf (os.chtimesLeaf mtime).
Proof.
  intros [p t d|p es] y H; simpl in H; inversion H; subst; simpl; auto.
  repeat split. discriminate.
Qed.

Lemma keepsData_mkdir (perm : os.FileMode) : keepsData (os.mkdirLeaf perm).
Proof. intros p t d y H. discriminate. Qed.


(** What was there before an update is there after it, of the same kind
    and with the same permissions; a regular file keeps its content
    unless the update is made at it and changes content. *)
Lemma lookup_update_old (mk : option os.FileMode)
    (leaf : option os.node -> string + os.node) (p : list string) :
  goodLeaf leaf ->
  forall (n n' : os.node) (q : list string) (x : os.node),
    os.update mk leaf n p = inr n' ->
    os.lookup n q = Some x ->
    exists x', os.lookup n' q = Some x' /\
               os.isDir x' = os.isDir x /\ permOf x' = permOf x /\
               (q <> p \/ keepsData leaf ->
                forall perm mtime data, x = os.File perm mtime data ->
                  exists mtime', x' = os.File perm mtime' data).
Proof.
  intros Hgood. induction p as [|e p IH]; intros n n' q x Hup Hq.
  - simpl in Hup. destruct (Hgood n n' Hup) as (Hk & Hp & Hd).
    destruct q as [|c q].
    + simpl in Hq. injection Hq as <-. exists n'. simpl. repeat split; auto.
      intros [Hne|Hkeep] perm mtime data ->; [congruence|].
      exact (Hkeep _ _ _ _ Hup).
    + destruct n as [pm t d|pm es]; [discriminate|].
      rewrite (Hd eq_refl). exists x. repeat split; auto.
      intros _ perm mtime data ->. eauto.
  - simpl in Hup. destruct n as [pm t d|pm es]; [discriminate|].
    assert (Hn' : exists v, n' = os.Dir pm (os.setEntry e v es) /\
              match os.getEntry e es with
              | Some child => os.update mk leaf child p = inr v
              | None => True
              end).
    { destruct (os.getEntry e es) as [child|].
      - destruct (os.update mk leaf child p) as [|v]; [discriminate|].
        injection Hup as <-. eauto.
      - destruct p as [|e' p'].
        + destruct (leaf None) as [|v]; [discriminate|]. injection Hup as <-. eauto.
        + destruct mk as [pm'|]; [|discriminate].
          destruct (os.update (Some pm') leaf (os.Dir pm' []) (e' :: p')) as [|v];
            [discriminate|]. injection Hup as <-. eauto. }
    destruct Hn' as (v & -> & Hv).
    destruct q as [|c q].
    + simpl in Hq. injection Hq as <-. eexists. simpl. repeat split.
      intros _ perm mtime data Hx. discriminate.
    + simpl in Hq. simpl.
      destruct (String.eqb_spec c e) as [->|Hne].
      * rewrite getEntry_setEntry.
        destruct (os.getEntry e es) as [child|]; [|discriminate].
        destruct (IH child v q x Hv Hq) as (x' & H1 & H2 & H3 & H4).
        exists x'. repeat split; auto.
        intros [Hneq|Hkeep]; apply H4; [left; congruence | right; exact Hkeep].
      * rewrite (getEntry_setEntry_other e c v es Hne).
        exists x. repeat split; auto.
        intros _ perm mtime data ->. eauto.
Qed.

(** What is at the place of an update after it. *)
Lemma lookup_update_new (mk : option os.FileMode)
    (leaf : option os.node -> string + os.node) (p : list string) :
  forall (n n' : os.node),
    os.update mk leaf n p = inr n' ->
    exists y, os.lookup n' p = Some y /\ leaf (os.lookup n p) = inr y.
Proof.
  induction p as [|e p IH]; intros n n' Hup.
  - simpl in *. eauto.
  - simpl in Hup. destruct n as [pm t d|pm es]; [discriminate|]. simpl.
    destruct (os.getEntry e es) as [child|] eqn:Eg.
    + destruct (os.update mk leaf child p) as [|v] eqn:Ev; [discriminate|].
      injection Hup as <-. simpl. rewrite getEntry_setEntry. apply IH. exact Ev.
    + destruct p as [|e' p'].
      * destruct (leaf None) as [|v] eqn:El; [discriminate|]. injection Hup as <-.
        simpl. rewrite getEntry_setEntry. eauto.
      * destruct mk as [pm'|]; [|discriminate].
        destruct (os.update (Some pm') leaf (os.Dir pm' []) (e' :: p')) as [|v] eqn:Ev;
          [discriminate|]. injection Hup as <-.
        simpl os.lookup at 1. rewrite getEntry_setEntry.
        destruct (IH _ _ Ev) as (y & H1 & H2). exists y. split; [exact H1|].
        simpl in H2. exact H2.
Qed.

(** An update at a place that is there succeeds when its leaf action
    does. *)
Lemma update_succeeds (mk : option os.FileMode)
    (leaf : option os.node -> string + os.node) (p : list string) :
  forall (n x y : os.node),
    os.lookup n p = Some x -> leaf (Some x) = inr y ->
    exists n', os.update mk leaf n p = inr n'.
Proof.
  induction p as [|e p IH]; intros n x y Hl Hy.
  - simpl in *. injection Hl as ->. eauto.
  - simpl in Hl. destruct n as [pm t d|pm es]; [discriminate|]. simpl.
    destruct (os.getEntry e es) as [child|]; [|discriminate].
    destruct (IH child x y Hl Hy) as (v & ->). eauto.
Qed.

Lemma update_Dir_inv (mk : option os.FileMode)
    (leaf : option os.node -> string + os.node) (pm : os.FileMode)
    (es : list (string * os.node)) (e : string) (p : list string) (n' : os.node) :
  os.update mk leaf (os.Dir pm es) (e :: p) = inr n' ->
  exists v, n' = os.Dir pm (os.setEntry e v es) /\
    match os.getEntry e es with
    | Some child => os.update mk leaf child p = inr v
    | None =>
        match p with
        | [] => leaf None = inr v
        | _ :: _ => exists pm', mk = Some pm' /\ os.update mk leaf (os.Dir pm' []) p = inr v
        end
    end.
Proof.
  simpl. intros Hup. destruct (os.getEntry e es) as [child|].
  - destruct (os.update mk leaf child p) as [|v]; [discriminate|].
    injection Hup as <-. eauto.
  - destruct p as [|e' p'].
    + destruct (leaf None) as [|v]; [discriminate|]. injection Hup as <-. eauto.
    + destruct mk as [pm'|]; [|discriminate].
      destruct (os.update (Some pm') leaf (os.Dir pm' []) (e' :: p')) as [|v] eqn:E;
        [discriminate|]. injection Hup as <-. eauto.
Qed.

(** A new leaf has nothing below it. *)
Definition childless (leaf : option os.node -> string + os.node) : Prop :=
  forall y, leaf None = inr y ->
    match y with
    | os.File _ _ _ => True
    | os.Dir _ es => es = []
    end.

(** What an update adds to the tree: the new leaf at its place, and the
    directories made on the way to it, with the permissions given for
    them. *)
Lemma lookup_update_fresh (mk : option os.FileMode)
    (leaf : option os.node -> string + os.node) (p : list string) :
  goodLeaf leaf -> childless leaf ->
  forall (n n' : os.node) (q : list string) (x : os.node),
    os.update mk leaf n p = inr n' ->
    os.lookup n q = None ->
    os.lookup n' q = Some x ->
    (q = p /\ leaf None = inr x) \/
    (exists pm es r, mk = Some pm /\ x = os.Dir pm es /\ p = q ++ r /\ r <> []).
Proof.
  intros Hgood Hch. induction p as [|e p IH]; intros n n' q x Hup Hq Hq'.
  - simpl in Hup. destruct q as [|c q]; [discriminate|].
    destruct (Hgood n n' Hup) as (Hk & _ & Hd).
    destruct n as [pm t d|pm es].
    + destruct n'; [discriminate | discriminate].
    + rewrite (Hd eq_refl) in Hq'. congruence.
  - destruct n as [pm t d|pm es]; [discriminate|].
    destruct (update_Dir_inv mk leaf pm es e p n' Hup) as (v & -> & Hv).
    destruct q as [|c q]; [discriminate|].
    simpl in Hq, Hq'.
    destruct (String.eqb_spec c e) as [->|Hne].
    2:{ rewrite (getEntry_setEntry_other e c v es Hne) in Hq'. rewrite Hq' in Hq.
        destruct (os.getEntry c es); congruence. }
    rewrite getEntry_setEntry in Hq'.
    destruct (os.getEntry e es) as [child|].
    + destruct (IH child v q x Hv Hq Hq') as [(-> & Hl)|(pm' & es' & r & H1 & H2 & H3 & H4)].
      * left. auto.
      * right. exists pm', es', r. subst p. auto.
    + destruct p as [|e' p'].
      * destruct q as [|c' q'].
        -- simpl in Hq'. injection Hq' as ->. left. auto.
        -- specialize (Hch v Hv). simpl in Hq'.
           destruct v as [|pm' es']; [discriminate|]. subst es'. discriminate.
      * destruct Hv as (pm' & -> & Hv).
        destruct q as [|c' q'].
        -- simpl in Hq'. injection Hq' as <-.
           destruct (update_Dir_inv _ _ _ _ _ _ _ Hv) as (v' & -> & _).
           right. exists pm', (os.setEntry e' v' []), (e' :: p').
           repeat split; auto. discriminate.
        -- assert (Hnone : os.lookup (os.Dir pm' []) (c' :: q') = None) by reflexivity.
           destruct (IH _ _ _ _ Hv Hnone Hq')
             as [(-> & Hl)|(pm'' & es' & r & H1 & H2 & H3 & H4)].
           ++ left. auto.
           ++ right. exists pm'', es', r. rewrite H3. auto.
Qed.

(** After a successful update everything on the way to its place is
    there. *)
Lemma lookup_update_prefix (mk : option os.FileMode)
    (leaf : option os.node -> string + os.node) (p : list string) :
  forall (n n' : os.node) (q r : list string),
    os.update mk leaf n p = inr n' -> p = q ++ r ->
    exists x, os.lookup n' q = Some x.
Proof.
  induction p as [|e p IH]; intros n n' q r Hup Hp.
  - destruct q; [|discriminate]. simpl. eauto.
  - destruct q as [|c q]; [simpl; eauto|].
    injection Hp as <- Hp.
    destruct n as [pm t d|pm es]; [discriminate|].
    destruct (update_Dir_inv mk leaf pm es e p n' Hup) as (v & -> & Hv).
    simpl. rewrite getEntry_setEntry.
    destruct (os.getEntry e es) as [child|].
    + exact (IH child v q r Hv Hp).
    + destruct p as [|e' p'].
      * destruct q; [|discriminate]. simpl. eauto.
      * destruct Hv as (pm' & _ & Hv). exact (IH _ v q r Hv Hp).
Qed.

(** ** Successful calls, taken apart *)

Lemma bind_Ok {A B : Type} (m : M A) (wrap : error -> error) (k : A -> M B)
    (s s' : World) (b : B) :
  bind m wrap k s = (s', Ok b) ->
  exists s1 a, m s = (s1, Ok a) /\ k a s1 = (s', Ok b).
Proof.
  unfold bind. destruct (m s) as [s1 [a|e]]; [|discriminate]. eauto.
Qed.

Lemma wrapErr_Ok {A : Type} (m : M A) (wrap : error -> error) (s s' : World) (a : A) :
  wrapErr m wrap s = (s', Ok a) -> m s = (s', Ok a).
Proof.
  unfold wrapErr. destruct (m s) as [s1 [a'|e]]; [|discriminate]. auto.
Qed.

Lemma resolve_Ok (op path : string) (s s' : World) (elems : list string) :
  resolve op path s = (s', Ok elems) ->
  s' = s /\ os.namei (wd s) path = Some elems.
Proof.
  unfold resolve. destruct (os.namei (wd s) path); [|discriminate].
  intros H. injection H as <- <-. auto.
Qed.

Lemma os_update_Ok (op path : string) (mk : option os.FileMode)
    (leaf : option os.node -> string + os.node) (elems : list string) (s s' : World) :
  os_update op path mk leaf elems s = (s', Ok tt) ->
  exists n', os.update mk leaf (disk s) elems = inr n' /\ s' = setDisk s n'.
Proof.
  unfold os_update. destruct (os.update mk leaf (disk s) elems) as [|n']; [discriminate|].
  intros H. injection H as <-. eauto.
Qed.

Lemma os_MkdirAll_Ok (path : string) (perm : os.FileMode) (s s' : World) :
  os_MkdirAll path perm s = (s', Ok tt) ->
  exists elems n',
    os.namei (wd s) path = Some elems /\
    os.update (Some (os.Perm perm)) (os.mkdirLeaf (os.Perm perm)) (disk s) elems = inr n' /\
    s' = setDisk s n'.
Proof.
  unfold os_MkdirAll. intros H.
  apply bind_Ok in H. destruct H as (s1 & elems & Hr & H).
  apply resolve_Ok in Hr. destruct Hr as [-> Hn].
  apply os_update_Ok in H. destruct H as (n' & Hu & ->). eauto.
Qed.

Lemma os_OpenFile_Ok (path : string) (perm : os.FileMode) (s s' : World) (w : os.File_) :
  os_OpenFile path perm s = (s', Ok w) ->
  exists n',
    os.namei (wd s) path = Some w /\
    os.update None (os.truncLeaf (os.Perm perm) (clock s)) (disk s) w = inr n' /\
    s' = setDisk s n'.
Proof.
  unfold os_OpenFile. intros H.
  apply bind_Ok in H. destruct H as (s1 & elems & Hr & H).
  apply resolve_Ok in Hr. destruct Hr as [-> Hn].
  apply bind_Ok in H. destruct H as (s2 & [] & Hu & H).
  apply os_update_Ok in Hu. destruct Hu as (n' & Hu & ->).
  unfold ret in H. injection H as <- <-. eauto.
Qed.

Lemma os_Write_Ok (f : os.File_) (data : list Byte.byte) (s s' : World) :
  os_Write f data s = (s', Ok tt) ->
  exists n',
    os.update None (os.writeLeaf (clock s) data) (disk s) f = inr n' /\
    s' = setDisk s n'.
Proof. unfold os_Write. apply os_update_Ok. Qed.

Lemma os_Chtimes_Ok (path : string) (atime mtime : Z) (s s' : World) :
  os_Chtimes path atime mtime s = (s', Ok tt) ->
  exists elems n',
    os.namei (wd s) path = Some elems /\
    os.update None (os.chtimesLeaf mtime) (disk s) elems = inr n' /\
    s' = setDisk s n'.
Proof.
  unfold os_Chtimes. intros H.
  apply bind_Ok in H. destruct H as (s1 & elems & Hr & H).
  apply resolve_Ok in Hr. destruct Hr as [-> Hn].
  apply os_update_Ok in H. destruct H as (n' & Hu & ->). eauto.
Qed.

Lemma Fprintf_disk (out : io.Writer) (text : string) (s : World) :
  snd (Fprintf out text s) = Ok tt /\
  disk (fst (Fprintf out text s)) = disk s /\
  wd (fst (Fprintf out text s)) = wd s /\
  clock (fst (Fprintf out text s)) = clock s.
Proof. destruct out; simpl; auto. Qed.

(** The steps of a successful [extractFile]. *)
Lemma extractFile_Ok (f : zip.File) (destPath : string) (overwrite : bool)
    (out : io.Writer) (s s' : World) :
  extractFile f destPath overwrite out s = (s', Ok tt) ->
  exists delems elems n1 n2 n3 data,
    (overwrite = false -> exists e, os_Stat destPath s = (s, Err e)) /\
    os.namei (wd s) (filepath.Dir destPath) = Some delems /\
    os.update (Some (os.Perm 493%Z)) (os.mkdirLeaf (os.Perm 493%Z)) (disk s) delems = inr n1 /\
    zip.Open f = Ok (data, None) /\
    os.namei (wd s) destPath = Some elems /\
    os.update None (os.truncLeaf (os.Perm (zip.Mode (zip.Header f))) (clock s)) n1 elems
      = inr n2 /\
    os.update None (os.writeLeaf (clock s) data) n2 elems = inr n3 /\
    disk s' = n3 /\ wd s' = wd s /\ clock s' = clock s.
Proof.
  unfold extractFile. intros H.
  apply bind_Ok in H. destruct H as (s0 & [] & Hstat & H).
  assert (Hs0 : s0 = s /\ (overwrite = false -> exists e, os_Stat destPath s = (s, Err e))).
  { destruct overwrite; simpl in Hstat.
    - unfold ret in Hstat. injection Hstat as <-. split; [reflexivity|discriminate].
    - pose proof (os_Stat_state destPath s) as Hst.
      destruct (os_Stat destPath s) as [s1 [fi|e]]; [discriminate|].
      simpl in Hst. subst s1. injection Hstat as <-. split; [reflexivity|]. eauto. }
  destruct Hs0 as [-> Hov].
  apply bind_Ok in H. destruct H as (s1 & [] & Hmk & H).
  apply os_MkdirAll_Ok in Hmk. destruct Hmk as (delems & n1 & Hd & Hu1 & ->).
  apply bind_Ok in H. destruct H as (s2 & rc & Hopen & H).
  injection Hopen as <- Hopen.
  apply bind_Ok in H. destruct H as (s3 & w & Hof & H).
  apply os_OpenFile_Ok in Hof. destruct Hof as (n2 & He & Hu2 & ->).
  apply bind_Ok in H. destruct H as (s4 & z & Hcp & H).
  unfold io_Copy in Hcp. apply bind_Ok in Hcp. destruct Hcp as (s5 & [] & Hw & Hcp).
  apply os_Write_Ok in Hw. destruct Hw as (n3 & Hu3 & ->).
  destruct rc as [data [e|]]; simpl in Hcp; [discriminate|].
  unfold ret in Hcp. injection Hcp as <- _.
  destruct (Fprintf_disk out ("  inflating: " ++ destPath ++ String "010" "")
              (setDisk (setDisk (setDisk s n1) n2) n3)) as (_ & Hdk & Hw' & Hc').
  rewrite H in Hdk, Hw', Hc'. simpl in *.
  exists delems, w, n1, n2, n3, data. repeat split; auto.
Qed.

(** ** Modes of what an extraction makes *)

Lemma childless_mkdir (perm : os.FileMode) : childless (os.mkdirLeaf perm).
Proof. intros y H. simpl in H. injection H as <-. reflexivity. Qed.

Lemma isDir_perm_Dir (x : os.node) (perm : os.FileMode) :
  os.isDir x = true -> permOf x = perm -> exists es, x = os.Dir perm es.
Proof. destruct x; simpl; [discriminate|]. intros _ <-. eauto. Qed.

(** C10. After [extractFile] has extracted a file entry, every directory
    on the way to the directory of the destination that was not there
    before is there with the permissions 0755 (493), whatever the archive
    holds; and the file, when it was not there before, has the permission
    bits of the mode stored for the entry and holds the content of the
    entry. *)
Theorem extractFile_modes (f : zip.File) (destPath : string) (overwrite : bool)
    (out : io.Writer) (s s' : World) (delems elems : list string) :
  extractFile f destPath overwrite out s = (s', Ok tt) ->
  os.namei (wd s) (filepath.Dir destPath) = Some delems ->
  os.namei (wd s) destPath = Some elems ->
  (forall q r, delems = q ++ r -> os.lookup (disk s) q = None ->
     exists es, os.lookup (disk s') q = Some (os.Dir 493%Z es)) /\
  (os.lookup (disk s) elems = None ->
     exists mtime data,
       os.lookup (disk s') elems =
       Some (os.File (os.Perm (zip.Mode (zip.Header f))) mtime data) /\
       zip.Open f = Ok (data, None)).
Proof.
  intros H Hd He.
  destruct (extractFile_Ok f destPath overwrite out s s' H)
    as (delems' & elems' & n1 & n2 & n3 & data & _ & Hd' & Hu1 & Hopen & He' & Hu2 & Hu3
        & Hdisk & _ & _).
  rewrite Hd in Hd'. injection Hd' as <-. rewrite He in He'. injection He' as <-.
  rewrite Hdisk. split.
  - intros q r Hqr Hnone.
    destruct (lookup_update_prefix _ _ _ _ _ q r Hu1 Hqr) as (x & Hx).
    assert (Hx1 : os.isDir x = true /\ permOf x = 493%Z).
    { destruct (lookup_update_fresh _ _ _ (goodLeaf_mkdir _) (childless_mkdir _)
                  _ _ _ _ Hu1 Hnone Hx)
        as [(_ & Hl)|(pm & es & r' & Hpm & -> & _ & _)].
      - simpl in Hl. injection Hl as <-. split; reflexivity.
      - injection Hpm as <-. split; reflexivity. }
    destruct Hx1 as [Hk Hp].
    destruct (lookup_update_old _ _ _ (goodLeaf_trunc _ _) _ _ _ _ Hu2 Hx)
      as (x2 & Hx2 & Hk2 & Hp2 & _).
    destruct (lookup_update_old _ _ _ (goodLeaf_write _ _) _ _ _ _ Hu3 Hx2)
      as (x3 & Hx3 & Hk3 & Hp3 & _).
    rewrite Hx3. destruct (isDir_perm_Dir x3 493%Z) as (es & ->); [congruence..|].
    eauto.
  - intros Hnone.
    destruct (lookup_update_new _ _ _ _ _ Hu2) as (y & Hy & Hleaf).
    assert (Hn1 : os.lookup n1 elems = None).
    { destruct (os.lookup n1 elems) as [x|] eqn:Ex; [|reflexivity].
      destruct (lookup_update_fresh _ _ _ (goodLeaf_mkdir _) (childless_mkdir _)
                  _ _ _ _ Hu1 Hnone Ex)
        as [(_ & Hl)|(pm & es & r' & _ & -> & _ & _)].
      - simpl in Hl. injection Hl as <-. discriminate.
      - discriminate. }
    rewrite Hn1 in Hleaf. simpl in Hleaf. injection Hleaf as <-.
    destruct (lookup_update_new _ _ _ _ _ Hu3) as (y' & Hy' & Hleaf').
    rewrite Hy in Hleaf'. simpl in Hleaf'. injection Hleaf' as <-.
    eauto.
Qed.

(** ** Calls that succeed *)

Lemma os_MkdirAll_run (path : string) (perm : os.FileMode) (s : World)
    (elems : list string) (n' : os.node) :
  os.namei (wd s) path = Some elems ->
  os.update (Some (os.Perm perm)) (os.mkdirLeaf (os.Perm perm)) (disk s) elems = inr n' ->
  os_MkdirAll path perm s = (setDisk s n', Ok tt).
Proof.
  intros Hn Hu. unfold os_MkdirAll, bind, resolve, os_update. rewrite Hn, Hu. reflexivity.
Qed.

Lemma os_OpenFile_run (path : string) (perm : os.FileMode) (s : World)
    (elems : list string) (n' : os.node) :
  os.namei (wd s) path = Some elems ->
  os.update None (os.truncLeaf (os.Perm perm) (clock s)) (disk s) elems = inr n' ->
  os_OpenFile path perm s = (setDisk s n', Ok elems).
Proof.
  intros Hn Hu. unfold os_OpenFile, bind, resolve, os_update, ret. rewrite Hn, Hu.
  reflexivity.
Qed.

Lemma os_Write_run (f : os.File_) (data : list Byte.byte) (s : World) (n' : os.node) :
  os.update None (os.writeLeaf (clock s) data) (disk s) f = inr n' ->
  os_Write f data s = (setDisk s n', Ok tt).
Proof. intros Hu. unfold os_Write, os_update. rewrite Hu. reflexivity. Qed.

Lemma os_Chtimes_run (path : string) (atime mtime : Z) (s : World)
    (elems : list string) (n' : os.node) :
  os.namei (wd s) path = Some elems ->
  os.update None (os.chtimesLeaf mtime) (disk s) elems = inr n' ->
  os_Chtimes path atime mtime s = (setDisk s n', Ok tt).
Proof.
  intros Hn Hu. unfold os_Chtimes, bind, resolve, os_update. rewrite Hn, Hu. reflexivity.
Qed.

Lemma os_Stat_Ok_iff (path : string) (s : World) :
  (exists info, snd (os_Stat path s) = Ok info) <->
  (exists elems x, os.namei (wd s) path = Some elems /\ os.lookup (disk s) elems = Some x).
Proof.
  unfold os_Stat, bind, resolve. split.
  - intros (info & H).
    destruct (os.namei (wd s) path) as [elems|]; [|discriminate].
    destruct (os.lookup (disk s) elems) as [x|] eqn:E; [|discriminate]. eauto.
  - intros (elems & x & Hn & Hl). rewrite Hn, Hl. simpl. eauto.
Qed.

Definition isFile (d : os.node) (elems : list string) : Prop :=
  exists x, os.lookup d elems = Some x /\ os.isDir x = false.

Definition isDirectory (d : os.node) (elems : list string) : Prop :=
  exists x, os.lookup d elems = Some x /\ os.isDir x = true.

Lemma isFile_inv (d : os.node) (elems : list string) :
  isFile d elems -> exists perm mtime data, os.lookup d elems = Some (os.File perm mtime data).
Proof. intros ([perm mtime data|] & H & Hk); [eauto | discriminate]. Qed.

(** [extractFile] with [overwrite] succeeds on a regular file whose
    directory is there, and puts the content of the entry in it. *)
Lemma extractFile_run (f : zip.File) (destPath : string) (out : io.Writer) (s : World)
    (delems elems : list string) (data : list Byte.byte) :
  os.namei (wd s) (filepath.Dir destPath) = Some delems ->
  os.namei (wd s) destPath = Some elems ->
  isDirectory (disk s) delems ->
  isFile (disk s) elems ->
  zip.Open f = Ok (data, None) ->
  exists s' perm,
    extractFile f destPath true out s = (s', Ok tt) /\
    os.lookup (disk s') elems = Some (os.File perm (clock s) data) /\
    (forall pm t d, os.lookup (disk s) elems = Some (os.File pm t d) -> perm = pm) /\
    wd s' = wd s /\ clock s' = clock s /\
    (forall q x, os.lookup (disk s) q = Some x ->
       exists x', os.lookup (disk s') q = Some x' /\ os.isDir x' = os.isDir x).
Proof.
  intros Hd He (xd & Hxd & Hkd) Hfile Hopen.
  destruct (isFile_inv _ _ Hfile) as (pm & t & d & Hx).
  (* MkdirAll *)
  destruct (update_succeeds (Some (os.Perm 493%Z)) (os.mkdirLeaf (os.Perm 493%Z))
              delems (disk s) xd xd Hxd) as (n1 & Hu1).
  { destruct xd; [discriminate | reflexivity]. }
  destruct (lookup_update_old _ _ _ (goodLeaf_mkdir _) _ _ _ _ Hu1 Hx)
    as (x1 & Hx1 & Hk1 & Hp1 & Hdata1).
  destruct (Hdata1 (or_intror (keepsData_mkdir _)) pm t d eq_refl) as (t1 & ->).
  (* OpenFile *)
  destruct (update_succeeds None
              (os.truncLeaf (os.Perm (zip.Mode (zip.Header f))) (clock s))
              elems n1 _ (os.File pm (clock s) []) Hx1 eq_refl) as (n2 & Hu2).
  destruct (lookup_update_new _ _ _ _ _ Hu2) as (y2 & Hy2 & Hl2).
  rewrite Hx1 in Hl2. simpl in Hl2. injection Hl2 as <-.
  (* Write *)
  destruct (update_succeeds None (os.writeLeaf (clock s) data)
              elems n2 _ (os.File pm (clock s) ([] ++ data)) Hy2 eq_refl) as (n3 & Hu3).
  destruct (lookup_update_new _ _ _ _ _ Hu3) as (y3 & Hy3 & Hl3).
  rewrite Hy2 in Hl3. simpl in Hl3. injection Hl3 as <-.
  set (s3 := setDisk (setDisk (setDisk s n1) n2) n3).
  destruct (Fprintf_disk out ("  inflating: " ++ destPath ++ String "010" "") s3)
    as (Hr & Hdk & Hw & Hc).
  destruct (Fprintf out ("  inflating: " ++ destPath ++ String "010" "") s3)
    as [s4 r4] eqn:Hpr.
  simpl in Hr, Hdk, Hw, Hc. subst r4.
  exists s4, pm.
  split; [|split; [|split; [|split; [|split]]]].
  - unfold extractFile. simpl negb. cbv iota.
    unfold bind at 1. unfold ret at 1.
    unfold bind at 1. rewrite (os_MkdirAll_run _ _ s delems n1 Hd Hu1).
    unfold bind at 1. rewrite Hopen.
    unfold bind at 1.
    rewrite (os_OpenFile_run destPath _ (setDisk s n1) elems n2 He Hu2).
    unfold bind at 1. unfold io_Copy, bind at 1. simpl fst. simpl snd.
    rewrite (os_Write_run elems data (setDisk (setDisk s n1) n2) n3 Hu3).
    unfold ret at 1. fold s3. exact Hpr.
  - rewrite Hdk. exact Hy3.
  - intros pm' t' d' H'. rewrite Hx in H'. congruence.
  - rewrite Hw. reflexivity.
  - rewrite Hc. reflexivity.
  - intros q x Hq. rewrite Hdk. simpl.
    destruct (lookup_update_old _ _ _ (goodLeaf_mkdir _) _ _ _ _ Hu1 Hq)
      as (q1 & Hq1 & Hqk1 & _).
    destruct (lookup_update_old _ _ _ (goodLeaf_trunc _ _) _ _ _ _ Hu2 Hq1)
      as (q2 & Hq2 & Hqk2 & _).
    destruct (lookup_update_old _ _ _ (goodLeaf_write _ _) _ _ _ _ Hu3 Hq2)
      as (q3 & Hq3 & Hqk3 & _).
    exists q3. split; [exact Hq3 | congruence].
Qed.

(** ** What stays in the file system *)

(** Everything that is in the tree of [s] is in the tree of [t], and is of
    the same kind there. *)
Definition kindsExt (s t : World) : Prop :=
  wd t = wd s /\
  forall q x, os.lookup (disk s) q = Some x ->
    exists x', os.lookup (disk t) q = Some x' /\ os.isDir x' = os.isDir x.

Lemma kindsExt_refl (s : World) : kindsExt s s.
Proof. split; [reflexivity|]. eauto. Qed.

Lemma kindsExt_trans (s1 s2 s3 : World) :
  kindsExt s1 s2 -> kindsExt s2 s3 -> kindsExt s1 s3.
Proof.
  intros [Hw1 H1] [Hw2 H2]. split; [congruence|].
  intros q x Hq. destruct (H1 q x Hq) as (x' & Hq' & Hk').
  destruct (H2 q x' Hq') as (x'' & Hq'' & Hk''). exists x''. split; [assumption|congruence].
Qed.

Lemma kindsExt_update (s : World) (mk : option os.FileMode)
    (leaf : option os.node -> string + os.node) (elems : list string) (n : os.node) :
  (exists perm now data mtime,
     (mk = Some perm /\ leaf = os.mkdirLeaf perm) \/
     (mk = None /\ leaf = os.truncLeaf perm now) \/
     (mk = None /\ leaf = os.writeLeaf now data) \/
     (mk = None /\ leaf = os.chtimesLeaf mtime)) ->
  os.update mk leaf (disk s) elems = inr n -> kindsExt s (setDisk s n).
Proof.
  intros (perm & now & data & mtime & Hleaf) Hu. split; [reflexivity|].
  intros q x Hq. simpl.
  assert (Hgood : goodLeaf leaf).
  { destruct Hleaf as [(_ & ->)|[(_ & ->)|[(_ & ->)|(_ & ->)]]];
      auto using goodLeaf_mkdir, goodLeaf_trunc, goodLeaf_write, goodLeaf_chtimes. }
  destruct (lookup_update_old mk leaf elems Hgood _ _ _ _ Hu Hq) as (x' & H1 & H2 & _).
  eauto.
Qed.

Lemma unzipEntry_kindsExt (opts : UnzipOptions) (out : io.Writer)
    (outputDir absOutputDir : string) (f : zip.File) (s : World) :
  kindsExt s (fst (unzipEntry opts out outputDir absOutputDir f s)).
Proof.
  apply (@preserves_unzipEntry kindsExt kindsExt_refl kindsExt_trans kindsExt_update).
  - intros s0 text. split; [reflexivity|]. simpl. eauto.
  - intros s0 w. split; [reflexivity|]. simpl. eauto.
Qed.

Lemma unzipRange_kindsExt (opts : UnzipOptions) (out : io.Writer)
    (outputDir absOutputDir : string) (files : list zip.File) (s : World) :
  kindsExt s (fst (forRange files (unzipEntry opts out outputDir absOutputDir) s)).
Proof.
  apply (@preserves_forRange kindsExt kindsExt_refl kindsExt_trans).
  intros f s'. apply unzipEntry_kindsExt.
Qed.

Lemma isDirectory_ext (s t : World) (elems : list string) :
  kindsExt s t -> isDirectory (disk s) elems -> isDirectory (disk t) elems.
Proof.
  intros [_ H] (x & Hx & Hk). destruct (H _ _ Hx) as (x' & Hx' & Hk').
  exists x'. split; [assumption|congruence].
Qed.

Lemma isFile_ext (s t : World) (elems : list string) :
  kindsExt s t -> isFile (disk s) elems -> isFile (disk t) elems.
Proof.
  intros [_ H] (x & Hx & Hk). destruct (H _ _ Hx) as (x' & Hx' & Hk').
  exists x'. split; [assumption|congruence].
Qed.

(** ** What a successful extraction of an entry leaves behind *)

(** For an entry that is not skipped: its destination passes the guard;
    a directory entry has its directory; a file entry has its file, in a
    directory, and its content can be read. *)
Definition established (opts : UnzipOptions) (w : string) (g : zip.File)
    (d : os.node) : Prop :=
  selected opts g ->
  within (filepath.Abs w (outputDirOf opts)) (filepath.Abs w (destPathOf opts g)) /\
  if zip.IsDir g then
    exists elems, os.namei w (destPathOf opts g) = Some elems /\ isDirectory d elems
  else
    exists delems elems data,
      os.namei w (filepath.Dir (destPathOf opts g)) = Some delems /\
      os.namei w (destPathOf opts g) = Some elems /\
      isDirectory d delems /\ isFile d elems /\ zip.Open g = Ok (data, None).

Lemma established_ext (opts : UnzipOptions) (g : zip.File) (s t : World) :
  kindsExt s t -> established opts (wd s) g (disk s) -> established opts (wd t) g (disk t).
Proof.
  intros Hext H Hsel. destruct (H Hsel) as [Hw Hrest]. destruct Hext as [Hwd Hk].
  rewrite Hwd. split; [exact Hw|].
  destruct (zip.IsDir g).
  - destruct Hrest as (elems & Hn & Hd). exists elems. split; [exact Hn|].
    apply (isDirectory_ext s t); [split; assumption | exact Hd].
  - destruct Hrest as (delems & elems & data & H1 & H2 & H3 & H4 & H5).
    exists delems, elems, data. repeat split; auto.
    + apply (isDirectory_ext s t); [split; assumption | exact H3].
    + apply (isFile_ext s t); [split; assumption | exact H4].
Qed.

Lemma selected_dec (opts : UnzipOptions) (f : zip.File) :
  (0 <? List.length (FilePatterns opts))%nat
  && negb (matchesAny (zip.Name (zip.Header f)) (FilePatterns opts)) = false <->
  selected opts f.
Proof.
  unfold selected. rewrite Bool.andb_false_iff, Bool.negb_false_iff, matchesAny_true_iff.
  rewrite Nat.ltb_ge. split; intros [H|H]; auto.
  - left. destruct (FilePatterns opts); [reflexivity | simpl in H; lia].
  - left. rewrite H. simpl. lia.
Qed.

Lemma placeEntry_Ok (opts : UnzipOptions) (out : io.Writer) (absOutputDir : string)
    (f : zip.File) (destPath : string) (s s' : World) :
  placeEntry opts out absOutputDir f destPath s = (s', Ok tt) ->
  within absOutputDir (filepath.Abs (wd s) destPath) /\
  if zip.IsDir f then
    os_MkdirAll destPath (zip.Mode (zip.Header f)) s = (s', Ok tt)
  else
    exists s1, extractFile f destPath (Overwrite opts) out s = (s1, Ok tt) /\
               os_Chtimes destPath (zip.Modified (zip.Header f))
                 (zip.Modified (zip.Header f)) s1 = (s', Ok tt).
Proof.
  unfold placeEntry. intros H.
  apply bind_Ok in H. destruct H as (s0 & absDest & Habs & H).
  unfold filepath_Abs in Habs. injection Habs as <- <-.
  destruct (negb (strings.HasPrefix (filepath.Abs (wd s) destPath)
                    (absOutputDir ++ String filepath.Separator ""))
            && negb (filepath.Abs (wd s) destPath =? absOutputDir)%string) eqn:E;
    [discriminate|].
  apply guard_within in E. split; [exact E|].
  destruct (zip.IsDir f).
  - apply wrapErr_Ok in H. exact H.
  - apply bind_Ok in H. destruct H as (s1 & [] & H1 & H2).
    apply wrapErr_Ok in H2. eauto.
Qed.

Lemma unzipEntry_establishes (opts : UnzipOptions) (out : io.Writer) (g : zip.File)
    (a b : World) :
  unzipEntry opts out (outputDirOf opts) (filepath.Abs (wd a) (outputDirOf opts)) g a
  = (b, Ok tt) ->
  established opts (wd a) g (disk b).
Proof.
  intros H Hsel. rewrite (unzipEntry_selected opts _ _ _ g Hsel) in H.
  apply placeEntry_Ok in H. destruct H as [Hw H]. split; [exact Hw|].
  fold (targetName opts g) in H. fold (destPathOf opts g) in H.
  destruct (zip.IsDir g).
  - apply os_MkdirAll_Ok in H. destruct H as (elems & n' & Hn & Hu & ->).
    exists elems. split; [exact Hn|].
    destruct (lookup_update_new _ _ _ _ _ Hu) as (y & Hy & Hl).
    exists y. split; [exact Hy|].
    destruct (os.lookup (disk a) elems) as [[|]|]; simpl in Hl; inversion Hl; reflexivity.
  - destruct H as (s1 & Hex & Hch).
    apply extractFile_Ok in Hex.
    destruct Hex as (delems & elems & n1 & n2 & n3 & data & _ & Hd & Hu1 & Hopen & He
                     & Hu2 & Hu3 & Hdisk & Hwd & _).
    apply os_Chtimes_Ok in Hch. destruct Hch as (elems' & n4 & He' & Hu4 & ->).
    rewrite Hwd, He in He'. injection He' as <-. rewrite Hdisk in Hu4.
    exists delems, elems, data. repeat split; auto; simpl.
    + destruct (lookup_update_new _ _ _ _ _ Hu1) as (y & Hy & Hl).
      assert (Hk : os.isDir y = true).
      { destruct (os.lookup (disk a) delems) as [[|]|]; simpl in Hl; inversion Hl;
          reflexivity. }
      destruct (lookup_update_old _ _ _ (goodLeaf_trunc _ _) _ _ _ _ Hu2 Hy)
        as (y2 & Hy2 & Hk2 & _).
      destruct (lookup_update_old _ _ _ (goodLeaf_write _ _) _ _ _ _ Hu3 Hy2)
        as (y3 & Hy3 & Hk3 & _).
      destruct (lookup_update_old _ _ _ (goodLeaf_chtimes _) _ _ _ _ Hu4 Hy3)
        as (y4 & Hy4 & Hk4 & _).
      exists y4. split; [exact Hy4 | congruence].
    + destruct (lookup_update_new _ _ _ _ _ Hu2) as (y & Hy & Hl).
      assert (Hk : os.isDir y = false).
      { destruct (os.lookup n1 elems) as [[|]|]; simpl in Hl; inversion Hl; reflexivity. }
      destruct (lookup_update_old _ _ _ (goodLeaf_write _ _) _ _ _ _ Hu3 Hy)
        as (y3 & Hy3 & Hk3 & _).
      destruct (lookup_update_old _ _ _ (goodLeaf_chtimes _) _ _ _ _ Hu4 Hy3)
        as (y4 & Hy4 & Hk4 & _).
      exists y4. split; [exact Hy4 | congruence].
Qed.

(** ** Extracting again *)

Definition fileExists (destPath : string) : error :=
  errorString ("file exists: " ++ destPath ++ " (use overwrite option)").

Lemma extractFile_collision (f : zip.File) (destPath : string) (out : io.Writer)
    (s : World) :
  (exists info, snd (os_Stat destPath s) = Ok info) ->
  extractFile f destPath false out s = (s, Err (fileExists destPath)).
Proof.
  intros (info & H). unfold extractFile. simpl negb. cbv iota. unfold bind at 1.
  pose proof (os_Stat_state destPath s) as Hs.
  destruct (os_Stat destPath s) as [s1 [i|e]]; simpl in *; [|discriminate].
  subst s1. reflexivity.
Qed.

Lemma placeEntry_collision (opts : UnzipOptions) (out : io.Writer) (absOutputDir : string)
    (f : zip.File) (destPath : string) (s : World) :
  within absOutputDir (filepath.Abs (wd s) destPath) ->
  zip.IsDir f = false -> Overwrite opts = false ->
  (exists info, snd (os_Stat destPath s) = Ok info) ->
  placeEntry opts out absOutputDir f destPath s = (s, Err (fileExists destPath)).
Proof.
  intros Hw Hd Ho Hst. rewrite (placeEntry_within opts out absOutputDir f destPath s Hw).
  rewrite Hd, Ho. unfold bind. rewrite (extractFile_collision f destPath out s Hst).
  reflexivity.
Qed.

Lemma mkdir_again (path : string) (perm : os.FileMode) (s : World) (elems : list string) :
  os.namei (wd s) path = Some elems -> isDirectory (disk s) elems ->
  exists s', os_MkdirAll path perm s = (s', Ok tt).
Proof.
  intros Hn (x & Hx & Hk).
  destruct (update_succeeds (Some (os.Perm perm)) (os.mkdirLeaf (os.Perm perm))
              elems (disk s) x x Hx) as (n' & Hu).
  { destruct x; [discriminate | reflexivity]. }
  exists (setDisk s n'). apply os_MkdirAll_run with (elems := elems); assumption.
Qed.

Lemma unzipEntry_skipped_or_placed (opts : UnzipOptions) (out : io.Writer)
    (outputDir absOutputDir : string) (g : zip.File) (s : World) :
  (~ selected opts g /\ unzipEntry opts out outputDir absOutputDir g s = (s, Ok tt)) \/
  (selected opts g /\
   unzipEntry opts out outputDir absOutputDir g s =
   placeEntry opts out absOutputDir g
     (filepath.Join [outputDir; targetName opts g]) s).
Proof.
  unfold unzipEntry.
  destruct ((0 <? List.length (FilePatterns opts))%nat
            && negb (matchesAny (zip.Name (zip.Header g)) (FilePatterns opts))) eqn:E.
  - left. split; [|reflexivity]. intros Hsel. apply selected_dec in Hsel. congruence.
  - right. split; [apply selected_dec; exact E | reflexivity].
Qed.

(** With [Overwrite] an entry that was extracted is extracted again. *)
Lemma unzipEntry_again (opts : UnzipOptions) (out : io.Writer) (g : zip.File) (t : World) :
  Overwrite opts = true ->
  established opts (wd t) g (disk t) ->
  exists t',
    unzipEntry opts out (outputDirOf opts) (filepath.Abs (wd t) (outputDirOf opts)) g t
    = (t', Ok tt).
Proof.
  intros Ho Hest.
  destruct (unzipEntry_skipped_or_placed opts out (outputDirOf opts)
              (filepath.Abs (wd t) (outputDirOf opts)) g t) as [[_ ->]|[Hsel ->]];
    [eauto|].
  destruct (Hest Hsel) as [Hw Hrest]. fold (destPathOf opts g).
  rewrite (placeEntry_within _ _ _ _ _ _ Hw).
  destruct (zip.IsDir g).
  - destruct Hrest as (elems & Hn & Hd).
    destruct (mkdir_again (destPathOf opts g) (zip.Mode (zip.Header g)) t elems Hn Hd)
      as (t' & Hmk).
    exists t'. unfold wrapErr. rewrite Hmk. reflexivity.
  - destruct Hrest as (delems & elems & data & Hd & He & Hdir & Hfile & Hopen).
    destruct (extractFile_run g (destPathOf opts g) out t delems elems data
                Hd He Hdir Hfile Hopen)
      as (t1 & perm & Hex & Hl & _ & Hwd & _ & _).
    rewrite Ho. unfold bind. rewrite Hex.
    destruct (update_succeeds None (os.chtimesLeaf (zip.Modified (zip.Header g)))
                elems (disk t1) _ (os.File perm (zip.Modified (zip.Header g)) data)
                Hl eq_refl) as (n4 & Hu4).
    rewrite <- Hwd in He.
    exists (setDisk t1 n4). unfold wrapErr.
    rewrite (os_Chtimes_run _ _ _ t1 elems n4 He Hu4). reflexivity.
Qed.

(** Without [Overwrite] a directory entry that was extracted is extracted
    again, and a file entry that was extracted stops the extraction. *)
Lemma unzipEntry_again_no_overwrite (opts : UnzipOptions) (out : io.Writer)
    (g : zip.File) (t : World) :
  Overwrite opts = false ->
  established opts (wd t) g (disk t) ->
  (~ selected opts g \/ zip.IsDir g = true ->
   exists t',
     unzipEntry opts out (outputDirOf opts) (filepath.Abs (wd t) (outputDirOf opts)) g t
     = (t', Ok tt)) /\
  (selected opts g -> zip.IsDir g = false ->
   unzipEntry opts out (outputDirOf opts) (filepath.Abs (wd t) (outputDirOf opts)) g t
   = (t, Err (fileExists (destPathOf opts g)))).
Proof.
  intros Ho Hest.
  destruct (unzipEntry_skipped_or_placed opts out (outputDirOf opts)
              (filepath.Abs (wd t) (outputDirOf opts)) g t) as [[Hns ->]|[Hsel ->]].
  { split; [eauto | contradiction]. }
  destruct (Hest Hsel) as [Hw Hrest]. fold (destPathOf opts g). split.
  - intros [Hns|Hdir]; [contradiction|].
    rewrite (placeEntry_within _ _ _ _ _ _ Hw). rewrite Hdir in *.
    destruct Hrest as (elems & Hn & Hd).
    destruct (mkdir_again (destPathOf opts g) (zip.Mode (zip.Header g)) t elems Hn Hd)
      as (t' & Hmk).
    exists t'. unfold wrapErr. rewrite Hmk. reflexivity.
  - intros _ Hfile. rewrite Hfile in Hrest.
    destruct Hrest as (delems & elems & data & Hd & He & Hdir & (x & Hx & _) & Hopen).
    apply placeEntry_collision; auto.
    apply os_Stat_Ok_iff. eauto.
Qed.

(** A successful extraction, run again with [Overwrite] from a state that
    holds what the first run left, succeeds. *)
Lemma unzipRange_again (opts : UnzipOptions) (out : io.Writer) (w : string)
    (files : list zip.File) :
  Overwrite opts = true ->
  forall a b t,
    wd a = w ->
    forRange files
      (unzipEntry opts out (outputDirOf opts) (filepath.Abs w (outputDirOf opts))) a
    = (b, Ok tt) ->
    kindsExt b t ->
    exists t',
      forRange files
        (unzipEntry opts out (outputDirOf opts) (filepath.Abs w (outputDirOf opts))) t
      = (t', Ok tt).
Proof.
  intros Ho. induction files as [|g rest IH]; intros a b t Hwa Hrun Hext.
  - exists t. reflexivity.
  - simpl in Hrun. apply bind_Ok in Hrun. destruct Hrun as (a1 & [] & Hg & Hrest).
    subst w.
    pose proof (unzipEntry_establishes opts out g a a1 Hg) as Hest.
    pose proof (unzipRange_kindsExt opts out (outputDirOf opts)
                  (filepath.Abs (wd a) (outputDirOf opts)) rest a1) as Hk1.
    rewrite Hrest in Hk1. simpl in Hk1.
    pose proof (unzipEntry_kindsExt opts out (outputDirOf opts)
                  (filepath.Abs (wd a) (outputDirOf opts)) g a) as Hk0.
    rewrite Hg in Hk0. simpl in Hk0.
    assert (Hat : kindsExt a1 t) by (eapply kindsExt_trans; eassumption).
    assert (Hwt : wd t = wd a).
    { destruct Hat as [H1 _]. destruct Hk0 as [H0 _]. congruence. }
    assert (Hest1 : established opts (wd a1) g (disk a1)).
    { destruct Hk0 as [H0 _]. rewrite H0. exact Hest. }
    pose proof (established_ext opts g a1 t Hat Hest1) as Hest_t.
    destruct (unzipEntry_again opts out g t Ho Hest_t) as (t1 & Hg').
    rewrite Hwt in Hg'.
    pose proof (unzipEntry_kindsExt opts out (outputDirOf opts)
                  (filepath.Abs (wd a) (outputDirOf opts)) g t) as Hkt.
    rewrite Hg' in Hkt. simpl in Hkt.
    destruct (IH a1 b t1) as (t' & Hrest').
    + destruct Hk0 as [H0 _]. exact H0.
    + exact Hrest.
    + eapply kindsExt_trans; eassumption.
    + exists t'. simpl. unfold bind. rewrite Hg'. exact Hrest'.
Qed.

Lemma established_later (opts : UnzipOptions) (out : io.Writer) (g : zip.File)
    (a a1 t : World) :
  unzipEntry opts out (outputDirOf opts) (filepath.Abs (wd a) (outputDirOf opts)) g a
  = (a1, Ok tt) ->
  kindsExt a1 t ->
  wd a1 = wd a /\ wd t = wd a /\ established opts (wd t) g (disk t).
Proof.
  intros Hstep Hat.
  pose proof (unzipEntry_kindsExt opts out (outputDirOf opts)
                (filepath.Abs (wd a) (outputDirOf opts)) g a) as Hk0.
  rewrite Hstep in Hk0. simpl in Hk0. destruct Hk0 as [H0 _].
  split; [exact H0|]. split; [destruct Hat; congruence|].
  apply (established_ext opts g a1 t Hat). rewrite H0.
  exact (unzipEntry_establishes opts out g a a1 Hstep).
Qed.

(** A successful extraction, run again without [Overwrite], stops at the
    first file entry it does not skip. *)
Lemma unzipRange_again_stops (opts : UnzipOptions) (out : io.Writer) (w : string)
    (pre post : list zip.File) (f : zip.File) :
  Overwrite opts = false ->
  Forall (fun g => ~ selected opts g \/ zip.IsDir g = true) pre ->
  selected opts f -> zip.IsDir f = false ->
  forall a b t,
    wd a = w ->
    forRange (pre ++ f :: post)
      (unzipEntry opts out (outputDirOf opts) (filepath.Abs w (outputDirOf opts))) a
    = (b, Ok tt) ->
    kindsExt b t ->
    exists t',
      forRange (pre ++ f :: post)
        (unzipEntry opts out (outputDirOf opts) (filepath.Abs w (outputDirOf opts))) t
      = (t', Err (fileExists (destPathOf opts f))).
Proof.
  intros Ho Hpre Hsel Hfile.
  induction Hpre as [|g pre Hg Hpre IH]; intros a b t Hwa Hrun Hext;
    simpl app in *; simpl forRange in *;
    apply bind_Ok in Hrun; destruct Hrun as (a1 & [] & Hstep & Hrest); subst w.
  - pose proof (unzipRange_kindsExt opts out (outputDirOf opts)
                  (filepath.Abs (wd a) (outputDirOf opts)) post a1) as Hk1.
    rewrite Hrest in Hk1. simpl in Hk1.
    destruct (established_later opts out f a a1 t Hstep
                (kindsExt_trans _ _ _ Hk1 Hext)) as (_ & Hwt & Hest).
    destruct (unzipEntry_again_no_overwrite opts out f t Ho Hest) as [_ Hstop].
    rewrite Hwt in Hstop.
    exists t. unfold bind. rewrite (Hstop Hsel Hfile). reflexivity.
  - pose proof (unzipRange_kindsExt opts out (outputDirOf opts)
                  (filepath.Abs (wd a) (outputDirOf opts)) (pre ++ f :: post) a1) as Hk1.
    rewrite Hrest in Hk1. simpl in Hk1.
    destruct (established_later opts out g a a1 t Hstep
                (kindsExt_trans _ _ _ Hk1 Hext)) as (Hw1 & Hwt & Hest).
    destruct (unzipEntry_again_no_overwrite opts out g t Ho Hest) as [Hok _].
    rewrite Hwt in Hok.
    destruct (Hok Hg) as (t1 & Hg').
    pose proof (unzipEntry_kindsExt opts out (outputDirOf opts)
                  (filepath.Abs (wd a) (outputDirOf opts)) g t) as Hkt.
    rewrite Hg' in Hkt. simpl in Hkt.
    destruct (IH a1 b t1 Hw1 Hrest (kindsExt_trans _ _ _ Hext Hkt)) as (t' & Hrest').
    exists t'. unfold bind. rewrite Hg'. exact Hrest'.
Qed.

(** ** Collisions *)

(** The owner of a file of this mode may write to it: the bit 0200.  The
    process of the model passes every permission check; for the process
    of an ordinary user this is what lets a file that an extraction has
    made be opened for writing once more. *)
Definition ownerMayWrite (m : os.FileMode) : Prop := Z.testbit m 7 = true.

(** C3. (1) When [Unzip] comes, with [Overwrite] false, to a file entry it
    does not skip whose destination passes the guard and names something
    that is there, it stops with the error
    ["file exists: <path> (use overwrite option)"] and leaves the state as
    the entries before it made it.  (2) With [Overwrite] true,
    [extractFile] succeeds on a destination that is a regular file in a
    directory, when the content of the entry can be read, and the file then
    holds that content.  (3) When an extraction has succeeded and the
    archive still reads the same, a second extraction with the same
    options succeeds if [Overwrite] is true and the mode of every file
    entry lets the owner write to the file, and, if [Overwrite] is false
    and some file entry is not skipped, stops at the first such entry with
    the "file exists" error for its destination. *)
Theorem Unzip_collision (codec : zip.Codec) (zipPath : string) (opts : UnzipOptions)
    (s : World) (files : list zip.File) :
  let out := statusWriter (UnzipOutput opts) in
  let absOutputDir := filepath.Abs (wd s) (outputDirOf opts) in
  snd (zip_OpenReader codec zipPath s) = Ok files ->
  (forall pre f post s1,
     files = pre ++ f :: post ->
     forRange pre (unzipEntry opts out (outputDirOf opts) absOutputDir) s = (s1, Ok tt) ->
     selected opts f -> zip.IsDir f = false -> Overwrite opts = false ->
     within absOutputDir (filepath.Abs (wd s) (destPathOf opts f)) ->
     (exists elems x, os.namei (wd s1) (destPathOf opts f) = Some elems /\
                      os.lookup (disk s1) elems = Some x) ->
     Unzip codec zipPath opts s = (s1, Err (fileExists (destPathOf opts f)))) /\
  (forall f destPath s1 delems elems data,
     os.namei (wd s1) (filepath.Dir destPath) = Some delems ->
     os.namei (wd s1) destPath = Some elems ->
     isDirectory (disk s1) delems -> isFile (disk s1) elems ->
     zip.Open f = Ok (data, None) ->
     exists s2 perm,
       extractFile f destPath true out s1 = (s2, Ok tt) /\
       os.lookup (disk s2) elems = Some (os.File perm (clock s1) data)) /\
  (forall s1,
     Unzip codec zipPath opts s = (s1, Ok tt) ->
     snd (zip_OpenReader codec zipPath s1) = Ok files ->
     (Overwrite opts = true ->
      Forall (fun g => zip.IsDir g = false -> ownerMayWrite (zip.Mode (zip.Header g)))
        files ->
      exists s2, Unzip codec zipPath opts s1 = (s2, Ok tt)) /\
     (Overwrite opts = false ->
      forall pre f post,
        files = pre ++ f :: post ->
        Forall (fun g => ~ selected opts g \/ zip.IsDir g = true) pre ->
        selected opts f -> zip.IsDir f = false ->
        exists s2,
          Unzip codec zipPath opts s1 = (s2, Err (fileExists (destPathOf opts f))))).
Proof.
  intros out absOutputDir Hopen. subst out absOutputDir.
  set (out := statusWriter (UnzipOutput opts)).
  set (absOutputDir := filepath.Abs (wd s) (outputDirOf opts)).
  pose proof (Unzip_loop codec zipPath opts s _ Hopen) as Hloop.
  fold out absOutputDir in Hloop.
  split; [|split].
  - intros pre f post s1 -> Hpre Hsel Hfile Ho Hw Hex.
    rewrite Hloop.
    apply (forRange_stops pre post f _ s s1 s1); [exact Hpre|].
    rewrite (unzipEntry_selected opts _ _ _ f Hsel).
    pose proof (unzipRange_sameEnv opts out (outputDirOf opts) absOutputDir pre s)
      as [Hwd _].
    rewrite Hpre in Hwd. simpl in Hwd.
    apply placeEntry_collision; auto.
    + rewrite Hwd. exact Hw.
    + apply os_Stat_Ok_iff. exact Hex.
  - intros f destPath s1 delems elems data Hd He Hdir Hfile Ho.
    destruct (extractFile_run f destPath out s1 delems elems data Hd He Hdir Hfile Ho)
      as (s2 & perm & H1 & H2 & _).
    eauto.
  - intros s1 Hrun Hopen1.
    rewrite Hloop in Hrun.
    pose proof (unzipRange_kindsExt opts out (outputDirOf opts) absOutputDir files s)
      as Hk.
    rewrite Hrun in Hk. simpl in Hk.
    assert (Hwd : wd s1 = wd s) by (destruct Hk; assumption).
    rewrite (Unzip_loop codec zipPath opts s1 _ Hopen1), Hwd.
    fold out absOutputDir.
    split.
    + intros Ho _.
      exact (unzipRange_again opts out (wd s) files Ho s s1 s1 eq_refl Hrun
               (kindsExt_refl s1)).
    + intros Ho pre f post -> Hpre Hsel Hfile.
      exact (unzipRange_again_stops opts out (wd s) pre post f Ho Hpre Hsel Hfile
               s s1 s1 eq_refl Hrun (kindsExt_refl s1)).
Qed.

(** ** The archive writer *)

(** Induction over the tree. *)
Fixpoint node_ind' (P : os.node -> Prop)
    (HF : forall perm mtime data, P (os.File perm mtime data))
    (HD : forall perm es, Forall (fun e => P (snd e)) es -> P (os.Dir perm es))
    (n : os.node) {struct n} : P n :=
  match n with
  | os.File perm mtime data => HF perm mtime data
  | os.Dir perm es =>
      HD perm es
        ((fix go (es : list (string * os.node)) : Forall (fun e => P (snd e)) es :=
            match es with
            | [] => Forall_nil _
            | e :: rest =>
                Forall_cons e
                  (match e return P (snd e) with
                   | (_, child) => node_ind' P HF HD child
                   end)
                  (go rest)
            end) es)
  end.

Lemma plainNameb_plainName (name : string) :
  os.plainNameb name = true -> plainName name.
Proof.
  unfold os.plainNameb, plainName, slashFree.
  rewrite !Bool.andb_true_iff, !Bool.negb_true_iff.
  intros (((H1 & H2) & H3) & H4). apply String.eqb_neq in H2, H3, H4. auto.
Qed.

Lemma getEntry_distinct (name : string) (child : os.node) (pre post : list (string * os.node)) :
  os.distinct (map fst (pre ++ (name, child) :: post)) = true ->
  os.getEntry name (pre ++ (name, child) :: post) = Some child.
Proof.
  induction pre as [|[k x] pre IH]; simpl.
  - rewrite String.eqb_refl. reflexivity.
  - intros H. apply Bool.andb_true_iff in H. destruct H as [Hk Hd].
    apply Bool.negb_true_iff in Hk.
    destruct (k =? name)%string eqn:E; [|exact (IH Hd)].
    apply String.eqb_eq in E. subst k. exfalso.
    assert (Hex : existsb (String.eqb name) (map fst (pre ++ (name, child) :: post)) = true).
    { apply existsb_exists. exists name. split; [|apply String.eqb_refl].
      rewrite map_app. apply in_or_app. right. left. reflexivity. }
    congruence.
Qed.

Lemma wellFormed_Dir (perm : os.FileMode) (es : list (string * os.node)) :
  os.wellFormed (os.Dir perm es) = true ->
  os.distinct (map fst es) = true /\
  Forall (fun e => plainName (fst e) /\ os.wellFormed (snd e) = true) es.
Proof.
  simpl. rewrite !Bool.andb_true_iff. intros ((Hp & Hd) & Hall). split; [exact Hd|].
  clear Hd. induction es as [|[k c] es IH]; [constructor|].
  simpl in Hp. apply Bool.andb_true_iff in Hp. destruct Hp as [Hk Hp].
  apply Bool.andb_true_iff in Hall. destruct Hall as [Hc Hall].
  constructor; [|exact (IH Hp Hall)].
  split; [apply plainNameb_plainName; exact Hk | exact Hc].
Qed.

Lemma lookup_app (n : os.node) (p q : list string) (x : os.node) :
  os.lookup n p = Some x -> os.lookup n (p ++ q) = os.lookup x q.
Proof.
  revert n. induction p as [|e p IH]; intros n H; simpl in *.
  - injection H as ->. reflexivity.
  - destruct n as [|pm es]; [discriminate|].
    destruct (os.getEntry e es); [|discriminate]. apply IH. exact H.
Qed.

Lemma appendToLast_snoc (es : list (zip.FileHeader * list Byte.byte))
    (h : zip.FileHeader) (d data : list Byte.byte) :
  appendToLast (es ++ [(h, d)]) data = es ++ [(h, d ++ data)].
Proof.
  unfold appendToLast. rewrite rev_app_distr. simpl. rewrite rev_involutive. reflexivity.
Qed.

Lemma zipAdd_frame (opts : ZipOptions) (out : io.Writer) (s : World)
    (e : string * os.node) :
  disk (zipAdd opts out s e) = disk s /\ wd (zipAdd opts out s e) = wd s /\
  clock (zipAdd opts out s e) = clock s /\
  zip.dest (zw (zipAdd opts out s e)) = zip.dest (zw s) /\
  zip.level (zw (zipAdd opts out s e)) = zip.level (zw s) /\
  zip.entries (zw (zipAdd opts out s e)) =
  zip.entries (zw s) ++ [entryOf opts (fst e) (snd e)].
Proof. unfold zipAdd. destruct out; simpl; repeat split; reflexivity. Qed.

Lemma zipAdd_fold_frame (opts : ZipOptions) (out : io.Writer)
    (l : list (string * os.node)) (s : World) :
  let s' := fold_left (zipAdd opts out) l s in
  disk s' = disk s /\ wd s' = wd s /\ clock s' = clock s /\
  zip.dest (zw s') = zip.dest (zw s) /\
  zip.level (zw s') = zip.level (zw s) /\
  zip.entries (zw s') =
  zip.entries (zw s) ++ map (fun e => entryOf opts (fst e) (snd e)) l.
Proof.
  revert s. induction l as [|e l IH]; intros s; simpl.
  - rewrite app_nil_r. repeat split; reflexivity.
  - destruct (IH (zipAdd opts out s e)) as (H1 & H2 & H3 & H4 & H5 & H6).
    destruct (zipAdd_frame opts out s e) as (G1 & G2 & G3 & G4 & G5 & G6).
    repeat split; try congruence.
    rewrite H6, G6, <- app_assoc. reflexivity.
Qed.

Lemma bind_run {A B : Type} (m : M A) (wrap : error -> error) (k : A -> M B)
    (s s1 : World) (a : A) :
  m s = (s1, Ok a) -> bind m wrap k s = k a s1.
Proof. intros H. unfold bind. rewrite H. reflexivity. Qed.

Lemma os_Open_run (path : string) (s : World) (elems : list string) (n : os.node) :
  os.namei (wd s) path = Some elems ->
  os.lookup (disk s) elems = Some n ->
  os_Open path s = (s, Ok elems).
Proof.
  intros Hn Hl. unfold os_Open, bind, resolve. rewrite Hn, Hl. reflexivity.
Qed.

Lemma Fprintf_pair (out : io.Writer) (text : string) (s : World) :
  Fprintf out text s = (fst (Fprintf out text s), Ok tt).
Proof. destruct out; reflexivity. Qed.

(** [writeFileToZip] on a regular file. *)
Lemma writeFileToZip_run (path : string) (opts : ZipOptions) (out : io.Writer)
    (s : World) (elems : list string) (n : os.node) :
  os.namei (wd s) path = Some elems ->
  os.lookup (disk s) elems = Some n ->
  os.isDir n = false ->
  writeFileToZip path (os.infoOf path n) opts out s = (zipAdd opts out s (path, n), Ok tt).
Proof.
  intros Hn Hl Hk. destruct n as [pm t d|]; [|discriminate].
  unfold writeFileToZip.
  erewrite bind_run by reflexivity.
  erewrite bind_run by reflexivity.
  erewrite bind_run by (apply os_Open_run with (n := os.File pm t d); [exact Hn | exact Hl]).
  erewrite bind_run by (unfold os_reader; simpl disk; rewrite Hl; reflexivity).
  erewrite bind_run.
  2:{ unfold io_Copy. erewrite bind_run by reflexivity. reflexivity. }
  simpl zw. simpl zip.entries. rewrite appendToLast_snoc.
  unfold zipAdd, entryOf, methodFor, filepath.ToSlash. simpl fst. simpl snd.
  simpl zip.dest. simpl zip.level. simpl app.
  destruct (CompressionLevel opts =? 0)%Z; apply Fprintf_pair.
Qed.

Arguments filepath.Join : simpl never.
Arguments filepath.Clean : simpl never.
Arguments filepath.Abs : simpl never.

(** The function [addToZip] hands to [filepath.Walk]. *)
Definition zipWalkFn (opts : ZipOptions) (out : io.Writer) : WalkFunc :=
  fun p fi err =>
    match err with
    | Some err => fail err
    | None =>
        if matchesAny p (ExcludePatterns opts) then
          if os.IsDir fi then fail SkipDir else ret tt
        else if os.IsDir fi then ret tt
        else writeFileToZip p fi opts out
    end.

(** What [walk] returns: [SkipDir] from an excluded directory. *)
Definition walkResult (excl : list string) (path : string) (n : os.node) : result unit :=
  if matchesAny path excl && os.isDir n then Err SkipDir else Ok tt.

Lemma walk_archived (opts : ZipOptions) (out : io.Writer) (n : os.node) :
  forall (path : string) (elems : list string) (s : World),
    os.wellFormed n = true ->
    os.namei (wd s) path = Some elems ->
    os.lookup (disk s) elems = Some n ->
    walk path n (zipWalkFn opts out) s =
    (fold_left (zipAdd opts out) (archived (ExcludePatterns opts) path n) s,
     walkResult (ExcludePatterns opts) path n).
Proof.
  induction n as [pm t d|pm names IH] using node_ind'; intros path elems s Hwf Hn Hl.
  - simpl walk. unfold zipWalkFn, walkResult. simpl archived. simpl os.IsDir.
    destruct (matchesAny path (ExcludePatterns opts)); [reflexivity|].
    simpl. apply writeFileToZip_run with (elems := elems) (n := os.File pm t d); auto.
  - simpl walk. unfold walkResult. simpl archived. simpl os.isDir.
    unfold bind. unfold zipWalkFn at 1. simpl os.IsDir.
    destruct (matchesAny path (ExcludePatterns opts)) eqn:Ex; [reflexivity|].
    unfold ret at 1. simpl andb.
    destruct (wellFormed_Dir pm names Hwf) as [Hdist Hall].
    assert (Hgen : forall names' pre s',
              names = pre ++ names' -> disk s' = disk s -> wd s' = wd s ->
              walkNames (fun filename child => walk filename child (zipWalkFn opts out))
                path names' s' =
              (fold_left (zipAdd opts out)
                 (archivedEach
                    (fun filename child => archived (ExcludePatterns opts) filename child)
                    path names') s', Ok tt)).
    { induction names' as [|[name child] rest IHr]; intros pre s' Hpre Hd Hw.
      - reflexivity.
      - assert (Hin : In (name, child) names).
        { rewrite Hpre. apply in_or_app. right. left. reflexivity. }
        pose proof (proj1 (Forall_forall _ _) IH _ Hin) as IHc. simpl in IHc.
        pose proof (proj1 (Forall_forall _ _) Hall _ Hin) as [Hname Hwfc].
        simpl in Hname, Hwfc.
        assert (Hchild : os.lookup (disk s') (elems ++ [name]) = Some child).
        { rewrite Hd. rewrite (lookup_app _ elems [name] _ Hl). simpl.
          rewrite Hpre. rewrite Hpre in Hdist.
          rewrite (getEntry_distinct name child pre rest Hdist). reflexivity. }
        assert (Hnj : os.namei (wd s') (filepath.Join [path; name]) = Some (elems ++ [name])).
        { rewrite Hw. apply namei_Join; assumption. }
        simpl walkNames. rewrite (IHc _ _ s' Hwfc Hnj Hchild).
        set (s'' := fold_left (zipAdd opts out)
                      (archived (ExcludePatterns opts) (filepath.Join [path; name]) child) s').
        destruct (zipAdd_fold_frame opts out
                    (archived (ExcludePatterns opts) (filepath.Join [path; name]) child) s')
          as (Hd' & Hw' & _). fold s'' in Hd', Hw'.
        assert (Hrest :
                  walkNames (fun filename child0 => walk filename child0 (zipWalkFn opts out))
                    path rest s'' =
                  (fold_left (zipAdd opts out)
                     (archivedEach
                        (fun filename child0 =>
                           archived (ExcludePatterns opts) filename child0) path rest) s'',
                   Ok tt)).
        { apply (IHr (pre ++ [(name, child)])).
          - rewrite <- app_assoc. exact Hpre.
          - congruence.
          - congruence. }
        simpl archivedEach. rewrite fold_left_app. fold s''.
        unfold walkResult.
        destruct (matchesAny (filepath.Join [path; name]) (ExcludePatterns opts)
                  && os.isDir child) eqn:Eskip.
        + apply Bool.andb_true_iff in Eskip. destruct Eskip as [_ Hk]. rewrite Hk.
          simpl. exact Hrest.
        + exact Hrest. }
    exact (Hgen names [] s eq_refl eq_refl eq_refl).
Qed.

Lemma filepath_Walk_archived (opts : ZipOptions) (out : io.Writer) (path : string)
    (elems : list string) (n : os.node) (s : World) :
  os.wellFormed n = true ->
  os.namei (wd s) path = Some elems ->
  os.lookup (disk s) elems = Some n ->
  filepath_Walk path (zipWalkFn opts out) s =
  (fold_left (zipAdd opts out) (archived (ExcludePatterns opts) path n) s, Ok tt).
Proof.
  intros Hwf Hn Hl. unfold filepath_Walk.
  rewrite (os_Stat_found path s elems n Hn Hl), Hn, Hl.
  rewrite (walk_archived opts out n path elems s Hwf Hn Hl).
  unfold walkResult.
  destruct (matchesAny path (ExcludePatterns opts) && os.isDir n); reflexivity.
Qed.

(** The files [addToZip] is to take from a source path that names [n]. *)
Definition sourceFiles (opts : ZipOptions) (path : string) (n : os.node)
    : list (string * os.node) :=
  if os.isDir n then
    if Recursive opts then archived (ExcludePatterns opts) path n else []
  else if matchesAny path (ExcludePatterns opts) then [] else [(path, n)].


(** None of the files taken is at the place of the archive that is being
    written.  The program sends the container to the archive file while it
    reads the files, so a run that takes the archive itself reads what it
    has written so far; the model, in which the container reaches the
    file at [Close], is exact on the runs that keep off the archive. *)
Definition offArchive (w : string) (zelems : list string) (l : list (string * os.node))
    : Prop :=
  Forall (fun e => os.namei w (fst e) <> Some zelems) l.


(** ** Relations the walk keeps *)

Section PreservesWalk.

Variable R : World -> World -> Prop.
Hypothesis R_refl : forall s, R s s.
Hypothesis R_trans : forall s1 s2 s3, R s1 s2 -> R s2 s3 -> R s1 s3.

Lemma preserves_walkNames (rec : string -> os.node -> M unit) (path : string)
    (names : list (string * os.node)) :
  Forall (fun e => forall p, preserves R (rec p (snd e))) names ->
  preserves R (walkNames rec path names).
Proof.
  induction names as [|[name child] rest IH]; intros Hall s.
  - apply R_refl.
  - inversion Hall as [|? ? Hc Hrest]; subst. simpl in Hc.
    simpl walkNames. specialize (Hc (filepath.Join [path; name]) s).
    destruct (rec (filepath.Join [path; name]) child s) as [s1 [[]|e]]; simpl in Hc.
    + eapply R_trans; [exact Hc | apply (IH Hrest)].
    + destruct (negb (os.isDir child) || negb (isSkipDir e)); [exact Hc|].
      eapply R_trans; [exact Hc | apply (IH Hrest)].
Qed.

Lemma preserves_walk (fn : WalkFunc) (n : os.node) :
  (forall p fi e, preserves R (fn p fi e)) ->
  forall path, preserves R (walk path n fn).
Proof.
  intros Hfn. induction n as [pm t d|pm names IH] using node_ind'; intros path.
  - simpl. apply Hfn.
  - simpl. apply (@preserves_bind R R_trans); [apply Hfn|].
    intros _. apply preserves_walkNames. exact IH.
Qed.

Lemma preserves_filepath_Walk (fn : WalkFunc) (path : string) :
  (forall p fi e, preserves R (fn p fi e)) ->
  preserves R (filepath_Walk path fn).
Proof.
  intros Hfn s. unfold filepath_Walk.
  pose proof (os_Stat_state path s) as Hst.
  destruct (os_Stat path s) as [s1 [info|e]]; simpl in Hst; subst s1.
  - destruct (os.namei (wd s) path) as [elems|]; [|apply R_refl].
    destruct (os.lookup (disk s) elems) as [n|]; [|apply R_refl].
    pose proof (preserves_walk fn n Hfn path s) as Hw.
    destruct (walk path n fn s) as [s1 [[]|[| |msg]]]; exact Hw.
  - pose proof (Hfn path os.nilFileInfo (Some e) s) as Hw.
    destruct (fn path os.nilFileInfo (Some e) s) as [s1 [[]|[| |msg]]]; exact Hw.
Qed.

End PreservesWalk.

(** ** Compression *)

Definition methodOK (opts : ZipOptions) (e : zip.FileHeader * list Byte.byte) : Prop :=
  zip.Method (fst e) = methodFor opts.

(** The level of the compressor stays and the entries keep the method. *)
Definition keepsMethods (opts : ZipOptions) (s s' : World) : Prop :=
  zip.level (zw s') = zip.level (zw s) /\
  (Forall (methodOK opts) (zip.entries (zw s)) ->
   Forall (methodOK opts) (zip.entries (zw s'))).

Lemma keepsMethods_refl (opts : ZipOptions) (s : World) : keepsMethods opts s s.
Proof. split; auto. Qed.

Lemma keepsMethods_trans (opts : ZipOptions) (s1 s2 s3 : World) :
  keepsMethods opts s1 s2 -> keepsMethods opts s2 s3 -> keepsMethods opts s1 s3.
Proof. intros [H1 H2] [H3 H4]. split; [congruence | auto]. Qed.

Lemma appendToLast_methods (opts : ZipOptions)
    (es : list (zip.FileHeader * list Byte.byte)) (data : list Byte.byte) :
  Forall (methodOK opts) es -> Forall (methodOK opts) (appendToLast es data).
Proof.
  intros H. unfold appendToLast.
  destruct (rev es) as [|[h d] before] eqn:E; [constructor|].
  assert (Hrev : Forall (methodOK opts) (rev es)) by (apply Forall_rev; exact H).
  rewrite E in Hrev. inversion Hrev as [|? ? Hh Hb]; subst.
  apply Forall_app. split; [apply Forall_rev; exact Hb|].
  constructor; [exact Hh | constructor].
Qed.

Lemma writeFileToZip_keepsMethods (opts : ZipOptions) (path : string)
    (info : os.FileInfo) (out : io.Writer) :
  preserves (keepsMethods opts) (writeFileToZip path info opts out).
Proof.
  pose proof (keepsMethods_refl opts) as Hr.
  pose proof (keepsMethods_trans opts) as Ht.
  unfold writeFileToZip.
  apply (@preserves_bind _ Ht); [apply (@preserves_pure _ Hr)|]. intros header.
  apply (@preserves_bind _ Ht).
  { intros s. split; [reflexivity|]. simpl. intros H. apply Forall_app. split; [exact H|].
    constructor; [|constructor]. unfold methodOK, methodFor. simpl.
    destruct (CompressionLevel opts =? 0)%Z; reflexivity. }
  intros fw. apply (@preserves_bind _ Ht); [apply (@preserves_os_Open _ Hr)|].
  intros f. apply (@preserves_bind _ Ht); [apply (@preserves_os_reader _ Hr)|].
  intros src. apply (@preserves_bind _ Ht).
  { unfold io_Copy. apply (@preserves_bind _ Ht).
    - destruct fw.
      + intros s. unfold os_Write, os_update.
        destruct (os.update _ _ _ _); simpl; [apply Hr | split; auto].
      + intros s. split; [reflexivity|]. simpl. apply appendToLast_methods.
    - intros _. destruct (snd src); [apply (@preserves_fail _ Hr) | apply (@preserves_ret _ Hr)]. }
  intros _. intros s. destruct out; simpl; [apply Hr | split; auto].
Qed.

Lemma addToZip_keepsMethods (opts : ZipOptions) (path : string) (out : io.Writer) :
  preserves (keepsMethods opts) (addToZip path opts out).
Proof.
  pose proof (keepsMethods_refl opts) as Hr.
  pose proof (keepsMethods_trans opts) as Ht.
  unfold addToZip.
  apply (@preserves_bind _ Ht); [apply (@preserves_os_Stat _ Hr)|]. intros info.
  apply (@preserves_if _).
  - apply (@preserves_if _).
    + intros s. destruct out; simpl; [apply Hr | split; auto].
    + apply (@preserves_filepath_Walk _ Hr Ht). intros p fi e.
      destruct e; [apply (@preserves_fail _ Hr)|].
      repeat apply (@preserves_if _);
        try apply (@preserves_fail _ Hr); try apply (@preserves_ret _ Hr).
      apply writeFileToZip_keepsMethods.
  - apply (@preserves_if _); [apply (@preserves_ret _ Hr)|].
    apply writeFileToZip_keepsMethods.
Qed.

(** C5. Once [Zip] has created the archive, whatever happens later, the
    compressor registered for deflate has the level [CompressionLevel]
    when that is in -1..9 and the default level -1 otherwise, and every
    entry written has the method "stored" when [CompressionLevel] is 0 and
    the method "deflate" for every other level. *)
Theorem Zip_compression (codec : zip.Codec) (zipPath : string) (files : list string)
    (opts : ZipOptions) (s s0 : World) (f : os.File_) :
  os_Create zipPath s = (s0, Ok f) ->
  let s' := fst (Zip codec zipPath files opts s) in
  let level := CompressionLevel opts in
  zip.level (zw s') =
    (if ((-1 <=? level) && (level <=? 9))%Z then level else zip.DefaultCompression) /\
  Forall (fun e => zip.Method (fst e) =
                   if (level =? 0)%Z then zip.Store else zip.Deflate)
    (zip.entries (zw s')).
Proof.
  intros Hc s' level. subst s'. unfold Zip.
  erewrite bind_run by exact Hc.
  unfold defer.
  set (body := bind (zip_NewWriter f) _ _).
  assert (Hbody : zip.level (zw (fst (body s0))) = levelFor opts /\
                  Forall (methodOK opts) (zip.entries (zw (fst (body s0))))).
  { subst body. unfold bind at 1. unfold zip_NewWriter at 1.
    unfold bind at 1. unfold zip_RegisterCompressor at 1.
    match goal with
    | |- context [forRange files ?b ?w] =>
        pose proof (@preserves_forRange (keepsMethods opts) (keepsMethods_refl opts)
                      (keepsMethods_trans opts) _ files b
                      (fun x => addToZip_keepsMethods opts x _) w) as [Hl Hm]
    end.
    split.
    - rewrite Hl. reflexivity.
    - apply Hm. constructor. }
  destruct (body s0) as [s1 r1]. simpl in Hbody. destruct Hbody as [Hl Hm].
  simpl fst. unfold zip_Close, os_Write, os_update.
  destruct (os.update _ _ _ _); simpl; split.
  - rewrite Hl. unfold levelFor. fold level.
    destruct (Z.ltb_spec level (-1)), (Z.gtb_spec level 9), (Z.leb_spec (-1) level),
      (Z.leb_spec level 9); simpl; try reflexivity; lia.
  - exact Hm.
  - rewrite Hl. unfold levelFor. fold level.
    destruct (Z.ltb_spec level (-1)), (Z.gtb_spec level 9), (Z.leb_spec (-1) level),
      (Z.leb_spec level 9); simpl; try reflexivity; lia.
  - exact Hm.
Qed.

(** ** The theorems at work *)

Lemma addToZip_skips_directory_witness :
  let opts := Examples.zipOpts false (-1) [] in
  let s' := fst (addToZip "sub" opts io.Sink Examples.srcWorld) in
  snd (addToZip "sub" opts io.Sink Examples.srcWorld) = Ok tt /\
  zw s' = zw Examples.srcWorld /\ disk s' = disk Examples.srcWorld /\
  sink s' = ("  adding: sub/ (skipped, not recursive)" ++ String "010" "")%string /\
  forRange ["sub"; "hello.txt"]%string (fun name => addToZip name opts io.Sink)
    Examples.srcWorld =
  forRange ["hello.txt"]%string (fun name => addToZip name opts io.Sink) s'.
Proof.
  apply (addToZip_skips_directory "sub" ["hello.txt"%string]
           (Examples.zipOpts false (-1) []) io.Sink Examples.srcWorld
           ["src"; "sub"]%string 493%Z
           [("nested.txt"%string,
             os.File 420%Z 100%Z (Examples.bytes "nested content"))]);
    reflexivity.
Defined.


Lemma Zip_compression_witness :
  let s' := fst (Zip refcodec.codec "/tmp/t.zip" ["hello.txt"%string]
                   (Examples.zipOpts false 0 []) Examples.srcWorld) in
  zip.level (zw s') = 0%Z /\
  Forall (fun e => zip.Method (fst e) = zip.Store) (zip.entries (zw s')).
Proof.
  exact (Zip_compression refcodec.codec "/tmp/t.zip" ["hello.txt"%string]
           (Examples.zipOpts false 0 []) Examples.srcWorld
           (fst (os_Create "/tmp/t.zip" Examples.srcWorld)) ["tmp"; "t.zip"]%string
           eq_refl).
Defined.

Lemma extractFile_modes_witness :
  let s := Examples.nestedWorld in
  let s' := fst (extractFile Examples.nestedEntry "/tmp/out/a/b/f.txt" true io.Discard s) in
  (forall q r, ["tmp"; "out"; "a"; "b"]%string = q ++ r -> os.lookup (disk s) q = None ->
     exists es, os.lookup (disk s') q = Some (os.Dir 493%Z es)) /\
  (os.lookup (disk s) ["tmp"; "out"; "a"; "b"; "f.txt"]%string = None ->
     exists mtime data,
       os.lookup (disk s') ["tmp"; "out"; "a"; "b"; "f.txt"]%string =
       Some (os.File 384%Z mtime data) /\
       zip.Open Examples.nestedEntry = Ok (data, None)).
Proof.
  exact (extractFile_modes Examples.nestedEntry "/tmp/out/a/b/f.txt" true io.Discard
           Examples.nestedWorld
           (fst (extractFile Examples.nestedEntry "/tmp/out/a/b/f.txt" true io.Discard
                   Examples.nestedWorld))
           ["tmp"; "out"; "a"; "b"]%string ["tmp"; "out"; "a"; "b"; "f.txt"]%string
           eq_refl eq_refl eq_refl).
Defined.

Lemma Unzip_collision_witness :
  let s1 := fst (Unzip refcodec.codec "/n.zip" (Examples.unzipOpts false)
                   Examples.nestedWorld) in
  (exists s2, Unzip refcodec.codec "/n.zip" (Examples.unzipOpts false) s1 =
              (s2, Err (fileExists "/tmp/out/a/b/f.txt"))) /\
  let t1 := fst (Unzip refcodec.codec "/n.zip" (Examples.unzipOpts true)
                   Examples.nestedWorld) in
  (exists t2, Unzip refcodec.codec "/n.zip" (Examples.unzipOpts true) t1 = (t2, Ok tt)).
Proof.
  split.
  - destruct (Unzip_collision refcodec.codec "/n.zip" (Examples.unzipOpts false)
                Examples.nestedWorld [Examples.nestedEntry] eq_refl) as (_ & _ & H).
    destruct (H _ eq_refl eq_refl) as [_ H2].
    apply (H2 eq_refl [] Examples.nestedEntry [] eq_refl (Forall_nil _)).
    + left. reflexivity.
    + reflexivity.
  - destruct (Unzip_collision refcodec.codec "/n.zip" (Examples.unzipOpts true)
                Examples.nestedWorld [Examples.nestedEntry] eq_refl) as (_ & _ & H).
    destruct (H _ eq_refl eq_refl) as [H1 _].
    apply (H1 eq_refl).
    constructor; [intros _; reflexivity | constructor].
Defined.

(** An archive of directory entries is extracted twice without
    [Overwrite] and without an error; and where a directory is in the
    place of a file entry the extraction fails with [Overwrite] as it does
    without. *)
Lemma Unzip_twice_no_collision :
  (let r1 := Unzip refcodec.codec "/d.zip" (Examples.unzipOpts false) Examples.dirWorld in
   let r2 := Unzip refcodec.codec "/d.zip" (Examples.unzipOpts false) (fst r1) in
   snd r1 = Ok tt /\ snd r2 = Ok tt) /\
  snd (Unzip refcodec.codec "/n.zip" (Examples.unzipOpts false) Examples.blockedWorld)
    = Err (fileExists "/tmp/out/a/b/f.txt") /\
  snd (Unzip refcodec.codec "/n.zip" (Examples.unzipOpts true) Examples.blockedWorld)
    = Err (errorString
             "create /tmp/out/a/b/f.txt: open /tmp/out/a/b/f.txt: is a directory").
Proof. vm_compute. repeat split; reflexivity. Qed.

(** ** Well-formed trees stay well-formed *)

Lemma wellFormed_Dir_eq (perm : os.FileMode) (es : list (string * os.node)) :
  os.wellFormed (os.Dir perm es) =
  forallb os.plainNameb (map fst es) && os.distinct (map fst es)
  && forallb (fun e => os.wellFormed (snd e)) es.
Proof.
  simpl. f_equal. induction es as [|[k c] es IH]; simpl; [reflexivity|].
  rewrite IH. reflexivity.
Qed.

Lemma getEntry_None (name : string) (es : list (string * os.node)) :
  os.getEntry name es = None <-> existsb (String.eqb name) (map fst es) = false.
Proof.
  induction es as [|[k x] es IH]; simpl; [tauto|].
  rewrite (String.eqb_sym name k).
  destruct (k =? name)%string; simpl; [split; discriminate | exact IH].
Qed.

Lemma getEntry_In (name : string) (x : os.node) (es : list (string * os.node)) :
  os.getEntry name es = Some x -> In (name, x) es.
Proof.
  induction es as [|[k y] es IH]; simpl; [discriminate|].
  destruct (String.eqb_spec k name) as [->|Hne].
  - intros H. injection H as ->. left. reflexivity.
  - intros H. right. exact (IH H).
Qed.

Lemma replaceEntry_keys (name : string) (v : os.node) (es : list (string * os.node)) :
  map fst (os.replaceEntry name v es) = map fst es.
Proof.
  induction es as [|[k x] es IH]; simpl; [reflexivity|].
  destruct (String.eqb_spec k name) as [->|Hne]; simpl; [reflexivity|].
  rewrite IH. reflexivity.
Qed.

Lemma replaceEntry_forallb (P : string * os.node -> bool) (name : string) (v : os.node)
    (es : list (string * os.node)) :
  forallb P es = true -> P (name, v) = true ->
  forallb P (os.replaceEntry name v es) = true.
Proof.
  intros Hall Hv. induction es as [|[k x] es IH]; simpl in *; [reflexivity|].
  apply Bool.andb_true_iff in Hall. destruct Hall as [Hk Hrest].
  destruct (k =? name)%string; simpl.
  - rewrite Hv, Hrest. reflexivity.
  - rewrite Hk, (IH Hrest). reflexivity.
Qed.

Lemma insertEntry_forallb (P : string * os.node -> bool) (name : string) (v : os.node)
    (es : list (string * os.node)) :
  forallb P es = true -> P (name, v) = true ->
  forallb P (os.insertEntry name v es) = true.
Proof.
  intros Hall Hv. induction es as [|[k x] es IH]; simpl in *.
  - rewrite Hv. reflexivity.
  - apply Bool.andb_true_iff in Hall. destruct Hall as [Hk Hrest].
    destruct (String.ltb name k); simpl.
    + rewrite Hv, Hk, Hrest. reflexivity.
    + rewrite Hk, (IH Hrest). reflexivity.
Qed.

Lemma insertEntry_exists (k name : string) (v : os.node) (es : list (string * os.node)) :
  existsb (String.eqb k) (map fst (os.insertEntry name v es)) =
  (k =? name)%string || existsb (String.eqb k) (map fst es).
Proof.
  induction es as [|[k' x] es IH]; simpl; [reflexivity|].
  destruct (String.ltb name k'); simpl; [reflexivity|].
  rewrite IH. destruct (k =? k')%string, (k =? name)%string; reflexivity.
Qed.

Lemma insertEntry_distinct (name : string) (v : os.node) (es : list (string * os.node)) :
  os.getEntry name es = None ->
  os.distinct (map fst es) = true ->
  os.distinct (map fst (os.insertEntry name v es)) = true.
Proof.
  induction es as [|[k x] es IH]; simpl; [reflexivity|].
  destruct (String.eqb_spec k name) as [->|Hne]; [discriminate|].
  intros Hnone Hd. apply Bool.andb_true_iff in Hd. destruct Hd as [Hk Hd].
  destruct (String.ltb name k); simpl.
  - apply getEntry_None in Hnone.
    assert (Hnk : (name =? k)%string = false) by (apply String.eqb_neq; congruence).
    rewrite Hnk, Hnone, Hk, Hd. reflexivity.
  - rewrite insertEntry_exists.
    assert (Hkn : (k =? name)%string = false) by (apply String.eqb_neq; congruence).
    rewrite Hkn. simpl. rewrite Hk, (IH Hnone Hd). reflexivity.
Qed.

Lemma forallb_map_fst (P : string -> bool) (es : list (string * os.node)) :
  forallb P (map fst es) = forallb (fun e => P (fst e)) es.
Proof. induction es as [|e es IH]; simpl; [reflexivity|]. rewrite IH. reflexivity. Qed.

Lemma setEntry_wellFormed (perm : os.FileMode) (name : string) (v : os.node)
    (es : list (string * os.node)) :
  os.wellFormed (os.Dir perm es) = true ->
  plainName name -> os.wellFormed v = true ->
  os.wellFormed (os.Dir perm (os.setEntry name v es)) = true.
Proof.
  rewrite !wellFormed_Dir_eq, !Bool.andb_true_iff.
  intros ((Hp & Hd) & Hall) Hname Hv.
  assert (Hnb : os.plainNameb name = true).
  { destruct Hname as (H1 & H2 & H3 & H4). unfold os.plainNameb.
    unfold slashFree in H1. rewrite H1. apply String.eqb_neq in H2, H3, H4.
    rewrite H2, H3, H4. reflexivity. }
  rewrite !forallb_map_fst in *.
  unfold os.setEntry. destruct (os.getEntry name es) eqn:E.
  - rewrite replaceEntry_keys. repeat split; auto.
    + apply replaceEntry_forallb; assumption.
    + apply replaceEntry_forallb; assumption.
  - repeat split.
    + apply insertEntry_forallb; assumption.
    + apply insertEntry_distinct; assumption.
    + apply insertEntry_forallb; assumption.
Qed.

Lemma wellFormed_child (perm : os.FileMode) (es : list (string * os.node))
    (name : string) (child : os.node) :
  os.wellFormed (os.Dir perm es) = true ->
  os.getEntry name es = Some child -> os.wellFormed child = true.
Proof.
  rewrite wellFormed_Dir_eq, !Bool.andb_true_iff. intros (_ & Hall) Hg.
  apply getEntry_In in Hg.
  exact (proj1 (forallb_forall _ _) Hall _ Hg).
Qed.

Lemma lookup_wellFormed (n : os.node) (p : list string) (x : os.node) :
  os.wellFormed n = true -> os.lookup n p = Some x -> os.wellFormed x = true.
Proof.
  revert n. induction p as [|e p IH]; intros n Hwf Hl; simpl in Hl.
  - injection Hl as <-. exact Hwf.
  - destruct n as [|pm es]; [discriminate|].
    destruct (os.getEntry e es) as [child|] eqn:E; [|discriminate].
    apply (IH child); [|exact Hl]. exact (wellFormed_child pm es e child Hwf E).
Qed.

(** A leaf action makes well-formed nodes of well-formed nodes. *)
Definition wfLeaf (leaf : option os.node -> string + os.node) : Prop :=
  forall old y, leaf old = inr y ->
    match old with
    | Some x => os.wellFormed x = true
    | None => True
    end -> os.wellFormed y = true.

Lemma update_wellFormed (mk : option os.FileMode)
    (leaf : option os.node -> string + os.node) (p : list string) :
  wfLeaf leaf -> Forall plainName p ->
  forall n n', os.wellFormed n = true -> os.update mk leaf n p = inr n' ->
               os.wellFormed n' = true.
Proof.
  intros Hleaf. induction p as [|e p IH]; intros Hp n n' Hwf Hup.
  - simpl in Hup. exact (Hleaf (Some n) n' Hup Hwf).
  - inversion Hp as [|? ? He Hp']; subst.
    destruct n as [pm t d|pm es]; [discriminate|].
    destruct (update_Dir_inv mk leaf pm es e p n' Hup) as (v & -> & Hv).
    apply setEntry_wellFormed; [exact Hwf | exact He |].
    destruct (os.getEntry e es) as [child|] eqn:E.
    + apply (IH Hp' child v); [|exact Hv]. exact (wellFormed_child pm es e child Hwf E).
    + destruct p as [|e' p'].
      * exact (Hleaf None v Hv I).
      * destruct Hv as (pm' & _ & Hv). apply (IH Hp' (os.Dir pm' []) v); [reflexivity|exact Hv].
Qed.

Lemma wfLeaf_trunc (perm : os.FileMode) (now : Z) : wfLeaf (os.truncLeaf perm now).
Proof.
  intros [[pm t d|pm es]|] y H _; simpl in H; inversion H; reflexivity.
Qed.

Lemma namei_plain (w path : string) (elems : list string) :
  os.namei w path = Some elems -> Forall plainName elems.
Proof.
  unfold os.namei. destruct (path =? "")%string; [discriminate|].
  intros H. injection H as <-. apply Forall_rev. unfold os.nameiRev.
  apply nameiStep_plain; [apply SplitSlash_slashFree|].
  destruct (filepath.IsAbs path); [constructor|].
  apply nameiStep_plain; [apply SplitSlash_slashFree | constructor].
Qed.

(** ** What [Zip] writes *)

(** Every file the walk is to take is a regular file of the tree, found at
    its path. *)
Lemma archived_lookup (excl : list string) (w : string) (d : os.node) (n : os.node) :
  forall (path : string) (elems : list string),
    os.wellFormed n = true ->
    os.namei w path = Some elems ->
    os.lookup d elems = Some n ->
    Forall (fun e => exists el, os.namei w (fst e) = Some el /\
                                os.lookup d el = Some (snd e) /\
                                os.isDir (snd e) = false)
      (archived excl path n).
Proof.
  induction n as [pm t dt|pm names IH] using node_ind'; intros path elems Hwf Hn Hl.
  - simpl. destruct (matchesAny path excl); [constructor|].
    constructor; [|constructor]. exists elems. auto.
  - simpl. destruct (matchesAny path excl); [constructor|].
    destruct (wellFormed_Dir pm names Hwf) as [Hdist Hall].
    assert (Hgen : forall names' pre, names = pre ++ names' ->
              Forall (fun e => exists el, os.namei w (fst e) = Some el /\
                                          os.lookup d el = Some (snd e) /\
                                          os.isDir (snd e) = false)
                (archivedEach (fun filename child => archived excl filename child)
                   path names')).
    { induction names' as [|[name child] rest IHr]; intros pre Hpre; simpl; [constructor|].
      assert (Hin : In (name, child) names).
      { rewrite Hpre. apply in_or_app. right. left. reflexivity. }
      pose proof (proj1 (Forall_forall _ _) IH _ Hin) as IHc. simpl in IHc.
      pose proof (proj1 (Forall_forall _ _) Hall _ Hin) as [Hname Hwfc].
      simpl in Hname, Hwfc.
      apply Forall_app. split.
      - apply (IHc _ (elems ++ [name])); [exact Hwfc | apply namei_Join; assumption |].
        rewrite (lookup_app _ elems [name] _ Hl). simpl.
        rewrite Hpre. rewrite Hpre in Hdist.
        rewrite (getEntry_distinct name child pre rest Hdist). reflexivity.
      - apply (IHr (pre ++ [(name, child)])). rewrite <- app_assoc. exact Hpre. }
    exact (Hgen names [] eq_refl).
Qed.

(** The files [Zip] is to take from its source paths, in a tree [d] seen
    from the working directory [w]. *)
Definition allSources (opts : ZipOptions) (w : string) (d : os.node)
    (files : list string) : list (string * os.node) :=
  flat_map (fun path =>
              match os.namei w path with
              | Some elems =>
                  match os.lookup d elems with
                  | Some n => sourceFiles opts path n
                  | None => []
                  end
              | None => []
              end) files.

Definition entriesOf (opts : ZipOptions) (l : list (string * os.node))
    : list (zip.FileHeader * list Byte.byte) :=
  map (fun e => entryOf opts (fst e) (snd e)) l.

(** The loop of [Zip] only adds entries. *)
Definition zipFrame (s s' : World) (added : list (zip.FileHeader * list Byte.byte)) : Prop :=
  disk s' = disk s /\ wd s' = wd s /\ clock s' = clock s /\
  zip.dest (zw s') = zip.dest (zw s) /\ zip.level (zw s') = zip.level (zw s) /\
  zip.entries (zw s') = zip.entries (zw s) ++ added.

Lemma os_Stat_Ok (path : string) (s s' : World) (info : os.FileInfo) :
  os_Stat path s = (s', Ok info) ->
  s' = s /\ exists elems n, os.namei (wd s) path = Some elems /\
                            os.lookup (disk s) elems = Some n /\
                            info = os.infoOf path n.
Proof.
  unfold os_Stat, bind, resolve.
  destruct (os.namei (wd s) path) as [elems|]; [|discriminate].
  destruct (os.lookup (disk s) elems) as [n|] eqn:E; [|discriminate].
  intros H. injection H as <- <-. split; [reflexivity|]. eauto.
Qed.

Lemma infoOf_IsDir (path : string) (n : os.node) :
  os.IsDir (os.infoOf path n) = os.isDir n.
Proof. destruct n; reflexivity. Qed.

Lemma addToZip_Ok (path : string) (opts : ZipOptions) (out : io.Writer) (s s' : World) :
  os.wellFormed (disk s) = true ->
  addToZip path opts out s = (s', Ok tt) ->
  exists elems n,
    os.namei (wd s) path = Some elems /\ os.lookup (disk s) elems = Some n /\
    zipFrame s s' (entriesOf opts (sourceFiles opts path n)).
Proof.
  intros Hwf H. unfold addToZip in H.
  apply bind_Ok in H. destruct H as (s0 & info & Hst & H).
  apply os_Stat_Ok in Hst. destruct Hst as (-> & elems & n & Hn & Hl & ->).
  exists elems, n. split; [exact Hn|]. split; [exact Hl|].
  rewrite infoOf_IsDir in H. unfold sourceFiles.
  destruct (os.isDir n) eqn:Hk.
  - destruct (Recursive opts); simpl in H.
    + change (fun (p : string) (fi : os.FileInfo) (err : option error) => _)
        with (zipWalkFn opts out) in H.
      rewrite (filepath_Walk_archived opts out path elems n s
                 (lookup_wellFormed _ _ _ Hwf Hl) Hn Hl) in H.
      injection H as <-. apply zipAdd_fold_frame.
    + destruct out; simpl in H; injection H as <-; unfold zipFrame; simpl;
        rewrite app_nil_r; repeat split; reflexivity.
  - destruct (matchesAny path (ExcludePatterns opts)).
    + unfold ret in H. injection H as <-. unfold zipFrame. simpl.
      rewrite app_nil_r. repeat split; reflexivity.
    + rewrite (writeFileToZip_run path opts out s elems n Hn Hl Hk) in H.
      injection H as <-. apply (zipAdd_frame opts out s (path, n)).
Qed.

Lemma zipRange_Ok (opts : ZipOptions) (out : io.Writer) (files : list string) :
  forall s s',
    os.wellFormed (disk s) = true ->
    forRange files (fun name => addToZip name opts out) s = (s', Ok tt) ->
    zipFrame s s' (entriesOf opts (allSources opts (wd s) (disk s) files)).
Proof.
  induction files as [|path files IH]; intros s s' Hwf H.
  - simpl in H. unfold ret in H. injection H as <-. unfold zipFrame. simpl.
    rewrite app_nil_r. repeat split; reflexivity.
  - simpl in H. apply bind_Ok in H. destruct H as (s1 & [] & Hadd & Hrest).
    destruct (addToZip_Ok path opts out s s1 Hwf Hadd)
      as (elems & n & Hn & Hl & (F1 & F2 & F3 & F4 & F5 & F6)).
    assert (Hwf1 : os.wellFormed (disk s1) = true) by (rewrite F1; exact Hwf).
    destruct (IH s1 s' Hwf1 Hrest) as (G1 & G2 & G3 & G4 & G5 & G6).
    unfold zipFrame. repeat split; try congruence.
    rewrite G6, F6, F1, F2. simpl allSources. rewrite Hn, Hl.
    unfold entriesOf. rewrite map_app, app_assoc. reflexivity.
Qed.

Lemma Zip_Ok (codec : zip.Codec) (zipPath : string) (files : list string)
    (opts : ZipOptions) (s0 s1 : World) :
  os.wellFormed (disk s0) = true ->
  Zip codec zipPath files opts s0 = (s1, Ok tt) ->
  exists zelems dc,
    os.namei (wd s0) zipPath = Some zelems /\
    os.update None (os.truncLeaf (os.Perm 438%Z) (clock s0)) (disk s0) zelems = inr dc /\
    os.wellFormed dc = true /\
    wd s1 = wd s0 /\
    zip.entries (zw s1) = entriesOf opts (allSources opts (wd s0) dc files) /\
    exists perm mtime,
      os.lookup (disk s1) zelems =
      Some (os.File perm mtime
              (zip.encode codec (zip.level (zw s1)) (zip.entries (zw s1)))).
Proof.
  intros Hwf H. unfold Zip in H.
  apply bind_Ok in H. destruct H as (sc & f & Hc & H).
  unfold os_Create in Hc. apply os_OpenFile_Ok in Hc. destruct Hc as (dc & Hn & Hu & ->).
  assert (Hwfc : os.wellFormed dc = true).
  { apply (update_wellFormed _ _ f (wfLeaf_trunc _ _) (namei_plain _ _ _ Hn) _ _ Hwf Hu). }
  unfold defer in H.
  match type of H with
  | (let (s', r) := ?body ?st in _) = _ => destruct (body st) as [sl r] eqn:Hbody
  end.
  injection H as <- ->.
  apply bind_Ok in Hbody. destruct Hbody as (sn & [] & Hnew & Hbody).
  unfold zip_NewWriter in Hnew. injection Hnew as <-.
  apply bind_Ok in Hbody. destruct Hbody as (sr & [] & Hreg & Hloop).
  unfold zip_RegisterCompressor in Hreg. injection Hreg as <-.
  apply zipRange_Ok in Hloop; [|exact Hwfc].
  destruct Hloop as (F1 & F2 & F3 & F4 & F5 & F6). simpl in F1, F2, F3, F4, F5, F6.
  destruct (lookup_update_new _ _ _ _ _ Hu) as (y & Hy & Hleaf).
  assert (Hfile : exists pm, y = os.File pm (clock s0) []).
  { destruct (os.lookup (disk s0) f) as [[pm t d|pm es]|]; simpl in Hleaf;
      inversion Hleaf; eauto. }
  destruct Hfile as (pm & ->).
  exists f, dc. split; [exact Hn|]. split; [exact Hu|]. split; [exact Hwfc|].
  unfold zip_Close, os_Write, os_update. rewrite F1, F3, F4.
  destruct (update_succeeds None
              (os.writeLeaf (clock s0) (zip.encode codec (zip.level (zw sl)) (zip.entries (zw sl))))
              f dc _ (os.File pm (clock s0)
                        ([] ++ zip.encode codec (zip.level (zw sl)) (zip.entries (zw sl))))
              Hy eq_refl) as (n' & Hw).
  rewrite Hw. simpl.
  split; [exact F2|]. split; [exact F6|].
  destruct (lookup_update_new _ _ _ _ _ Hw) as (y' & Hy' & Hleaf').
  rewrite Hy in Hleaf'. simpl in Hleaf'. injection Hleaf' as <-.
  eauto.
Qed.

(** ** What [Unzip] leaves of the content of an entry *)





(** ** Paths that stay below the place they start from *)








Lemma Join_pair (dir name : string) :
  dir <> ""%string ->
  filepath.Join [dir; name] = filepath.Clean (dir ++ "/" ++ name).
Proof.
  intros Hne.
  change (filepath.Join [dir; name])
    with (if (dir =? "")%string then filepath.Join [name]
          else filepath.Clean (strings.JoinSlash [dir; name])).
  apply String.eqb_neq in Hne. rewrite Hne. reflexivity.
Qed.


(** *** The directory of a path *)

Lemma uptoLastSlash_slashFree (x : string) :
  slashFree x -> filepath.uptoLastSlash x = ""%string.
Proof.
  unfold slashFree. induction x as [|c r IH]; simpl; [reflexivity|].
  intros H. apply Bool.orb_false_iff in H. destruct H as [Hc Hr].
  rewrite Hc, (IH Hr). reflexivity.
Qed.

Lemma uptoLastSlash_app (a x : string) :
  slashFree x -> filepath.uptoLastSlash (a ++ "/" ++ x) = (a ++ "/")%string.
Proof.
  intros Hx. induction a as [|c a IH].
  - simpl. rewrite (uptoLastSlash_slashFree _ Hx). reflexivity.
  - simpl. simpl in IH. rewrite IH.
    destruct (Ascii.eqb c "/"); [reflexivity|].
    destruct a; reflexivity.
Qed.

(** The directory of a path that ends in a real name resolves to the
    place above the place of the path. *)
Lemma nameiRev_Dir (w c a x : string) :
  plainName x -> c = (a ++ "/" ++ x)%string \/ c = x ->
  os.nameiRev w (filepath.Dir c) = tl (os.nameiRev w c) /\
  filepath.Dir c <> ""%string.
Proof.
  intros Hx Hc. unfold filepath.Dir.
  destruct (nameiRev_Clean w (filepath.uptoLastSlash c)) as [H1 H2].
  split; [|exact H2]. rewrite H1. destruct Hc as [-> | ->].
  - rewrite (uptoLastSlash_app _ _ (proj1 Hx)).
    destruct a as [|c0 a0].
    + unfold os.nameiRev.
      change ("" ++ "/" ++ x)%string with (String "/" x).
      rewrite IsAbs_cons. simpl strings.SplitSlash.
      rewrite (SplitSlash_single _ (proj1 Hx)). cbn [fold_left].
      rewrite (nameiStep_plainName _ _ Hx). reflexivity.
    + assert (Hne : String c0 a0 <> ""%string) by discriminate.
      rewrite (nameiRev_append w _ x Hne).
      rewrite (SplitSlash_single _ (proj1 Hx)). cbn [fold_left].
      rewrite (nameiStep_plainName _ _ Hx). simpl tl.
      change (String c0 a0 ++ "/")%string with (String c0 a0 ++ "/" ++ "")%string.
      rewrite (nameiRev_append w _ "" Hne). reflexivity.
  - rewrite (uptoLastSlash_slashFree _ (proj1 Hx)).
    unfold os.nameiRev. rewrite (IsAbs_slashFree _ (proj1 Hx)).
    rewrite (SplitSlash_single _ (proj1 Hx)). cbn [fold_left].
    rewrite (nameiStep_plainName _ _ Hx). reflexivity.
Qed.

(** A cleaned path whose last element is a name ends in that name. *)
Lemma cleanString_last (rooted : bool) (dd : nat) (out : list string) (x : string) :
  x <> ""%string ->
  (exists a, filepath.cleanString rooted (dd, x :: out) = (a ++ "/" ++ x)%string) \/
  filepath.cleanString rooted (dd, x :: out) = x.
Proof.
  intros Hx. unfold filepath.cleanString, filepath.cleanElems. simpl fst. simpl snd.
  simpl rev. rewrite app_assoc. set (L := repeat ".."%string dd ++ rev out).
  destruct L as [|l L'] eqn:EL.
  - simpl app. simpl strings.JoinSlash. destruct rooted.
    + left. exists ""%string. reflexivity.
    + right. apply String.eqb_neq in Hx. rewrite Hx. reflexivity.
  - rewrite JoinSlash_app by discriminate. simpl (strings.JoinSlash [x]).
    left. destruct rooted.
    + exists ("/" ++ strings.JoinSlash (l :: L'))%string. reflexivity.
    + exists (strings.JoinSlash (l :: L')).
      destruct (strings.JoinSlash (l :: L')); reflexivity.
Qed.

Lemma cleanStep_rooted_any (elems : list string) (dd : nat) (st : list string) :
  fold_left (filepath.cleanStep true) elems (dd, st) =
  (dd, fold_left os.nameiStep elems st).
Proof.
  revert st. induction elems as [|e elems IH]; intros st; simpl; [reflexivity|].
  unfold os.nameiStep at 2.
  destruct ((e =? "") || (e =? "."))%string; [apply IH|].
  destruct (e =? "..")%string; [|apply IH].
  destruct st; simpl; apply IH.
Qed.



Lemma cleanStep_plain (rooted : bool) (elems : list string) (dd : nat) (out : list string) :
  Forall plainName out -> Forall slashFree elems ->
  Forall plainName (snd (fold_left (filepath.cleanStep rooted) elems (dd, out))).
Proof.
  intros Hout Hel. destruct rooted.
  - rewrite cleanStep_rooted_any. simpl. apply nameiStep_plain; assumption.
  - apply cleanStep_false_plain; assumption.
Qed.


(** ** Extraction into a place that is free *)



(** No regular file lies on the way to [p]. *)
Definition clearWay (d : os.node) (p : list string) : Prop :=
  forall q r pm t dt, p = q ++ r -> r <> [] -> os.lookup d q <> Some (os.File pm t dt).

Lemma clearWay_prefix (d : os.node) (p r : list string) :
  clearWay d (p ++ r) -> clearWay d p.
Proof.
  intros H q r' pm t dt Hp Hr. apply (H q (r' ++ r)).
  - rewrite Hp, app_assoc. reflexivity.
  - destruct r'; [congruence | discriminate].
Qed.

(** An update that makes the directories it misses succeeds when no
    regular file is in its way and its leaf action does. *)
Lemma update_mk_succeeds (pm0 : os.FileMode)
    (leaf : option os.node -> string + os.node) (p : list string) :
  forall (n y : os.node),
    clearWay n p -> leaf (os.lookup n p) = inr y ->
    exists n', os.update (Some pm0) leaf n p = inr n'.
Proof.
  induction p as [|e p IH]; intros n y Hc Hl.
  - simpl in *. eauto.
  - destruct n as [pm t d|pm es].
    + exfalso. apply (Hc [] (e :: p) pm t d eq_refl); [discriminate | reflexivity].
    + simpl. simpl in Hl. destruct (os.getEntry e es) as [child|] eqn:Eg.
      * destruct (IH child y) as (v & ->); [|exact Hl|eauto].
        intros q r pm' t' d' Hp Hr Hq.
        apply (Hc (e :: q) r pm' t' d'); [simpl; congruence | exact Hr |].
        simpl. rewrite Eg. exact Hq.
      * destruct p as [|e' p'].
        -- rewrite Hl. eauto.
        -- destruct (IH (os.Dir pm0 []) y) as (v & Hv); [|exact Hl|].
           ++ intros q r pm' t' d' Hp Hr Hq. destruct q; simpl in Hq; discriminate.
           ++ rewrite Hv. eauto.
Qed.

(** An update in a directory that is there succeeds when its leaf action
    does. *)
Lemma update_child_succeeds (mk : option os.FileMode)
    (leaf : option os.node -> string + os.node) (p : list string) (x : string) :
  forall (n : os.node) (pm : os.FileMode) (es : list (string * os.node)) (y : os.node),
    os.lookup n p = Some (os.Dir pm es) ->
    leaf (os.lookup n (p ++ [x])) = inr y ->
    exists n', os.update mk leaf n (p ++ [x]) = inr n'.
Proof.
  induction p as [|e p IH]; intros n pm es y Hp Hl.
  - simpl in Hp. injection Hp as ->. simpl in *.
    destruct (os.getEntry x es); rewrite Hl; eauto.
  - simpl in *. destruct n as [|pm' es']; [discriminate|].
    destruct (os.getEntry e es') as [child|]; [|discriminate].
    destruct (IH child pm es y Hp Hl) as (v & ->). eauto.
Qed.

Lemma childless_trunc (perm : os.FileMode) (now : Z) : childless (os.truncLeaf perm now).
Proof. intros y H. simpl in H. injection H as <-. exact I. Qed.

Lemma childless_write (now : Z) (data : list Byte.byte) : childless (os.writeLeaf now data).
Proof. intros y H. discriminate. Qed.

Lemma childless_chtimes (mtime : Z) : childless (os.chtimesLeaf mtime).
Proof. intros y H. discriminate. Qed.

Lemma app_longer {A : Type} (p r : list A) : r <> [] -> p <> p ++ r.
Proof.
  intros Hr H. apply (f_equal (@List.length A)) in H. rewrite length_app in H.
  destruct r; [congruence | simpl in H; lia].
Qed.


(** The file a successful [extractFile] leaves at the destination. *)
Lemma extractFile_file (f : zip.File) (destPath : string) (overwrite : bool)
    (out : io.Writer) (s s' : World) (elems : list string) (data : list Byte.byte) :
  extractFile f destPath overwrite out s = (s', Ok tt) ->
  os.namei (wd s) destPath = Some elems ->
  zip.Open f = Ok (data, None) ->
  wd s' = wd s /\
  exists pm, os.lookup (disk s') elems = Some (os.File pm (clock s) data).
Proof.
  intros H He Hopen. apply extractFile_Ok in H.
  destruct H as (delems & elems' & n1 & n2 & n3 & data' & _ & Hd & Hu1 & Hopen' & He'
                 & Hu2 & Hu3 & Hdisk & Hwd & _).
  rewrite Hopen in Hopen'. injection Hopen' as <-.
  rewrite He in He'. injection He' as <-.
  split; [exact Hwd|]. rewrite Hdisk.
  destruct (lookup_update_new _ _ _ _ _ Hu2) as (y2 & Hy2 & Hl2).
  assert (H2 : exists pm, y2 = os.File pm (clock s) []).
  { destruct (os.lookup n1 elems) as [[pm t d|pm es]|]; simpl in Hl2; inversion Hl2; eauto. }
  destruct H2 as (pm & ->).
  destruct (lookup_update_new _ _ _ _ _ Hu3) as (y3 & Hy3 & Hl3).
  rewrite Hy2 in Hl3. simpl in Hl3. injection Hl3 as <-.
  exists pm. exact Hy3.
Qed.



(** ** Extracting what was taken from a tree

    The entries are files of a tree [src], each named by a path that
    descends from the place [base] to the place of the file.  Extracted
    under a root at [oelems], they build there a copy of a part of what
    is below [base]: kind for kind, and the files with their content. *)

Lemma outputDirOf_nonempty (opts : UnzipOptions) : outputDirOf opts <> ""%string.
Proof.
  unfold outputDirOf. destruct (OutputDir opts =? "")%string eqn:E; [discriminate|].
  apply String.eqb_neq. exact E.
Qed.

Section Mirror.

Variable opts : UnzipOptions.
Variable out : io.Writer.
Variable w : string.
Variable src : os.node.
Variables base oelems : list string.




Hypothesis overwrite : Overwrite opts = true.
Hypothesis keepPaths : JunkPaths opts = false.
Hypothesis noPatterns : FilePatterns opts = [].
Hypothesis absolute : filepath.IsAbs w = true.
Hypothesis root : os.namei w (outputDirOf opts) = Some oelems.
Hypothesis rootBelow : oelems <> [].
Hypothesis baseDir : isDirectory src base.





End Mirror.

(** ** The files [Zip] takes, as files below one place *)








(** ** The round trip *)










(** * [Zip] from its inputs *)

(** ** The state [Zip] goes through *)

Definition skipLine (path : string) : string :=
  "  adding: " ++ path ++ "/ (skipped, not recursive)" ++ String "010" "".

Definition addingLine (path : string) : string :=
  "  adding: " ++ path ++ String "010" "".

Definition lines (ls : list string) : string := fold_right String.append "" ls.

(** The path names something in the tree [d], seen from [w]. *)
Definition present (w : string) (d : os.node) (path : string) : Prop :=
  exists elems n, os.namei w path = Some elems /\ os.lookup d elems = Some n.

(** The state after [addToZip] has taken a source path that is there. *)
Definition addSource (opts : ZipOptions) (out : io.Writer) (s : World) (path : string)
    : World :=
  match os.namei (wd s) path with
  | Some elems =>
      match os.lookup (disk s) elems with
      | Some n =>
          if os.isDir n && negb (Recursive opts)
          then fst (Fprintf out (skipLine path) s)
          else fold_left (zipAdd opts out) (sourceFiles opts path n) s
      | None => s
      end
  | None => s
  end.

(** What the status sink is sent for a source path. *)
Definition sourceStatus (opts : ZipOptions) (w : string) (d : os.node) (path : string)
    : string :=
  match os.namei w path with
  | Some elems =>
      match os.lookup d elems with
      | Some n =>
          if os.isDir n && negb (Recursive opts) then skipLine path
          else lines (map (fun e => addingLine (fst e)) (sourceFiles opts path n))
      | None => ""
      end
  | None => ""
  end.

(** The state in which the loop of [Zip] begins: the archive is created
    in the tree [dc] and the writer has no entry. *)
Definition zipStart (opts : ZipOptions) (s : World) (dc : os.node) (zelems : list string)
    : World :=
  setZw (setDisk s dc) (zip.mkWriter zelems (levelFor opts) []).

Lemma append_empty_r (s : string) : (s ++ "")%string = s.
Proof. induction s; simpl; congruence. Qed.

Lemma lines_app (a b : list string) : lines (a ++ b) = (lines a ++ lines b)%string.
Proof.
  induction a as [|x a IH]; simpl; [reflexivity|].
  rewrite IH, append_assoc. reflexivity.
Qed.

Lemma sinkText (out : io.Writer) (text : string) (s : World) :
  sink (fst (Fprintf out text s)) =
  (sink s ++ match out with io.Sink => text | io.Discard => "" end)%string.
Proof. destruct out; simpl; [rewrite append_empty_r|]; reflexivity. Qed.

Lemma zipAdd_fold_sink (opts : ZipOptions) (out : io.Writer)
    (l : list (string * os.node)) (s : World) :
  sink (fold_left (zipAdd opts out) l s) =
  (sink s ++ match out with
             | io.Sink => lines (map (fun e => addingLine (fst e)) l)
             | io.Discard => ""
             end)%string.
Proof.
  revert s. induction l as [|e l IH]; intros s; simpl.
  - destruct out; rewrite append_empty_r; reflexivity.
  - rewrite IH. unfold zipAdd. rewrite sinkText. simpl sink.
    destruct out; rewrite append_assoc; reflexivity.
Qed.

Lemma addToZip_run (path : string) (opts : ZipOptions) (out : io.Writer) (s : World) :
  os.wellFormed (disk s) = true -> present (wd s) (disk s) path ->
  addToZip path opts out s = (addSource opts out s path, Ok tt).
Proof.
  intros Hwf (elems & n & Hn & Hl). unfold addToZip, addSource. rewrite Hn, Hl.
  erewrite bind_run by (apply (os_Stat_found path s elems n Hn Hl)).
  rewrite infoOf_IsDir. unfold sourceFiles.
  destruct (os.isDir n) eqn:Hk.
  - destruct (Recursive opts); simpl.
    + change (fun (p : string) (fi : os.FileInfo) (err : option error) => _)
        with (zipWalkFn opts out).
      apply (filepath_Walk_archived opts out path elems n s
               (lookup_wellFormed _ _ _ Hwf Hl) Hn Hl).
    + apply Fprintf_pair.
  - simpl. destruct (matchesAny path (ExcludePatterns opts)); [reflexivity|].
    apply (writeFileToZip_run path opts out s elems n Hn Hl Hk).
Qed.

(** A source path that is not there ends [addToZip] with the error of
    [os.Stat], and nothing is changed. *)
Definition statError (path errno : string) : error :=
  errorString ("stat " ++ path ++ ": stat " ++ path ++ ": " ++ errno).

Lemma addToZip_missing (path : string) (opts : ZipOptions) (out : io.Writer) (s : World)
    (elems : list string) :
  os.namei (wd s) path = Some elems -> os.lookup (disk s) elems = None ->
  addToZip path opts out s = (s, Err (statError path (os.lookupErrno (disk s) elems))).
Proof.
  intros Hn Hl. unfold addToZip, bind, os_Stat, bind, resolve.
  rewrite Hn, Hl. reflexivity.
Qed.

(** Which of the two errors a lookup that finds nothing gives. *)
Lemma lookupErrno_spec (elems : list string) :
  forall d,
    os.lookup d elems = None ->
    (clearWay d elems -> os.lookupErrno d elems = os.ENOENT) /\
    (forall q r pm t dt,
       elems = q ++ r -> r <> [] -> os.lookup d q = Some (os.File pm t dt) ->
       os.lookupErrno d elems = os.ENOTDIR).
Proof.
  induction elems as [|e elems IH]; intros d Hl; [discriminate|].
  destruct d as [pm0 t0 d0|pm0 es]; simpl in *.
  - split; [|reflexivity].
    intros Hc. exfalso. apply (Hc [] (e :: elems) pm0 t0 d0 eq_refl); [discriminate|].
    reflexivity.
  - destruct (os.getEntry e es) as [child|] eqn:Eg.
    + destruct (IH child Hl) as [H1 H2]. split.
      * intros Hc. apply H1. intros q r pm t dt Hq Hr Hf.
        apply (Hc (e :: q) r pm t dt); [simpl; congruence | exact Hr|].
        simpl. rewrite Eg. exact Hf.
      * intros q r pm t dt Hq Hr Hf. destruct q as [|e' q]; [discriminate|].
        simpl in Hq. injection Hq as <- Hq. simpl in Hf. rewrite Eg in Hf.
        exact (H2 q r pm t dt Hq Hr Hf).
    + split; [reflexivity|].
      intros q r pm t dt Hq Hr Hf. destruct q as [|e' q]; [discriminate|].
      simpl in Hq. injection Hq as <- Hq. simpl in Hf. rewrite Eg in Hf. discriminate.
Qed.


Lemma addSource_frame (opts : ZipOptions) (out : io.Writer) (s : World) (path : string) :
  let s' := addSource opts out s path in
  disk s' = disk s /\ wd s' = wd s /\ clock s' = clock s /\
  zip.dest (zw s') = zip.dest (zw s) /\ zip.level (zw s') = zip.level (zw s) /\
  zip.entries (zw s') =
    zip.entries (zw s) ++ entriesOf opts (allSources opts (wd s) (disk s) [path]) /\
  sink s' =
    (sink s ++ match out with
               | io.Sink => sourceStatus opts (wd s) (disk s) path
               | io.Discard => ""
               end)%string.
Proof.
  unfold addSource, sourceStatus, allSources. simpl flat_map.
  destruct (os.namei (wd s) path) as [elems|].
  2:{ simpl. rewrite app_nil_r. destruct out; rewrite append_empty_r; auto 10. }
  destruct (os.lookup (disk s) elems) as [n|].
  2:{ simpl. rewrite app_nil_r. destruct out; rewrite append_empty_r; auto 10. }
  rewrite app_nil_r.
  destruct (os.isDir n && negb (Recursive opts)) eqn:E.
  - assert (Hsrc : sourceFiles opts path n = []).
    { unfold sourceFiles. apply Bool.andb_true_iff in E. destruct E as [-> E].
      apply Bool.negb_true_iff in E. rewrite E. reflexivity. }
    rewrite Hsrc. simpl. rewrite app_nil_r, sinkText.
    destruct out; simpl; auto 10.
  - pose proof (zipAdd_fold_frame opts out (sourceFiles opts path n) s)
      as (H1 & H2 & H3 & H4 & H5 & H6).
    repeat split; try assumption. apply zipAdd_fold_sink.
Qed.

Lemma allSources_app (opts : ZipOptions) (w : string) (d : os.node) (a b : list string) :
  allSources opts w d (a ++ b) = allSources opts w d a ++ allSources opts w d b.
Proof. unfold allSources. apply flat_map_app. Qed.

(** The loop of [Zip] over source paths that are there. *)
Lemma zipRange_run (opts : ZipOptions) (out : io.Writer) (files : list string) :
  forall s,
    os.wellFormed (disk s) = true ->
    Forall (present (wd s) (disk s)) files ->
    exists s',
      forRange files (fun name => addToZip name opts out) s = (s', Ok tt) /\
      disk s' = disk s /\ wd s' = wd s /\ clock s' = clock s /\
      zip.dest (zw s') = zip.dest (zw s) /\ zip.level (zw s') = zip.level (zw s) /\
      zip.entries (zw s') =
        zip.entries (zw s) ++ entriesOf opts (allSources opts (wd s) (disk s) files) /\
      sink s' =
        (sink s ++ match out with
                   | io.Sink => lines (map (sourceStatus opts (wd s) (disk s)) files)
                   | io.Discard => ""
                   end)%string.
Proof.
  induction files as [|path files IH]; intros s Hwf Hall.
  - exists s. simpl. rewrite app_nil_r. destruct out; rewrite append_empty_r; auto 10.
  - pose proof (Forall_inv Hall) as Hp. pose proof (Forall_inv_tail Hall) as Hrest.
    pose proof (addSource_frame opts out s path) as (F1 & F2 & F3 & F4 & F5 & F6 & F7).
    destruct (IH (addSource opts out s path)) as (s' & Hrun & G1 & G2 & G3 & G4 & G5 & G6 & G7).
    { rewrite F1. exact Hwf. }
    { rewrite F1, F2. exact Hrest. }
    exists s'. split.
    { simpl. erewrite bind_run by (apply addToZip_run; assumption). exact Hrun. }
    rewrite F1, F2 in G6, G7.
    repeat split; try congruence.
    + rewrite G6, F6. change (path :: files) with ([path] ++ files).
      rewrite allSources_app. unfold entriesOf. rewrite map_app, app_assoc. reflexivity.
    + rewrite G7, F7. destruct out; simpl; rewrite append_assoc; reflexivity.
Qed.

(** [Zip] once the archive is created: the loop, then the deferred
    closing. *)
Lemma Zip_created (codec : zip.Codec) (zipPath : string) (files : list string)
    (opts : ZipOptions) (s : World) (zelems : list string) (dc : os.node) :
  os.namei (wd s) zipPath = Some zelems ->
  os.update None (os.truncLeaf (os.Perm 438%Z) (clock s)) (disk s) zelems = inr dc ->
  Zip codec zipPath files opts s =
  (let (sl, r) := forRange files
                    (fun name => addToZip name opts (statusWriter (ZipOutput opts)))
                    (zipStart opts s dc zelems) in
   (zip_Close codec sl, r)).
Proof.
  intros Hn Hu. unfold Zip.
  erewrite bind_run by (apply os_OpenFile_run; eassumption).
  reflexivity.
Qed.

(** Closing writes the container into the file of the writer. *)
Lemma zip_Close_written (codec : zip.Codec) (s : World) (pm : os.FileMode) (t : Z) :
  os.lookup (disk s) (zip.dest (zw s)) = Some (os.File pm t []) ->
  let s' := zip_Close codec s in
  os.lookup (disk s') (zip.dest (zw s)) =
    Some (os.File pm (clock s)
            (zip.encode codec (zip.level (zw s)) (zip.entries (zw s)))) /\
  wd s' = wd s /\ clock s' = clock s /\ sink s' = sink s /\ zw s' = zw s.
Proof.
  intros Hl. unfold zip_Close, os_Write, os_update.
  destruct (update_succeeds None
              (os.writeLeaf (clock s) (zip.encode codec (zip.level (zw s)) (zip.entries (zw s))))
              (zip.dest (zw s)) (disk s) _
              (os.File pm (clock s)
                 ([] ++ zip.encode codec (zip.level (zw s)) (zip.entries (zw s))))
              Hl eq_refl) as (n' & Hw).
  rewrite Hw. simpl.
  destruct (lookup_update_new _ _ _ _ _ Hw) as (y & Hy & Hleaf).
  rewrite Hl in Hleaf. simpl in Hleaf. injection Hleaf as <-. auto.
Qed.

Lemma created_empty (s : World) (zelems : list string) (dc : os.node) (perm : os.FileMode) :
  os.update None (os.truncLeaf perm (clock s)) (disk s) zelems = inr dc ->
  exists pm, os.lookup dc zelems = Some (os.File pm (clock s) []).
Proof.
  intros Hu. destruct (lookup_update_new _ _ _ _ _ Hu) as (y & Hy & Hleaf).
  destruct (os.lookup (disk s) zelems) as [[pm t d|pm es]|]; simpl in Hleaf;
    inversion Hleaf; subst; eauto.
Qed.

(** [Zip] when the archive can be created and every source path is
    there. *)
Lemma Zip_run (codec : zip.Codec) (zipPath : string) (files : list string)
    (opts : ZipOptions) (s : World) (zelems : list string) (dc : os.node) :
  os.wellFormed (disk s) = true ->
  os.namei (wd s) zipPath = Some zelems ->
  os.update None (os.truncLeaf (os.Perm 438%Z) (clock s)) (disk s) zelems = inr dc ->
  Forall (present (wd s) dc) files ->
  exists s1 pm,
    Zip codec zipPath files opts s = (s1, Ok tt) /\
    os.lookup (disk s1) zelems =
      Some (os.File pm (clock s)
              (zip.encode codec (levelFor opts)
                 (entriesOf opts (allSources opts (wd s) dc files)))) /\
    sink s1 =
      (sink s ++ if ZipOutput opts
                 then lines (map (sourceStatus opts (wd s) dc) files) else "")%string.
Proof.
  intros Hwf Hn Hu Hall.
  assert (Hwfc : os.wellFormed dc = true).
  { apply (update_wellFormed _ _ zelems (wfLeaf_trunc _ _) (namei_plain _ _ _ Hn) _ _ Hwf Hu). }
  rewrite (Zip_created codec zipPath files opts s zelems dc Hn Hu).
  destruct (zipRange_run opts (statusWriter (ZipOutput opts)) files
              (zipStart opts s dc zelems) Hwfc Hall)
    as (sl & Hrun & F1 & F2 & F3 & F4 & F5 & F6 & F7).
  rewrite Hrun. simpl in F1, F2, F3, F4, F5, F6, F7.
  destruct (created_empty s zelems dc _ Hu) as (pm & Hempty).
  assert (Hl : os.lookup (disk sl) (zip.dest (zw sl)) = Some (os.File pm (clock s) [])).
  { rewrite F1, F4. exact Hempty. }
  destruct (zip_Close_written codec sl pm (clock s) Hl) as (C1 & C2 & C3 & C4 & C5).
  exists (zip_Close codec sl), pm. split; [reflexivity|]. split.
  - rewrite F4, F5, F6, F3 in C1. exact C1.
  - rewrite C4, F7. destruct (ZipOutput opts); reflexivity.
Qed.

(** ** A run without an error

    For the examples on the worlds of [Examples]: the tactics settle, on
    a closed tree, that a path names something and that no regular file
    lies on the way to a place. *)

(** The tree of [Examples.srcWorld] once [/tmp/t.zip] has been created. *)
Definition srcCreated : os.node :=
  os.Dir 493%Z
    [("src", Examples.srcDir);
     ("tmp", os.Dir 493%Z [("t.zip", os.File 438%Z 1000%Z [])])].

Ltac is_present := eexists; eexists; split; vm_compute; reflexivity.

Ltac off_archive :=
  unfold offArchive;
  match goal with
  | |- Forall _ ?l =>
      let l' := eval vm_compute in l in
      replace l with l' by (vm_compute; reflexivity)
  end;
  repeat (apply Forall_cons;
          [let H := fresh in intros H; vm_compute in H; discriminate H|]);
  apply Forall_nil.

Ltac clear_way :=
  let q := fresh "q" in
  let Hq := fresh "Hq" in
  let Hl := fresh "Hl" in
  intros q ? ? ? ? Hq ? Hl;
  repeat (destruct q as [|? q];
          [ first [ vm_compute in Hl; discriminate Hl | simpl in Hq; subst; congruence ]
          | simpl in Hq; try discriminate Hq; injection Hq as <- Hq ]).

(** X1. When the archive file can be created, every source path names
    something and the archive is not itself one of the files to be taken,
    [Zip] returns no error, and the archive file then holds the container
    of the entries of the files that are to be taken from the source
    paths, in the order of the source paths and, within each, of the walk:
    each entry with the path of its file as name, the method and the level
    of the options, the time, mode and size of the file, and its
    content. *)
Theorem Zip_succeeds (codec : zip.Codec) (zipPath : string) (files : list string)
    (opts : ZipOptions) (s : World) (zelems : list string) (dc : os.node) :
  os.wellFormed (disk s) = true ->
  os.namei (wd s) zipPath = Some zelems ->
  os.update None (os.truncLeaf (os.Perm 438%Z) (clock s)) (disk s) zelems = inr dc ->
  Forall (present (wd s) dc) files ->
  offArchive (wd s) zelems (allSources opts (wd s) dc files) ->
  exists s1 pm,
    Zip codec zipPath files opts s = (s1, Ok tt) /\
    os.lookup (disk s1) zelems =
      Some (os.File pm (clock s)
              (zip.encode codec (levelFor opts)
                 (map (fun e => entryOf opts (fst e) (snd e))
                    (flat_map (fun path =>
                       match os.namei (wd s) path with
                       | Some elems =>
                           match os.lookup dc elems with
                           | Some n => sourceFiles opts path n
                           | None => []
                           end
                       | None => []
                       end) files)))).
Proof.
  intros Hwf Hn Hu Hall _.
  destruct (Zip_run codec zipPath files opts s zelems dc Hwf Hn Hu Hall)
    as (s1 & pm & H1 & H2 & _).
  exists s1, pm. split; [exact H1 | exact H2].
Qed.

Lemma Zip_succeeds_witness :
  exists s1 pm,
    Zip refcodec.codec "/tmp/t.zip" ["hello.txt"; "sub"]
      (Examples.zipOpts true (-1) []) Examples.srcWorld = (s1, Ok tt) /\
    os.lookup (disk s1) ["tmp"; "t.zip"] =
      Some (os.File pm 1000%Z
              (refcodec.encode (-1)
                 [(zip.mkFileHeader "hello.txt" 8%Z 100%Z 420%Z 11%Z 0%Z,
                   Examples.bytes "hello world");
                  (zip.mkFileHeader "sub/nested.txt" 8%Z 100%Z 420%Z 14%Z 0%Z,
                   Examples.bytes "nested content")])).
Proof.
  refine (Zip_succeeds refcodec.codec "/tmp/t.zip" ["hello.txt"; "sub"]
           (Examples.zipOpts true (-1) []) Examples.srcWorld ["tmp"; "t.zip"] srcCreated
           _ _ _ _ _).
  - reflexivity.
  - reflexivity.
  - reflexivity.
  - repeat constructor; is_present.
  - off_archive.
Defined.

(** X2. When the archive file can be created, every source path names
    something and the archive is not itself one of the files to be taken,
    the status sink, when one was given, receives for every source path, in
    order: the line
    ["  adding: <path>/ (skipped, not recursive)"] for a directory when
    [Recursive] is unset, and otherwise one line ["  adding: <path>"] for
    every file taken, in the order of the entries; without a sink nothing
    is sent. *)
Theorem Zip_status (codec : zip.Codec) (zipPath : string) (files : list string)
    (opts : ZipOptions) (s : World) (zelems : list string) (dc : os.node) :
  os.wellFormed (disk s) = true ->
  os.namei (wd s) zipPath = Some zelems ->
  os.update None (os.truncLeaf (os.Perm 438%Z) (clock s)) (disk s) zelems = inr dc ->
  Forall (present (wd s) dc) files ->
  offArchive (wd s) zelems (allSources opts (wd s) dc files) ->
  sink (fst (Zip codec zipPath files opts s)) =
  (sink s ++ if ZipOutput opts
             then lines (map (sourceStatus opts (wd s) dc) files) else "")%string.
Proof.
  intros Hwf Hn Hu Hall _.
  destruct (Zip_run codec zipPath files opts s zelems dc Hwf Hn Hu Hall)
    as (s1 & pm & H1 & _ & H3).
  rewrite H1. exact H3.
Qed.

Lemma Zip_status_witness :
  sink (fst (Zip refcodec.codec "/tmp/t.zip" ["hello.txt"; "sub"]
               (Examples.zipOpts false (-1) []) Examples.srcWorld)) =
  ("  adding: hello.txt" ++ String "010" "" ++
   "  adding: sub/ (skipped, not recursive)" ++ String "010" "")%string.
Proof.
  refine (Zip_status refcodec.codec "/tmp/t.zip" ["hello.txt"; "sub"]
           (Examples.zipOpts false (-1) []) Examples.srcWorld ["tmp"; "t.zip"] srcCreated
           _ _ _ _ _).
  - reflexivity.
  - reflexivity.
  - reflexivity.
  - repeat constructor; is_present.
  - off_archive.
Defined.

(** X3. (On a path in cleaned form, from a working directory that is a
    directory, the lexical resolution of the model is the resolution of
    the system.)  A source path in cleaned form that names nothing, seen
    from a working directory that is a directory, ends [Zip] with the error
    ["stat <path>: stat <path>: no such file or directory"] when no regular
    file lies on the way to it, and with
    ["stat <path>: stat <path>: not a directory"] when one does; the
    source paths after it are not looked at, and the archive file is closed
    all the same: when the archive is not itself one of the files taken
    before, it holds the container of the entries of the source paths
    before the missing one. *)
Theorem Zip_missing_source (codec : zip.Codec) (zipPath : string)
    (pre post : list string) (path : string)
    (opts : ZipOptions) (s : World) (zelems welems elems : list string) (dc : os.node) :
  os.wellFormed (disk s) = true ->
  os.namei (wd s) zipPath = Some zelems ->
  os.update None (os.truncLeaf (os.Perm 438%Z) (clock s)) (disk s) zelems = inr dc ->
  Forall (present (wd s) dc) pre ->
  offArchive (wd s) zelems (allSources opts (wd s) dc pre) ->
  os.namei (wd s) "." = Some welems -> isDirectory (disk s) welems ->
  filepath.Clean path = path ->
  os.namei (wd s) path = Some elems -> os.lookup dc elems = None ->
  exists s1 pm errno,
    Zip codec zipPath (pre ++ path :: post) opts s =
      (s1, Err (errorString ("stat " ++ path ++ ": stat " ++ path ++ ": " ++ errno))) /\
    (clearWay dc elems -> errno = os.ENOENT) /\
    (forall q r pm' t d,
       elems = q ++ r -> r <> [] -> os.lookup dc q = Some (os.File pm' t d) ->
       errno = os.ENOTDIR) /\
    os.lookup (disk s1) zelems =
      Some (os.File pm (clock s)
              (zip.encode codec (levelFor opts)
                 (entriesOf opts (allSources opts (wd s) dc pre)))).
Proof.
  intros Hwf Hn Hu Hall _ _ _ _ Hp Hno.
  assert (Hwfc : os.wellFormed dc = true).
  { apply (update_wellFormed _ _ zelems (wfLeaf_trunc _ _) (namei_plain _ _ _ Hn) _ _ Hwf Hu). }
  rewrite (Zip_created codec zipPath _ opts s zelems dc Hn Hu).
  destruct (zipRange_run opts (statusWriter (ZipOutput opts)) pre
              (zipStart opts s dc zelems) Hwfc Hall)
    as (sl & Hrun & F1 & F2 & F3 & F4 & F5 & F6 & F7).
  simpl in F1, F2, F3, F4, F5, F6, F7.
  rewrite (forRange_stops pre post path _ _ sl sl
             (statError path (os.lookupErrno dc elems)) Hrun).
  2:{ rewrite <- F1. apply addToZip_missing; [rewrite F2; exact Hp | rewrite F1; exact Hno]. }
  destruct (created_empty s zelems dc _ Hu) as (pm & Hempty).
  assert (Hl : os.lookup (disk sl) (zip.dest (zw sl)) = Some (os.File pm (clock s) [])).
  { rewrite F1, F4. exact Hempty. }
  destruct (zip_Close_written codec sl pm (clock s) Hl) as (C1 & _).
  destruct (lookupErrno_spec elems dc Hno) as [E1 E2].
  exists (zip_Close codec sl), pm, (os.lookupErrno dc elems).
  split; [reflexivity|]. split; [exact E1|]. split; [exact E2|].
  rewrite F4, F5, F6, F3 in C1. exact C1.
Qed.

Lemma Zip_missing_source_witness :
  (exists s1 pm,
     Zip refcodec.codec "/tmp/t.zip" (["hello.txt"] ++ "nothing.txt" :: ["foo.go"])
       (Examples.zipOpts true (-1) []) Examples.srcWorld =
       (s1, Err (errorString
                   "stat nothing.txt: stat nothing.txt: no such file or directory")) /\
     os.lookup (disk s1) ["tmp"; "t.zip"] =
       Some (os.File pm 1000%Z
               (refcodec.encode (-1)
                  [(zip.mkFileHeader "hello.txt" 8%Z 100%Z 420%Z 11%Z 0%Z,
                    Examples.bytes "hello world")]))) /\
  (exists s1,
     Zip refcodec.codec "/tmp/t.zip" ([] ++ "hello.txt/x" :: [])
       (Examples.zipOpts true (-1) []) Examples.srcWorld =
       (s1, Err (errorString "stat hello.txt/x: stat hello.txt/x: not a directory"))).
Proof.
  split.
  - destruct (Zip_missing_source refcodec.codec "/tmp/t.zip" ["hello.txt"] ["foo.go"]
                "nothing.txt" (Examples.zipOpts true (-1) []) Examples.srcWorld
                ["tmp"; "t.zip"] ["src"] ["src"; "nothing.txt"] srcCreated)
      as (s1 & pm & errno & HZ & He & _ & Hl).
    + reflexivity.
    + reflexivity.
    + reflexivity.
    + repeat constructor; is_present.
    + off_archive.
    + reflexivity.
    + eexists. split; reflexivity.
    + reflexivity.
    + reflexivity.
    + reflexivity.
    + rewrite He in HZ by clear_way. exists s1, pm. split; [exact HZ | exact Hl].
  - destruct (Zip_missing_source refcodec.codec "/tmp/t.zip" [] []
                "hello.txt/x" (Examples.zipOpts true (-1) []) Examples.srcWorld
                ["tmp"; "t.zip"] ["src"] ["src"; "hello.txt"; "x"] srcCreated)
      as (s1 & pm & errno & HZ & _ & He & _).
    + reflexivity.
    + reflexivity.
    + reflexivity.
    + constructor.
    + off_archive.
    + reflexivity.
    + eexists. split; reflexivity.
    + reflexivity.
    + reflexivity.
    + reflexivity.
    + rewrite (He ["src"; "hello.txt"] ["x"] 420%Z 100%Z (Examples.bytes "hello world")
                 eq_refl) in HZ; [|discriminate | reflexivity].
      exists s1. exact HZ.
Defined.

(** ** When the archive cannot be created *)

Lemma update_at_dir (mk : option os.FileMode) (perm : os.FileMode) (now : Z)
    (p : list string) :
  forall n pm es,
    os.lookup n p = Some (os.Dir pm es) ->
    os.update mk (os.truncLeaf perm now) n p = inl os.EISDIR.
Proof.
  induction p as [|e p IH]; intros n pm es Hl; simpl in *.
  - injection Hl as ->. reflexivity.
  - destruct n as [|pm' es']; [discriminate|].
    destruct (os.getEntry e es') as [child|]; [|discriminate].
    rewrite (IH child pm es Hl). reflexivity.
Qed.

Lemma update_missing_parent (leaf : option os.node -> string + os.node)
    (p : list string) (x : string) :
  forall n,
    os.lookup n p = None -> clearWay n p ->
    os.update None leaf n (p ++ [x]) = inl os.ENOENT.
Proof.
  induction p as [|e p IH]; intros n Hl Hc; simpl in *; [discriminate|].
  destruct n as [pm t d|pm es].
  - exfalso. apply (Hc [] (e :: p) pm t d eq_refl); [discriminate | reflexivity].
  - destruct (os.getEntry e es) as [child|] eqn:Eg.
    + rewrite (IH child Hl); [reflexivity|].
      intros q r pm' t' d' Hp Hr Hq.
      apply (Hc (e :: q) r pm' t' d'); [simpl; congruence | exact Hr |].
      simpl. rewrite Eg. exact Hq.
    + destruct (p ++ [x]) eqn:E; [destruct p; discriminate | reflexivity].
Qed.

Lemma Zip_create_error (codec : zip.Codec) (zipPath : string) (files : list string)
    (opts : ZipOptions) (s : World) (zelems : list string) (errno : string) :
  os.namei (wd s) zipPath = Some zelems ->
  os.update None (os.truncLeaf (os.Perm 438%Z) (clock s)) (disk s) zelems = inl errno ->
  Zip codec zipPath files opts s =
  (s, Err (errorString ("creating archive: open " ++ zipPath ++ ": " ++ errno))).
Proof.
  intros Hn Hu.
  unfold Zip, bind, os_Create, os_OpenFile, bind, resolve, os_update.
  rewrite Hn, Hu. reflexivity.
Qed.

(** X4. When the path of the archive names a directory, or the directory
    the archive is to be in is not there, [Zip] returns the error of
    [os.Create] behind ["creating archive: "], before it looks at any
    source path, and changes nothing. *)
Theorem Zip_cannot_create (codec : zip.Codec) (zipPath : string) (files : list string)
    (opts : ZipOptions) (s : World) (zelems : list string) :
  os.namei (wd s) zipPath = Some zelems ->
  (isDirectory (disk s) zelems ->
   Zip codec zipPath files opts s =
   (s, Err (errorString ("creating archive: open " ++ zipPath ++ ": is a directory")))) /\
  (forall zdir zname,
     zelems = zdir ++ [zname] ->
     os.lookup (disk s) zdir = None -> clearWay (disk s) zdir ->
     Zip codec zipPath files opts s =
     (s, Err (errorString
                ("creating archive: open " ++ zipPath ++ ": no such file or directory")))).
Proof.
  intros Hn. split.
  - intros (x & Hx & Hk). destruct x as [|pm es]; [discriminate|].
    apply (Zip_create_error codec zipPath files opts s zelems os.EISDIR Hn).
    apply (update_at_dir None _ _ zelems (disk s) pm es Hx).
  - intros zdir zname -> Hl Hc.
    apply (Zip_create_error codec zipPath files opts s _ os.ENOENT Hn).
    apply update_missing_parent; assumption.
Qed.

Lemma Zip_cannot_create_witness :
  Zip refcodec.codec "/tmp" ["hello.txt"] (Examples.zipOpts true (-1) [])
    Examples.srcWorld =
  (Examples.srcWorld, Err (errorString "creating archive: open /tmp: is a directory")) /\
  Zip refcodec.codec "/none/t.zip" ["hello.txt"] (Examples.zipOpts true (-1) [])
    Examples.srcWorld =
  (Examples.srcWorld,
   Err (errorString "creating archive: open /none/t.zip: no such file or directory")).
Proof.
  split.
  - refine (proj1 (Zip_cannot_create refcodec.codec "/tmp" ["hello.txt"]
                     (Examples.zipOpts true (-1) []) Examples.srcWorld ["tmp"] _) _).
    + reflexivity.
    + eexists. split; reflexivity.
  - refine (proj2 (Zip_cannot_create refcodec.codec "/none/t.zip" ["hello.txt"]
                     (Examples.zipOpts true (-1) []) Examples.srcWorld ["none"; "t.zip"] _)
                  ["none"] "t.zip" _ _ _).
    + reflexivity.
    + reflexivity.
    + reflexivity.
    + intros q r pm t dt Hq Hr.
      destruct q as [|a [|b q]]; [discriminate | | destruct q; discriminate].
      injection Hq as <- _. discriminate.
Defined.

(** ** What [Zip] leaves alone *)

(** A regular file that is not at the place of an update is as it
    was. *)
Lemma lookup_update_file (mk : option os.FileMode)
    (leaf : option os.node -> string + os.node) (p : list string) :
  goodLeaf leaf ->
  forall (n n' : os.node) (q : list string) pm t d,
    os.update mk leaf n p = inr n' ->
    os.lookup n q = Some (os.File pm t d) ->
    q <> p ->
    os.lookup n' q = Some (os.File pm t d).
Proof.
  intros Hgood. induction p as [|e p IH]; intros n n' q pm t d Hup Hq Hne.
  - destruct q as [|c q]; [congruence|].
    simpl in Hup. destruct (Hgood n n' Hup) as (_ & _ & Hd).
    destruct n as [pm0 t0 d0|pm0 es]; [discriminate|].
    rewrite (Hd eq_refl). exact Hq.
  - destruct n as [pm0 t0 d0|pm0 es]; [discriminate|].
    destruct (update_Dir_inv mk leaf pm0 es e p n' Hup) as (v & -> & Hv).
    destruct q as [|c q]; [discriminate|].
    simpl in Hq. simpl.
    destruct (String.eqb_spec c e) as [->|Hce].
    + rewrite getEntry_setEntry.
      destruct (os.getEntry e es) as [child|]; [|discriminate].
      apply (IH child v q pm t d Hv Hq). congruence.
    + rewrite (getEntry_setEntry_other e c v es Hce). exact Hq.
Qed.

(** An update that makes no directory adds nothing but its leaf. *)
Lemma lookup_update_absent (leaf : option os.node -> string + os.node) (p : list string) :
  goodLeaf leaf -> childless leaf ->
  forall (n n' : os.node) (q : list string),
    os.update None leaf n p = inr n' ->
    os.lookup n q = None -> q <> p ->
    os.lookup n' q = None.
Proof.
  intros Hgood Hch n n' q Hup Hq Hne.
  destruct (os.lookup n' q) as [x|] eqn:E; [|reflexivity].
  destruct (lookup_update_fresh None leaf p Hgood Hch n n' q x Hup Hq E)
    as [(Heq & _)|(pm & es & r & Hmk & _)]; [contradiction | discriminate].
Qed.

(** The loop of [Zip] changes neither the tree nor the file the writer
    writes to, whatever it returns. *)
Definition zipKeeps (s t : World) : Prop :=
  disk t = disk s /\ wd t = wd s /\ clock t = clock s /\
  zip.dest (zw t) = zip.dest (zw s).

Lemma zipKeeps_refl (s : World) : zipKeeps s s.
Proof. repeat split. Qed.

Lemma zipKeeps_trans (s1 s2 s3 : World) :
  zipKeeps s1 s2 -> zipKeeps s2 s3 -> zipKeeps s1 s3.
Proof. intros (A1 & A2 & A3 & A4) (B1 & B2 & B3 & B4). repeat split; congruence. Qed.

Lemma writeFileToZip_zipKeeps (path : string) (info : os.FileInfo) (opts : ZipOptions)
    (out : io.Writer) :
  preserves zipKeeps (writeFileToZip path info opts out).
Proof.
  pose proof zipKeeps_refl as Hr. pose proof zipKeeps_trans as Ht.
  unfold writeFileToZip.
  apply (@preserves_bind _ Ht); [apply (@preserves_pure _ Hr)|]. intros header.
  intros s. unfold bind at 1. unfold zip_CreateHeader at 1. cbv beta iota zeta.
  match goal with
  | |- zipKeeps s (fst (?k ?s')) =>
      apply (Ht s s' (fst (k s'))); [repeat split|];
      generalize s'; change (preserves zipKeeps k)
  end.
  apply (@preserves_bind _ Ht); [apply (@preserves_os_Open _ Hr)|].
  intros f. apply (@preserves_bind _ Ht); [apply (@preserves_os_reader _ Hr)|].
  intros src. apply (@preserves_bind _ Ht).
  { unfold io_Copy. apply (@preserves_bind _ Ht).
    - intros s0. repeat split.
    - intros _. destruct (snd src); [apply (@preserves_fail _ Hr) | apply (@preserves_ret _ Hr)]. }
  intros _ s0. destruct out; simpl; repeat split.
Qed.

Lemma addToZip_zipKeeps (opts : ZipOptions) (path : string) (out : io.Writer) :
  preserves zipKeeps (addToZip path opts out).
Proof.
  pose proof zipKeeps_refl as Hr. pose proof zipKeeps_trans as Ht.
  unfold addToZip.
  apply (@preserves_bind _ Ht); [apply (@preserves_os_Stat _ Hr)|]. intros info.
  apply (@preserves_if _).
  - apply (@preserves_if _).
    + intros s. destruct out; simpl; repeat split.
    + apply (@preserves_filepath_Walk _ Hr Ht). intros p fi e.
      destruct e; [apply (@preserves_fail _ Hr)|].
      repeat apply (@preserves_if _);
        try apply (@preserves_fail _ Hr); try apply (@preserves_ret _ Hr).
      apply writeFileToZip_zipKeeps.
  - apply (@preserves_if _); [apply (@preserves_ret _ Hr)|].
    apply writeFileToZip_zipKeeps.
Qed.

Lemma os_OpenFile_Err (path : string) (perm : os.FileMode) (s s' : World) (e : error) :
  os_OpenFile path perm s = (s', Err e) -> s' = s.
Proof.
  unfold os_OpenFile, bind, resolve, os_update.
  destruct (os.namei (wd s) path) as [elems|]; [|intros H; injection H; auto].
  destruct (os.update _ _ _ _); [intros H; injection H; auto | discriminate].
Qed.

(** X5. Whatever [Zip] returns, it changes no regular file other than
    the archive and adds nothing to the tree but the archive: every
    regular file at another place keeps its content, time and
    permissions, what was not there is not there afterwards, and
    everything that was there is still there, of the same kind. *)
Theorem Zip_changes_only_archive (codec : zip.Codec) (zipPath : string)
    (files : list string) (opts : ZipOptions) (s : World) :
  let s' := fst (Zip codec zipPath files opts s) in
  wd s' = wd s /\
  (forall q x, os.lookup (disk s) q = Some x ->
     exists x', os.lookup (disk s') q = Some x' /\ os.isDir x' = os.isDir x) /\
  (forall q, os.namei (wd s) zipPath <> Some q ->
     (forall pm t d, os.lookup (disk s) q = Some (os.File pm t d) ->
        os.lookup (disk s') q = Some (os.File pm t d)) /\
     (os.lookup (disk s) q = None -> os.lookup (disk s') q = None)).
Proof.
  intros s'. subst s'.
  destruct (os_Create zipPath s) as [s0 [f|e]] eqn:Hc.
  2:{ assert (HZ : fst (Zip codec zipPath files opts s) = s).
      { unfold Zip. unfold bind at 1. rewrite Hc. simpl.
        apply os_OpenFile_Err in Hc. exact Hc. }
      rewrite HZ. repeat split; eauto. }
  unfold os_Create in Hc. apply os_OpenFile_Ok in Hc. destruct Hc as (dc & Hn & Hu & ->).
  rewrite (Zip_created codec zipPath files opts s f dc Hn Hu).
  pose proof (@preserves_forRange zipKeeps zipKeeps_refl zipKeeps_trans _ files
                (fun name => addToZip name opts (statusWriter (ZipOutput opts)))
                (fun x => addToZip_zipKeeps opts x _) (zipStart opts s dc f))
    as (K1 & K2 & K3 & K4).
  destruct (forRange files _ (zipStart opts s dc f)) as [sl r].
  simpl in K1, K2, K3, K4. simpl fst.
  assert (Hclose : disk (zip_Close codec sl) = dc \/
            exists data n', os.update None (os.writeLeaf (clock sl) data) dc f = inr n' /\
                            disk (zip_Close codec sl) = n').
  { unfold zip_Close, os_Write, os_update. rewrite K1, K4.
    destruct (os.update None _ dc f) as [errno|n'] eqn:Hw; simpl; [left; exact K1|].
    right. eauto. }
  assert (Hwd : wd (zip_Close codec sl) = wd s).
  { unfold zip_Close, os_Write, os_update.
    destruct (os.update None (os.writeLeaf _ _) _ _); simpl; exact K2. }
  split; [exact Hwd|]. split.
  - intros q x Hq.
    destruct (lookup_update_old _ _ _ (goodLeaf_trunc _ _) _ _ _ _ Hu Hq)
      as (x1 & Hx1 & Hk1 & _).
    destruct Hclose as [->|(data & n' & Hw & ->)]; [eauto|].
    destruct (lookup_update_old _ _ _ (goodLeaf_write _ _) _ _ _ _ Hw Hx1)
      as (x2 & Hx2 & Hk2 & _).
    exists x2. split; [exact Hx2 | congruence].
  - intros q Hq. assert (Hne : q <> f) by (intros ->; apply Hq; exact Hn). split.
    + intros pm t d Hl.
      pose proof (lookup_update_file _ _ _ (goodLeaf_trunc _ _) _ _ _ _ _ _ Hu Hl Hne) as H1.
      destruct Hclose as [->|(data & n' & Hw & ->)]; [exact H1|].
      exact (lookup_update_file _ _ _ (goodLeaf_write _ _) _ _ _ _ _ _ Hw H1 Hne).
    + intros Hl.
      pose proof (lookup_update_absent _ _ (goodLeaf_trunc _ _) (childless_trunc _ _)
                    _ _ _ Hu Hl Hne) as H1.
      destruct Hclose as [->|(data & n' & Hw & ->)]; [exact H1|].
      exact (lookup_update_absent _ _ (goodLeaf_write _ _) (childless_write _ _)
               _ _ _ Hw H1 Hne).
Qed.

(** * [Unzip] and the output directory *)

(** ** From the check of the destination to the places in the tree *)

Lemma JoinSlash_nonempty (D : list string) :
  Forall plainName D -> D <> [] -> strings.JoinSlash D <> ""%string.
Proof.
  intros HD Hne E. apply Hne. apply JoinSlash_empty; [|exact E].
  eapply Forall_impl; [|exact HD]. intros a Ha. right. exact Ha.
Qed.

(** A destination that passes the check of [Unzip] is at or below the
    output directory. *)
Lemma within_elems (w od dest : string) (oelems delems : list string) :
  filepath.IsAbs w = true ->
  os.namei w od = Some oelems -> os.namei w dest = Some delems ->
  within (filepath.Abs w od) (filepath.Abs w dest) ->
  exists r, delems = oelems ++ r.
Proof.
  intros Hw Ho Hd Hin.
  pose proof (namei_plain _ _ _ Ho) as HO. pose proof (namei_plain _ _ _ Hd) as HD.
  rewrite !(Abs_elems w _ Hw) in Hin.
  unfold os.namei in Ho, Hd.
  destruct (od =? "")%string; [discriminate|]. destruct (dest =? "")%string; [discriminate|].
  injection Ho as Ho. injection Hd as Hd. rewrite Ho, Hd in Hin.
  destruct oelems as [|o O]; [exists delems; reflexivity|].
  assert (HOne : o :: O <> []) by discriminate.
  assert (Hjo : strings.JoinSlash (o :: O) <> ""%string)
    by exact (JoinSlash_nonempty _ HO HOne).
  assert (Hso : strings.SplitSlash (strings.JoinSlash (o :: O)) = o :: O).
  { apply SplitSlash_JoinSlash; [discriminate | apply plainName_slashFree; exact HO]. }
  set (jo := strings.JoinSlash (o :: O)) in *.
  assert (Hsd : delems <> [] -> strings.SplitSlash (strings.JoinSlash delems) = delems).
  { intros Hne. apply SplitSlash_JoinSlash; [exact Hne | apply plainName_slashFree; exact HD]. }
  assert (Hjd : delems = [] -> strings.JoinSlash delems = ""%string) by (intros ->; reflexivity).
  set (jd := strings.JoinSlash delems) in *.
  assert (Hcases : jd = jo \/ exists rest, jd = (jo ++ "/" ++ rest)%string).
  { destruct Hin as [Heq|(rest & Heq)]; [left|right; exists rest]; injection Heq; auto. }
  clear Hin. destruct Hcases as [Heq|(rest & Heq)].
  - exists []. rewrite app_nil_r.
    destruct delems as [|d D].
    + exfalso. apply Hjo. rewrite <- Heq. apply Hjd. reflexivity.
    + rewrite <- Hso, <- Heq. symmetry. apply Hsd. discriminate.
  - destruct delems as [|d D].
    + exfalso. rewrite (Hjd eq_refl) in Heq. destruct jo; discriminate.
    + exists (strings.SplitSlash rest).
      rewrite <- Hso, <- SplitSlash_app, <- Heq. symmetry. apply Hsd. discriminate.
Qed.

Lemma rev_tl {A : Type} (l : list A) : rev (tl l) = removelast (rev l).
Proof.
  destruct l as [|a l]; [reflexivity|]. simpl. rewrite removelast_last. reflexivity.
Qed.

(** The directory of a cleaned path resolves to the place above the
    place of the path, to that place, or to a place in it. *)
Lemma nameiRev_Dir_Clean (w path : string) :
  let c := filepath.Clean path in
  filepath.Dir c <> ""%string /\
  (os.nameiRev w (filepath.Dir c) = tl (os.nameiRev w c) \/
   os.nameiRev w (filepath.Dir c) = os.nameiRev w c \/
   exists x, os.nameiRev w (filepath.Dir c) = x :: os.nameiRev w c).
Proof.
  intros c. split; [apply (nameiRev_Clean w (filepath.uptoLastSlash c))|].
  subst c. unfold filepath.Clean.
  pose proof (cleanStep_plain (filepath.IsAbs path) (strings.SplitSlash path) 0 []
                (Forall_nil _) (SplitSlash_slashFree path)) as Hp.
  destruct (filepath.IsAbs path) eqn:Habs.
  - rewrite cleanStep_rooted_any in *. simpl in Hp.
    destruct (fold_left os.nameiStep (strings.SplitSlash path) []) as [|x out].
    + right. left. reflexivity.
    + left. inversion Hp as [|? ? Hx _]; subst.
      destruct (cleanString_last true 0 out x (proj1 (proj2 Hx))) as [(a & Ha)|Ha].
      * apply (nameiRev_Dir w _ a x Hx). left. exact Ha.
      * apply (nameiRev_Dir w _ ""%string x Hx). right. exact Ha.
  - destruct (fold_left (filepath.cleanStep false) (strings.SplitSlash path) (0, []))
      as [dd [|x out]].
    + destruct dd as [|[|k]].
      * right. left. reflexivity.
      * change (filepath.cleanString false (1, [])) with ".."%string.
        change (filepath.Dir "..") with "."%string.
        unfold os.nameiRev. simpl filepath.IsAbs. cbv iota. simpl strings.SplitSlash.
        cbn [fold_left].
        change (os.nameiStep ?st ".") with st.
        change (os.nameiStep ?st "..") with (tl st).
        destruct (fold_left os.nameiStep (strings.SplitSlash w) []) as [|x W]; simpl; eauto.
      * set (a := strings.JoinSlash (repeat ".."%string (S k))).
        assert (Hdots : Forall dotsOrPlain (repeat ".."%string (S k))).
        { apply Forall_forall. intros y Hy. apply repeat_spec in Hy. left. exact Hy. }
        assert (Ha : a <> ""%string).
        { intros E. apply (JoinSlash_empty _ Hdots) in E. discriminate. }
        assert (Hc : filepath.cleanString false (S (S k), []) = (a ++ "/" ++ "..")%string).
        { unfold filepath.cleanString, filepath.cleanElems. simpl fst. simpl snd.
          simpl rev. rewrite app_nil_r, (repeat_snoc ".."%string (S k)).
          rewrite JoinSlash_app by discriminate. fold a.
          simpl (strings.JoinSlash [".."%string]).
          destruct a; [congruence | reflexivity]. }
        rewrite Hc. unfold filepath.Dir.
        rewrite (uptoLastSlash_app a ".." eq_refl).
        rewrite (proj1 (nameiRev_Clean w (a ++ "/"))).
        change (a ++ "/")%string with (a ++ "/" ++ "")%string.
        rewrite !(nameiRev_append w a _ Ha).
        simpl strings.SplitSlash. cbn [fold_left].
        change (os.nameiStep ?st "") with st.
        change (os.nameiStep ?st "..") with (tl st).
        destruct (os.nameiRev w a) as [|x A]; simpl; eauto.
    + left. simpl in Hp. inversion Hp as [|? ? Hx _]; subst.
      destruct (cleanString_last false dd out x (proj1 (proj2 Hx))) as [(a & Ha)|Ha].
      * apply (nameiRev_Dir w _ a x Hx). left. exact Ha.
      * apply (nameiRev_Dir w _ ""%string x Hx). right. exact Ha.
Qed.

(** ** What [Unzip] changes lies in the output directory *)

Section Confined.

Variable w : string.
Variable oelems : list string.

(** At or below the output directory. *)
Definition inside (p : list string) : Prop := exists r, p = oelems ++ r.

(** At or below the output directory, or on the way to it. *)
Definition near (p : list string) : Prop := inside p \/ exists r, oelems = p ++ r.

(** From [s] to [t] nothing was removed or changed in kind, no regular
    file outside the output directory was changed, and what was added is
    in the output directory or is a directory on the way to it. *)
Definition confinedTo (s t : World) : Prop :=
  wd t = wd s /\
  (forall q x, os.lookup (disk s) q = Some x ->
     exists x', os.lookup (disk t) q = Some x' /\ os.isDir x' = os.isDir x) /\
  (forall q pm tm d, ~ inside q -> os.lookup (disk s) q = Some (os.File pm tm d) ->
     os.lookup (disk t) q = Some (os.File pm tm d)) /\
  (forall q x, os.lookup (disk s) q = None -> os.lookup (disk t) q = Some x ->
     inside q \/ (os.isDir x = true /\ exists r, oelems = q ++ r)).

Definition confined (s t : World) : Prop := wd s = w -> confinedTo s t.

Lemma confinedTo_refl (s : World) : confinedTo s s.
Proof.
  split; [reflexivity|]. split; [eauto|]. split; [auto|].
  intros q x H1 H2. congruence.
Qed.

Lemma confinedTo_trans (s t u : World) :
  confinedTo s t -> confinedTo t u -> confinedTo s u.
Proof.
  intros (A1 & A2 & A3 & A4) (B1 & B2 & B3 & B4).
  split; [congruence|]. split; [|split].
  - intros q x Hq. destruct (A2 q x Hq) as (x' & Hx' & Hk').
    destruct (B2 q x' Hx') as (x'' & Hx'' & Hk''). exists x''. split; [exact Hx''|congruence].
  - intros q pm tm d Hout Hq. apply (B3 q pm tm d Hout). apply (A3 q pm tm d Hout Hq).
  - intros q x Hq Hx. destruct (os.lookup (disk t) q) as [y|] eqn:Ey.
    + destruct (A4 q y Hq Ey) as [Hin|[Hk Hway]]; [left; exact Hin|].
      right. split; [|exact Hway].
      destruct (B2 q y Ey) as (x' & Hx' & Hk'). rewrite Hx in Hx'. injection Hx' as <-.
      congruence.
    + exact (B4 q x Ey Hx).
Qed.

Lemma confined_refl (s : World) : confined s s.
Proof. intros _. apply confinedTo_refl. Qed.

Lemma confined_trans (s t u : World) : confined s t -> confined t u -> confined s u.
Proof.
  intros H1 H2 Hw. pose proof (H1 Hw) as H1'.
  apply (confinedTo_trans s t u H1'). apply H2. destruct H1' as [E _]. congruence.
Qed.

Lemma prefix_near (p q r r0 : list string) :
  p = q ++ r -> p = oelems ++ r0 -> inside q \/ exists r', oelems = q ++ r'.
Proof.
  intros Hp Ho. rewrite Hp in Ho. apply app_eq_app in Ho.
  destruct Ho as (l & [[H1 H2]|[H1 H2]]).
  - left. exists l. exact H1.
  - right. exists l. exact H1.
Qed.

(** An update at a place in the output directory. *)
Lemma confinedTo_update_inside (s : World) (mk : option os.FileMode)
    (leaf : option os.node -> string + os.node) (p : list string) (n : os.node) :
  goodLeaf leaf -> childless leaf -> inside p ->
  os.update mk leaf (disk s) p = inr n -> confinedTo s (setDisk s n).
Proof.
  intros Hgood Hch (r0 & Hp) Hu. split; [reflexivity|]. simpl. split; [|split].
  - intros q x Hq.
    destruct (lookup_update_old mk leaf p Hgood _ _ _ _ Hu Hq) as (x' & H1 & H2 & _). eauto.
  - intros q pm tm d Hout Hq.
    apply (lookup_update_file mk leaf p Hgood _ _ _ _ _ _ Hu Hq).
    intros ->. apply Hout. exists r0. exact Hp.
  - intros q x Hq Hx.
    destruct (lookup_update_fresh mk leaf p Hgood Hch _ _ _ _ Hu Hq Hx)
      as [(-> & _)|(pm & es & r & _ & -> & Hqr & _)].
    + left. exists r0. exact Hp.
    + destruct (prefix_near p q r r0 Hqr Hp) as [Hin|Hway]; [left; exact Hin|].
      right. split; [reflexivity | exact Hway].
Qed.

(** [MkdirAll] at a place in the output directory or on the way to
    it. *)
Lemma confinedTo_mkdir_near (s : World) (pm : os.FileMode) (p : list string) (n : os.node) :
  near p ->
  os.update (Some pm) (os.mkdirLeaf pm) (disk s) p = inr n -> confinedTo s (setDisk s n).
Proof.
  intros [Hin|(r0 & Hway)] Hu.
  { exact (confinedTo_update_inside s _ _ p n (goodLeaf_mkdir _) (childless_mkdir _) Hin Hu). }
  split; [reflexivity|]. simpl. split; [|split].
  - intros q x Hq.
    destruct (lookup_update_old _ _ p (goodLeaf_mkdir _) _ _ _ _ Hu Hq) as (x' & H1 & H2 & _).
    eauto.
  - intros q pm' tm d _ Hq.
    apply (lookup_update_file _ _ p (goodLeaf_mkdir _) _ _ _ _ _ _ Hu Hq).
    intros ->. destruct (lookup_update_new _ _ _ _ _ Hu) as (y & _ & Hl).
    rewrite Hq in Hl. discriminate.
  - intros q x Hq Hx. right.
    destruct (lookup_update_fresh _ _ p (goodLeaf_mkdir _) (childless_mkdir _)
                _ _ _ _ Hu Hq Hx)
      as [(-> & Hl)|(pm' & es & r & _ & -> & Hqr & _)].
    + simpl in Hl. injection Hl as <-. split; [reflexivity|]. eauto.
    + split; [reflexivity|]. exists (r ++ r0). rewrite Hway, Hqr, app_assoc. reflexivity.
Qed.

Lemma confined_bind {A B : Type} (m : M A) (wrap : error -> error) (k : A -> M B)
    (P : A -> Prop) :
  preserves confined m ->
  (forall s s' a, wd s = w -> m s = (s', Ok a) -> P a) ->
  (forall a, P a -> preserves confined (k a)) ->
  preserves confined (bind m wrap k).
Proof.
  intros Hm HP Hk s. unfold bind. specialize (Hm s).
  destruct (m s) as [s1 [a|e]] eqn:E; simpl in *; [|exact Hm].
  intros Hw. apply (confined_trans s s1 _ Hm); [|exact Hw].
  apply Hk. exact (HP s s1 a Hw E).
Qed.

Lemma confined_os_update (op path : string) (mk : option os.FileMode)
    (leaf : World -> option os.node -> string + os.node) (elems : list string) :
  (forall s n, os.update mk (leaf s) (disk s) elems = inr n -> confinedTo s (setDisk s n)) ->
  preserves confined (fun s => os_update op path mk (leaf s) elems s).
Proof.
  intros H s _. unfold os_update.
  destruct (os.update mk (leaf s) (disk s) elems) as [errno|n] eqn:E; simpl.
  - apply confinedTo_refl.
  - exact (H s n E).
Qed.

Lemma confined_MkdirAll (path : string) (perm : os.FileMode) :
  (forall elems, os.namei w path = Some elems -> near elems) ->
  preserves confined (os_MkdirAll path perm).
Proof.
  intros Hnear. unfold os_MkdirAll.
  apply (confined_bind _ _ _ near).
  - apply (@preserves_resolve _ confined_refl).
  - intros s s' a Hw H. apply resolve_Ok in H. destruct H as [_ H]. rewrite Hw in H.
    exact (Hnear a H).
  - intros elems Hel.
    apply (confined_os_update "mkdir" path _ (fun _ => os.mkdirLeaf (os.Perm perm)) elems).
    intros s n. apply confinedTo_mkdir_near. exact Hel.
Qed.

Lemma confined_Write (f : os.File_) (data : list Byte.byte) :
  inside f -> preserves confined (os_Write f data).
Proof.
  intros Hin. unfold os_Write.
  apply (confined_os_update "write" (strings.JoinSlash f) None
           (fun s => os.writeLeaf (clock s) data) f).
  intros s n. apply confinedTo_update_inside;
    [apply goodLeaf_write | apply childless_write | exact Hin].
Qed.

Lemma confined_OpenFile (path : string) (perm : os.FileMode) (k : os.File_ -> M unit) :
  (forall elems, os.namei w path = Some elems -> inside elems) ->
  (forall f, inside f -> preserves confined (k f)) ->
  preserves confined (bind (os_OpenFile path perm)
                        (fun err => Errorf ("create " ++ path) err) k).
Proof.
  intros Hin Hk.
  apply (confined_bind _ _ _ inside).
  - unfold os_OpenFile.
    apply (confined_bind _ _ _ inside).
    + apply (@preserves_resolve _ confined_refl).
    + intros s s' a Hw H. apply resolve_Ok in H. destruct H as [_ H]. rewrite Hw in H.
      exact (Hin a H).
    + intros elems Hel.
      apply (@preserves_bind _ confined_trans); [|intros; apply (@preserves_ret _ confined_refl)].
      apply (confined_os_update "open" path None
               (fun s => os.truncLeaf (os.Perm perm) (clock s)) elems).
      intros s n. apply confinedTo_update_inside;
        [apply goodLeaf_trunc | apply childless_trunc | exact Hel].
  - intros s s' a Hw H. apply os_OpenFile_Ok in H. destruct H as (n' & Hn & _).
    rewrite Hw in Hn. exact (Hin a Hn).
  - exact Hk.
Qed.

Lemma confined_Chtimes (path : string) (atime mtime : Z) :
  (forall elems, os.namei w path = Some elems -> inside elems) ->
  preserves confined (os_Chtimes path atime mtime).
Proof.
  intros Hin. unfold os_Chtimes.
  apply (confined_bind _ _ _ inside).
  - apply (@preserves_resolve _ confined_refl).
  - intros s s' a Hw H. apply resolve_Ok in H. destruct H as [_ H]. rewrite Hw in H.
    exact (Hin a H).
  - intros elems Hel.
    apply (confined_os_update "chtimes" path None (fun _ => os.chtimesLeaf mtime) elems).
    intros s n. apply confinedTo_update_inside;
      [apply goodLeaf_chtimes | apply childless_chtimes | exact Hel].
Qed.

Lemma confined_sink (out : io.Writer) (text : string) :
  preserves confined (Fprintf out text).
Proof.
  intros s _. destruct out; simpl; [apply confinedTo_refl|].
  split; [reflexivity|]. simpl. split; [eauto|]. split; [auto|].
  intros q x H1 H2. congruence.
Qed.

Lemma confined_extractFile (f : zip.File) (destPath : string) (overwrite : bool)
    (out : io.Writer) :
  (forall elems, os.namei w destPath = Some elems -> inside elems) ->
  (forall elems, os.namei w (filepath.Dir destPath) = Some elems -> near elems) ->
  preserves confined (extractFile f destPath overwrite out).
Proof.
  intros Hin Hnear. unfold extractFile.
  apply (@preserves_bind _ confined_trans).
  { destruct overwrite; simpl; [apply (@preserves_ret _ confined_refl)|].
    intros s. pose proof (os_Stat_state destPath s) as E.
    destruct (os_Stat destPath s) as [s1 [|]]; simpl in *; subst; apply confined_refl. }
  intros _. apply (@preserves_bind _ confined_trans); [apply confined_MkdirAll; exact Hnear|].
  intros _. apply (@preserves_bind _ confined_trans); [apply (@preserves_pure _ confined_refl)|].
  intros rc. apply (confined_OpenFile destPath _ _ Hin).
  intros f0 Hf0. apply (@preserves_bind _ confined_trans).
  - unfold io_Copy. apply (@preserves_bind _ confined_trans).
    + apply confined_Write. exact Hf0.
    + intros _. destruct (snd rc);
        [apply (@preserves_fail _ confined_refl) | apply (@preserves_ret _ confined_refl)].
  - intros _. apply confined_sink.
Qed.

Hypothesis absolute : filepath.IsAbs w = true.

Lemma confined_placeEntry (opts : UnzipOptions) (out : io.Writer) (od name : string)
    (f : zip.File) :
  od <> ""%string -> os.namei w od = Some oelems ->
  preserves confined
    (placeEntry opts out (filepath.Abs w od) f (filepath.Join [od; name])).
Proof.
  intros Hod Ho s Hw.
  set (dest := filepath.Join [od; name]).
  destruct (negb (strings.HasPrefix (filepath.Abs (wd s) dest)
                    (filepath.Abs w od ++ String filepath.Separator ""))
            && negb (filepath.Abs (wd s) dest =? filepath.Abs w od)%string) eqn:E.
  { unfold placeEntry, bind, filepath_Abs. rewrite E. apply confinedTo_refl. }
  apply guard_within in E.
  rewrite (placeEntry_within opts out _ f dest s E).
  rewrite Hw in E.
  assert (Hin : forall elems, os.namei w dest = Some elems -> inside elems).
  { intros elems He. exact (within_elems w od dest oelems elems absolute Ho He E). }
  assert (Hnear : forall elems, os.namei w (filepath.Dir dest) = Some elems -> near elems).
  { intros elems He.
    destruct (nameiRev_Join w od name Hod) as [_ Hne]. fold dest in Hne.
    assert (Hd : os.namei w dest = Some (rev (os.nameiRev w dest))).
    { unfold os.namei. apply String.eqb_neq in Hne. rewrite Hne. reflexivity. }
    destruct (Hin _ Hd) as (r & Hr).
    pose proof (nameiRev_Dir_Clean w (od ++ "/" ++ name)) as [_ Hcases].
    rewrite <- (Join_pair od name Hod) in Hcases. fold dest in Hcases.
    unfold os.namei in He.
    destruct (filepath.Dir dest =? "")%string; [discriminate|]. injection He as <-.
    destruct Hcases as [H|[H|(x & H)]]; rewrite H.
    - rewrite rev_tl, Hr. destruct r as [|a r] using rev_ind.
      + rewrite app_nil_r. right.
        destruct oelems as [|o O] using rev_ind.
        * exists []. reflexivity.
        * rewrite removelast_last. exists [o]. reflexivity.
      + left. rewrite app_assoc, removelast_last. exists r. reflexivity.
    - left. exists r. exact Hr.
    - left. simpl. rewrite Hr. exists (r ++ [x]). rewrite app_assoc. reflexivity. }
  destruct (zip.IsDir f).
  - apply (@preserves_wrapErr confined); [|exact Hw].
    apply confined_MkdirAll. intros elems He. left. exact (Hin elems He).
  - apply (@preserves_bind _ confined_trans); [| |exact Hw].
    + apply confined_extractFile; assumption.
    + intros _. apply (@preserves_wrapErr confined). apply confined_Chtimes. exact Hin.
Qed.

Lemma confined_unzipEntry (opts : UnzipOptions) (out : io.Writer) (f : zip.File) :
  os.namei w (outputDirOf opts) = Some oelems ->
  preserves confined
    (unzipEntry opts out (outputDirOf opts) (filepath.Abs w (outputDirOf opts)) f).
Proof.
  intros Ho. unfold unzipEntry.
  apply (@preserves_if confined); [apply (@preserves_ret _ confined_refl)|].
  apply confined_placeEntry; [apply outputDirOf_nonempty | exact Ho].
Qed.

End Confined.

(** [Unzip] when the archive cannot be read: nothing is done. *)
Lemma Unzip_open_error (codec : zip.Codec) (zipPath : string) (opts : UnzipOptions)
    (s : World) (e : error) :
  snd (zip_OpenReader codec zipPath s) = Err e ->
  Unzip codec zipPath opts s = (s, Err (Errorf "open archive" e)).
Proof.
  intros H. unfold Unzip, bind, filepath_Abs.
  pose proof (zip_OpenReader_state codec zipPath s) as Hs.
  destruct (zip_OpenReader codec zipPath s) as [s1 [fl|e']]; simpl in *; [discriminate|].
  subst s1. injection H as ->. reflexivity.
Qed.

(** X6. Whatever the archive holds and whatever [Unzip] returns: nothing
    that was in the tree is removed or changes its kind; no regular file
    outside the output directory is changed; and everything that is added
    is at or below the output directory, or is a directory on the way to
    it. *)
Theorem Unzip_confined (codec : zip.Codec) (zipPath : string) (opts : UnzipOptions)
    (s : World) (oelems : list string) :
  filepath.IsAbs (wd s) = true ->
  os.namei (wd s) (outputDirOf opts) = Some oelems ->
  let s' := fst (Unzip codec zipPath opts s) in
  (forall q x, os.lookup (disk s) q = Some x ->
     exists x', os.lookup (disk s') q = Some x' /\ os.isDir x' = os.isDir x) /\
  (forall q pm tm d,
     (forall r, q <> oelems ++ r) ->
     os.lookup (disk s) q = Some (os.File pm tm d) ->
     os.lookup (disk s') q = Some (os.File pm tm d)) /\
  (forall q x, os.lookup (disk s) q = None -> os.lookup (disk s') q = Some x ->
     (exists r, q = oelems ++ r) \/
     (os.isDir x = true /\ exists r, oelems = q ++ r)).
Proof.
  intros Habs Ho s'. subst s'.
  assert (H : confinedTo oelems s (fst (Unzip codec zipPath opts s))).
  { destruct (snd (zip_OpenReader codec zipPath s)) as [fl|e] eqn:Hopen.
    - rewrite (Unzip_loop codec zipPath opts s fl Hopen).
      apply (@preserves_forRange (confined (wd s) oelems)
               (confined_refl (wd s) oelems) (confined_trans (wd s) oelems) _ fl
               _ (fun f => confined_unzipEntry (wd s) oelems Habs opts _ f Ho) s eq_refl).
    - rewrite (Unzip_open_error codec zipPath opts s e Hopen). apply confinedTo_refl. }
  destruct H as (_ & H2 & H3 & H4). split; [exact H2|]. split; [|exact H4].
  intros q pm tm d Hout. apply H3. intros (r & Hr). exact (Hout r Hr).
Qed.

Lemma Unzip_confined_witness :
  let s := Examples.nestedWorld in
  let s' := fst (Unzip refcodec.codec "/n.zip" (Examples.unzipOpts true) s) in
  (forall q x, os.lookup (disk s) q = Some x ->
     exists x', os.lookup (disk s') q = Some x' /\ os.isDir x' = os.isDir x) /\
  (forall q pm tm d,
     (forall r, q <> ["tmp"; "out"] ++ r) ->
     os.lookup (disk s) q = Some (os.File pm tm d) ->
     os.lookup (disk s') q = Some (os.File pm tm d)) /\
  (forall q x, os.lookup (disk s) q = None -> os.lookup (disk s') q = Some x ->
     (exists r, q = ["tmp"; "out"] ++ r) \/
     (os.isDir x = true /\ exists r, ["tmp"; "out"] = q ++ r)).
Proof.
  exact (Unzip_confined refcodec.codec "/n.zip" (Examples.unzipOpts true)
           Examples.nestedWorld ["tmp"; "out"] eq_refl eq_refl).
Defined.

(** X7. (On a path in cleaned form, from a working directory that is a
    directory, the lexical resolution of the model is the resolution of
    the system.)  For an archive path in cleaned form, seen from a working
    directory that is a directory: when the path names nothing, [Unzip]
    returns the error
    ["open archive: open <path>: no such file or directory"] if no regular
    file lies on the way to it and
    ["open archive: open <path>: not a directory"] if one does; when the
    file is there and the reader rejects its content with an error,
    [Unzip] returns that error behind ["open archive: "].  In all cases
    nothing is extracted and nothing is changed. *)
Theorem Unzip_cannot_open (codec : zip.Codec) (zipPath : string) (opts : UnzipOptions)
    (s : World) (welems zelems : list string) :
  os.namei (wd s) "." = Some welems -> isDirectory (disk s) welems ->
  filepath.Clean zipPath = zipPath ->
  os.namei (wd s) zipPath = Some zelems ->
  (os.lookup (disk s) zelems = None ->
   (clearWay (disk s) zelems ->
    Unzip codec zipPath opts s =
    (s, Err (errorString
               ("open archive: open " ++ zipPath ++ ": no such file or directory")))) /\
   (forall q r pm t d,
      zelems = q ++ r -> r <> [] -> os.lookup (disk s) q = Some (os.File pm t d) ->
      Unzip codec zipPath opts s =
      (s, Err (errorString ("open archive: open " ++ zipPath ++ ": not a directory"))))) /\
  (forall pm t data e,
     os.lookup (disk s) zelems = Some (os.File pm t data) ->
     zip.decode codec data = Err e ->
     Unzip codec zipPath opts s = (s, Err (errorString ("open archive: " ++ Error e)))).
Proof.
  intros _ _ _ Hn. split.
  - intros Hl.
    assert (Hrun : Unzip codec zipPath opts s =
                   (s, Err (errorString
                              ("open archive: open " ++ zipPath ++ ": "
                               ++ os.lookupErrno (disk s) zelems)))).
    { apply (Unzip_open_error codec zipPath opts s
               (os.PathError "open" zipPath (os.lookupErrno (disk s) zelems))).
      unfold zip_OpenReader, os_Open, resolve, bind. rewrite Hn, Hl. reflexivity. }
    destruct (lookupErrno_spec zelems (disk s) Hl) as [E1 E2]. split.
    + intros Hc. rewrite Hrun, (E1 Hc). reflexivity.
    + intros q r pm t d Hq Hr Hf. rewrite Hrun, (E2 q r pm t d Hq Hr Hf). reflexivity.
  - intros pm t data e Hl Hd. apply (Unzip_open_error codec zipPath opts s e).
    unfold zip_OpenReader, os_Open, resolve, os_reader, bind.
    rewrite Hn. rewrite Hl. cbn [fst snd]. rewrite Hl. cbn [fst snd]. rewrite Hd.
    reflexivity.
Qed.

Lemma Unzip_cannot_open_witness :
  Unzip refcodec.codec "/none.zip" (Examples.unzipOpts true) Examples.srcWorld =
  (Examples.srcWorld,
   Err (errorString "open archive: open /none.zip: no such file or directory")) /\
  Unzip refcodec.codec "hello.txt/a.zip" (Examples.unzipOpts true) Examples.srcWorld =
  (Examples.srcWorld,
   Err (errorString "open archive: open hello.txt/a.zip: not a directory")) /\
  Unzip refcodec.codec "hello.txt" (Examples.unzipOpts true) Examples.srcWorld =
  (Examples.srcWorld, Err (errorString "open archive: zip: not a valid zip file")).
Proof.
  assert (Hwd : isDirectory (disk Examples.srcWorld) ["src"])
    by (eexists; split; reflexivity).
  split; [|split].
  - refine (proj1 (proj1 (Unzip_cannot_open refcodec.codec "/none.zip"
                            (Examples.unzipOpts true) Examples.srcWorld
                            ["src"] ["none.zip"] eq_refl Hwd eq_refl eq_refl)
                         eq_refl) _).
    clear_way.
  - refine (proj2 (proj1 (Unzip_cannot_open refcodec.codec "hello.txt/a.zip"
                            (Examples.unzipOpts true) Examples.srcWorld
                            ["src"] ["src"; "hello.txt"; "a.zip"] eq_refl Hwd eq_refl eq_refl)
                         eq_refl)
                  ["src"; "hello.txt"] ["a.zip"] 420%Z 100%Z (Examples.bytes "hello world")
                  eq_refl _ eq_refl).
    discriminate.
  - refine (proj2 (Unzip_cannot_open refcodec.codec "hello.txt" (Examples.unzipOpts true)
                     Examples.srcWorld ["src"] ["src"; "hello.txt"] eq_refl Hwd eq_refl eq_refl)
                  420%Z 100%Z (Examples.bytes "hello world")
                  (errorString "zip: not a valid zip file") _ _); reflexivity.
Defined.

(** * The entries of [Unzip], one by one *)

Definition inflatingLine (destPath : string) : string :=
  "  inflating: " ++ destPath ++ String "010" "".

(** The entry is one [Unzip] extracts as a file: it is not filtered out
    and is not a directory. *)
Definition extracts (opts : UnzipOptions) (f : zip.File) : bool :=
  negb ((0 <? List.length (FilePatterns opts))%nat
        && negb (matchesAny (zip.Name (zip.Header f)) (FilePatterns opts)))
  && negb (zip.IsDir f).

Lemma extractFile_sink (f : zip.File) (destPath : string) (overwrite : bool)
    (out : io.Writer) (s s' : World) :
  extractFile f destPath overwrite out s = (s', Ok tt) ->
  sink s' =
  (sink s ++ match out with io.Sink => inflatingLine destPath | io.Discard => "" end)%string.
Proof.
  unfold extractFile. intros H.
  apply bind_Ok in H. destruct H as (s0 & [] & Hstat & H).
  assert (Hs0 : s0 = s).
  { destruct overwrite; simpl in Hstat.
    - unfold ret in Hstat. injection Hstat as <-. reflexivity.
    - pose proof (os_Stat_state destPath s) as Hst.
      destruct (os_Stat destPath s) as [s1 [fi|e]]; [discriminate|].
      simpl in Hst. subst s1. injection Hstat as <-. reflexivity. }
  subst s0.
  apply bind_Ok in H. destruct H as (s1 & [] & Hmk & H).
  apply os_MkdirAll_Ok in Hmk. destruct Hmk as (delems & n1 & Hd & Hu1 & ->).
  apply bind_Ok in H. destruct H as (s2 & rc & Hopen & H).
  injection Hopen as <- Hopen.
  apply bind_Ok in H. destruct H as (s3 & w & Hof & H).
  apply os_OpenFile_Ok in Hof. destruct Hof as (n2 & He & Hu2 & ->).
  apply bind_Ok in H. destruct H as (s4 & z & Hcp & H).
  unfold io_Copy in Hcp. apply bind_Ok in Hcp. destruct Hcp as (s5 & [] & Hw & Hcp).
  apply os_Write_Ok in Hw. destruct Hw as (n3 & Hu3 & ->).
  destruct rc as [data [e|]]; simpl in Hcp; [discriminate|].
  unfold ret in Hcp. injection Hcp as <- _.
  pose proof (sinkText out ("  inflating: " ++ destPath ++ String "010" "")
                (setDisk (setDisk (setDisk s n1) n2) n3)) as Hsink.
  rewrite H in Hsink. exact Hsink.
Qed.

(** What the status sink receives for an entry that is processed without
    an error. *)
Lemma unzipEntry_sink (opts : UnzipOptions) (out : io.Writer)
    (outputDir absOutputDir : string) (f : zip.File) (s s' : World) :
  unzipEntry opts out outputDir absOutputDir f s = (s', Ok tt) ->
  sink s' =
  (sink s ++ if extracts opts f
             then match out with
                  | io.Sink =>
                      inflatingLine (filepath.Join [outputDir; targetName opts f])
                  | io.Discard => ""
                  end
             else "")%string.
Proof.
  intros H. unfold extracts.
  destruct (unzipEntry_skipped_or_placed opts out outputDir absOutputDir f s)
    as [[Hns E]|[Hsel E]]; rewrite E in H.
  - injection H as <-.
    destruct ((0 <? List.length (FilePatterns opts))%nat
              && negb (matchesAny (zip.Name (zip.Header f)) (FilePatterns opts))) eqn:Ec.
    + simpl. rewrite append_empty_r. reflexivity.
    + exfalso. apply Hns. apply selected_dec. exact Ec.
  - apply selected_dec in Hsel. rewrite Hsel. simpl negb. simpl andb.
    apply placeEntry_Ok in H. destruct H as [_ H].
    destruct (zip.IsDir f); simpl negb.
    + apply os_MkdirAll_Ok in H. destruct H as (elems & n' & _ & _ & ->).
      simpl. rewrite append_empty_r. reflexivity.
    + destruct H as (s1 & Hex & Hch).
      apply extractFile_sink in Hex.
      apply os_Chtimes_Ok in Hch. destruct Hch as (elems & n' & _ & _ & ->).
      simpl. exact Hex.
Qed.

Lemma unzipRange_sink (opts : UnzipOptions) (out : io.Writer) (absOutputDir : string)
    (files : list zip.File) :
  forall a b,
    forRange files (unzipEntry opts out (outputDirOf opts) absOutputDir) a = (b, Ok tt) ->
    sink b =
    (sink a ++ match out with
               | io.Sink =>
                   lines (map (fun f => inflatingLine (destPathOf opts f))
                            (filter (extracts opts) files))
               | io.Discard => ""
               end)%string.
Proof.
  induction files as [|f fl IH]; intros a b H.
  - simpl in H. unfold ret in H. injection H as <-.
    destruct out; simpl; rewrite append_empty_r; reflexivity.
  - simpl in H. apply bind_Ok in H. destruct H as (a1 & [] & Hf & Hrest).
    rewrite (IH a1 b Hrest). apply unzipEntry_sink in Hf. rewrite Hf.
    fold (destPathOf opts f). cbn [filter].
    destruct (extracts opts f); destruct out; cbn [map lines fold_right];
      rewrite ?append_empty_r, ?append_assoc; reflexivity.
Qed.

(** X8. An extraction that returns no error has sent the status sink,
    when one was given, one line ["  inflating: <destination>"] for every
    file entry that was not filtered out, in the order of the archive, and
    nothing for the directory entries and the entries filtered out. *)
Theorem Unzip_status (codec : zip.Codec) (zipPath : string) (opts : UnzipOptions)
    (s s' : World) (files : list zip.File) :
  snd (zip_OpenReader codec zipPath s) = Ok files ->
  Unzip codec zipPath opts s = (s', Ok tt) ->
  sink s' =
  (sink s ++ if UnzipOutput opts
             then lines (map (fun f => inflatingLine (destPathOf opts f))
                           (filter (extracts opts) files))
             else "")%string.
Proof.
  intros Hopen Hrun. rewrite (Unzip_loop codec zipPath opts s files Hopen) in Hrun.
  rewrite (unzipRange_sink opts _ _ files s s' Hrun). unfold statusWriter.
  destruct (UnzipOutput opts); reflexivity.
Qed.

Lemma Unzip_status_witness :
  sink (fst (Unzip refcodec.codec "/n.zip" (mkUnzipOptions "/tmp/out" true false [] true)
               Examples.nestedWorld)) =
  ("  inflating: /tmp/out/a/b/f.txt" ++ String "010" "")%string.
Proof.
  refine (Unzip_status refcodec.codec "/n.zip" (mkUnzipOptions "/tmp/out" true false [] true)
            Examples.nestedWorld _ [Examples.nestedEntry] _ _).
  - reflexivity.
  - vm_compute. reflexivity.
Defined.

(** X9. A file entry that is processed without an error is, at its
    destination, a regular file with the content of the entry and, as its
    modification time, the time stored for the entry. *)
Theorem unzipEntry_restores_time (opts : UnzipOptions) (out : io.Writer)
    (absOutputDir : string) (f : zip.File) (s s' : World) :
  unzipEntry opts out (outputDirOf opts) absOutputDir f s = (s', Ok tt) ->
  selected opts f -> zip.IsDir f = false ->
  exists elems data pm,
    os.namei (wd s) (destPathOf opts f) = Some elems /\
    zip.Open f = Ok (data, None) /\
    os.lookup (disk s') elems =
      Some (os.File pm (zip.Modified (zip.Header f)) data).
Proof.
  intros H Hsel Hfile.
  rewrite (unzipEntry_selected opts _ _ _ f Hsel) in H.
  fold (targetName opts f) in H. fold (destPathOf opts f) in H.
  apply placeEntry_Ok in H. destruct H as [_ H]. rewrite Hfile in H.
  destruct H as (s1 & Hex & Hch).
  pose proof Hex as Hsteps. apply extractFile_Ok in Hsteps.
  destruct Hsteps as (delems & elems & n1 & n2 & n3 & data & _ & _ & _ & Hopen & He & _).
  destruct (extractFile_file f _ _ out s s1 elems data Hex He Hopen) as (Hwd & pm & Hl).
  apply os_Chtimes_Ok in Hch. destruct Hch as (elems' & n4 & He' & Hu4 & ->).
  rewrite Hwd, He in He'. injection He' as <-.
  exists elems, data, pm. split; [exact He|]. split; [exact Hopen|].
  destruct (lookup_update_new _ _ _ _ _ Hu4) as (y & Hy & Hleaf).
  rewrite Hl in Hleaf. simpl in Hleaf. injection Hleaf as <-. exact Hy.
Qed.

Lemma unzipEntry_restores_time_witness :
  exists pm,
    os.lookup
      (disk (fst (unzipEntry (Examples.unzipOpts true) io.Discard "/tmp/out" "/tmp/out"
                    Examples.nestedEntry Examples.nestedWorld)))
      ["tmp"; "out"; "a"; "b"; "f.txt"] =
    Some (os.File pm 100%Z (Examples.bytes "hello")).
Proof.
  destruct (unzipEntry_restores_time (Examples.unzipOpts true) io.Discard "/tmp/out"
              Examples.nestedEntry Examples.nestedWorld
              (fst (unzipEntry (Examples.unzipOpts true) io.Discard "/tmp/out" "/tmp/out"
                      Examples.nestedEntry Examples.nestedWorld)))
    as (elems & data & pm & Hn & Ho & Hl).
  - vm_compute. reflexivity.
  - left. reflexivity.
  - reflexivity.
  - vm_compute in Hn. injection Hn as <-.
    simpl in Ho. injection Ho as <-.
    exists pm. exact Hl.
Defined.

(** The owner of a directory of this mode may add names to it and go
    through it: the bits 0200 and 0100.  For the process of an ordinary
    user this is what lets [MkdirAll] make a directory in one it has just
    made. *)
Definition ownerMayAdd (m : os.FileMode) : Prop :=
  Z.testbit m 7 = true /\ Z.testbit m 6 = true.

(** X10. A directory entry that is not filtered out and whose
    destination passes the check is extracted, whatever [Overwrite] says,
    whenever no regular file is at its destination or on the way to it
    and the directories [MkdirAll] makes can take the next one: the mode
    of the entry lets the owner add names to a directory, or the directory
    the destination is to be in is there already.  Once it is extracted
    nothing has been sent to the status sink; a directory that was at the
    destination is there as it was; and every directory that was missing,
    the destination and those on the way to it, is there with the
    permission bits of the mode of the entry. *)
Theorem unzipEntry_directory (opts : UnzipOptions) (out : io.Writer)
    (absOutputDir : string) (f : zip.File) (s : World) (elems : list string) :
  selected opts f -> zip.IsDir f = true ->
  within absOutputDir (filepath.Abs (wd s) (destPathOf opts f)) ->
  os.namei (wd s) (destPathOf opts f) = Some elems ->
  (clearWay (disk s) elems ->
   (forall pm t d, os.lookup (disk s) elems <> Some (os.File pm t d)) ->
   ownerMayAdd (zip.Mode (zip.Header f)) \/ isDirectory (disk s) (removelast elems) ->
   exists s', unzipEntry opts out (outputDirOf opts) absOutputDir f s = (s', Ok tt)) /\
  (forall s',
     unzipEntry opts out (outputDirOf opts) absOutputDir f s = (s', Ok tt) ->
     sink s' = sink s /\
     (forall x, os.lookup (disk s) elems = Some x -> os.lookup (disk s') elems = Some x) /\
     (forall q r, elems = q ++ r -> os.lookup (disk s) q = None ->
        exists es,
          os.lookup (disk s') q = Some (os.Dir (os.Perm (zip.Mode (zip.Header f))) es))).
Proof.
  intros Hsel Hdir Hw Hn.
  rewrite (unzipEntry_selected opts _ _ _ f Hsel).
  fold (targetName opts f). fold (destPathOf opts f).
  rewrite (placeEntry_within opts out _ f _ s Hw), Hdir.
  set (perm := os.Perm (zip.Mode (zip.Header f))).
  split.
  - intros Hc Hnf _.
    assert (Hl : exists y, os.mkdirLeaf perm (os.lookup (disk s) elems) = inr y).
    { destruct (os.lookup (disk s) elems) as [[pm t d|pm es]|] eqn:E; simpl; eauto.
      exfalso. exact (Hnf pm t d eq_refl). }
    destruct Hl as (y & Hl).
    destruct (update_mk_succeeds perm (os.mkdirLeaf perm) elems (disk s) y Hc Hl)
      as (n' & Hu).
    exists (setDisk s n'). unfold wrapErr.
    rewrite (os_MkdirAll_run _ _ s elems n' Hn Hu). reflexivity.
  - intros s' H. apply wrapErr_Ok in H. apply os_MkdirAll_Ok in H.
    destruct H as (elems' & n' & Hn' & Hu & ->).
    rewrite Hn in Hn'. injection Hn' as <-. fold perm in Hu.
    split; [reflexivity|]. simpl. split.
    + intros x Hx. destruct (lookup_update_new _ _ _ _ _ Hu) as (y & Hy & Hl).
      rewrite Hx in Hl. destruct x as [pm t d|pm es]; simpl in Hl; [discriminate|].
      injection Hl as <-. exact Hy.
    + intros q r Hqr Hnone.
      destruct (lookup_update_prefix _ _ _ _ _ q r Hu Hqr) as (x & Hx).
      destruct (lookup_update_fresh _ _ _ (goodLeaf_mkdir _) (childless_mkdir _)
                  _ _ _ _ Hu Hnone Hx)
        as [(_ & Hl)|(pm & es & r' & Hpm & -> & _ & _)].
      * simpl in Hl. injection Hl as <-. eauto.
      * injection Hpm as <-. eauto.
Qed.

Lemma unzipEntry_directory_witness :
  exists s',
    unzipEntry (Examples.unzipOpts false) io.Discard "/tmp/out" "/tmp/out"
      Examples.dirEntry Examples.dirWorld = (s', Ok tt) /\
    sink s' = sink Examples.dirWorld /\
    exists es, os.lookup (disk s') ["tmp"; "out"] = Some (os.Dir 493%Z es).
Proof.
  destruct (unzipEntry_directory (Examples.unzipOpts false) io.Discard "/tmp/out"
              Examples.dirEntry Examples.dirWorld ["tmp"; "out"; "d"])
    as [Hruns Hthen].
  - left. reflexivity.
  - reflexivity.
  - right. exists "d". reflexivity.
  - reflexivity.
  - destruct Hruns as (s' & Hs').
    + clear_way.
    + intros pm t d H. vm_compute in H. discriminate H.
    + left. split; reflexivity.
    + exists s'. split; [exact Hs'|].
      destruct (Hthen s' Hs') as (Hsink & _ & Hnew).
      split; [exact Hsink|].
      exact (Hnew ["tmp"; "out"] ["d"] eq_refl eq_refl).
Defined.

(** ** An entry that cannot be read to its end *)

(** The changes of the tree [extractFile] makes on its way, when no
    regular file lies on the way to the destination and no directory is at
    it: the directories, the file, emptied, and the file with what was
    read. *)
Lemma extract_steps (mode : os.FileMode) (s : World) (delems : list string) (x : string)
    (data : list Byte.byte) :
  clearWay (disk s) (delems ++ [x]) ->
  (forall pm es, os.lookup (disk s) (delems ++ [x]) <> Some (os.Dir pm es)) ->
  exists n1 n2 n3 pm,
    os.update (Some (os.Perm 493%Z)) (os.mkdirLeaf (os.Perm 493%Z)) (disk s) delems = inr n1 /\
    os.update None (os.truncLeaf (os.Perm mode) (clock s)) n1 (delems ++ [x]) = inr n2 /\
    os.update None (os.writeLeaf (clock s) data) n2 (delems ++ [x]) = inr n3 /\
    os.lookup n3 (delems ++ [x]) = Some (os.File pm (clock s) data) /\
    os.lookup n1 (delems ++ [x]) = os.lookup (disk s) (delems ++ [x]) /\
    isDirectory n1 delems.
Proof.
  intros Hc Hnd.
  assert (Hl1 : exists y, os.mkdirLeaf (os.Perm 493%Z) (os.lookup (disk s) delems) = inr y).
  { destruct (os.lookup (disk s) delems) as [[pm t d|pm es]|] eqn:E; simpl; eauto.
    exfalso. apply (Hc delems [x] pm t d eq_refl); [discriminate | exact E]. }
  destruct Hl1 as (y1 & Hl1).
  destruct (update_mk_succeeds (os.Perm 493%Z) (os.mkdirLeaf (os.Perm 493%Z)) delems
              (disk s) y1 (clearWay_prefix _ _ _ Hc) Hl1) as (n1 & Hu1).
  destruct (lookup_update_new _ _ _ _ _ Hu1) as (y1' & Hy1 & Hl1').
  rewrite Hl1 in Hl1'. injection Hl1' as <-.
  assert (Hdir1 : exists pm es, y1 = os.Dir pm es).
  { destruct (os.lookup (disk s) delems) as [[pm t d|pm es]|]; simpl in Hl1;
      inversion Hl1; eauto. }
  destruct Hdir1 as (pm1 & es1 & ->).
  assert (Hsame : os.lookup n1 (delems ++ [x]) = os.lookup (disk s) (delems ++ [x])).
  { destruct (os.lookup (disk s) (delems ++ [x])) as [x0|] eqn:E0.
    - destruct x0 as [pm0 t0 d0|pm0 es0]; [|exfalso; exact (Hnd pm0 es0 eq_refl)].
      apply (lookup_update_file _ _ _ (goodLeaf_mkdir _) _ _ _ _ _ _ Hu1 E0).
      intros E. symmetry in E. revert E. apply app_longer. discriminate.
    - destruct (os.lookup n1 (delems ++ [x])) as [x1|] eqn:E1; [|reflexivity]. exfalso.
      destruct (lookup_update_fresh _ _ _ (goodLeaf_mkdir _) (childless_mkdir _)
                  _ _ _ _ Hu1 E0 E1)
        as [(Heq & _)|(pm' & es' & r & _ & _ & Heq & Hr)].
      + symmetry in Heq. revert Heq. apply app_longer. discriminate.
      + rewrite <- app_assoc in Heq. revert Heq. apply app_longer. discriminate. }
  assert (Hl2 : exists pm, os.truncLeaf (os.Perm mode) (clock s)
                             (os.lookup n1 (delems ++ [x])) = inr (os.File pm (clock s) [])).
  { rewrite Hsame.
    destruct (os.lookup (disk s) (delems ++ [x])) as [[pm t d|pm es]|] eqn:E; simpl; eauto.
    exfalso. exact (Hnd pm es eq_refl). }
  destruct Hl2 as (pm2 & Hl2).
  destruct (update_child_succeeds None _ delems x n1 pm1 es1 _ Hy1 Hl2) as (n2 & Hu2).
  destruct (lookup_update_new _ _ _ _ _ Hu2) as (y2 & Hy2 & Hl2').
  rewrite Hl2 in Hl2'. injection Hl2' as <-.
  destruct (update_succeeds None (os.writeLeaf (clock s) data)
              (delems ++ [x]) n2 _ (os.File pm2 (clock s) ([] ++ data)) Hy2 eq_refl)
    as (n3 & Hu3).
  destruct (lookup_update_new _ _ _ _ _ Hu3) as (y3 & Hy3 & Hl3).
  rewrite Hy2 in Hl3. simpl in Hl3. injection Hl3 as <-.
  exists n1, n2, n3, pm2. repeat split; auto.
  exists (os.Dir pm1 es1). split; [exact Hy1 | reflexivity].
Qed.

(** X11. When the directory of the destination can be made and the
    destination is no directory: an entry that cannot be opened ends
    [extractFile] with the error behind ["open entry <name>: "], after the
    directory of the destination has been made and with the destination as
    it was; an entry whose content ends with a read error ends it with
    the error behind ["extract <name>: "], and the destination is left as
    a regular file that holds what was read before the error; in both
    cases the status sink has received nothing. *)
Theorem extractFile_unreadable (f : zip.File) (destPath : string) (overwrite : bool)
    (out : io.Writer) (s : World) (delems : list string) (x : string) :
  os.namei (wd s) (filepath.Dir destPath) = Some delems ->
  os.namei (wd s) destPath = Some (delems ++ [x]) ->
  clearWay (disk s) (delems ++ [x]) ->
  (forall pm es, os.lookup (disk s) (delems ++ [x]) <> Some (os.Dir pm es)) ->
  (overwrite = false -> os.lookup (disk s) (delems ++ [x]) = None) ->
  (forall e, zip.Open f = Err e ->
     exists s',
       extractFile f destPath overwrite out s =
         (s', Err (errorString ("open entry " ++ zip.Name (zip.Header f) ++ ": " ++ Error e))) /\
       isDirectory (disk s') delems /\
       os.lookup (disk s') (delems ++ [x]) = os.lookup (disk s) (delems ++ [x]) /\
       sink s' = sink s) /\
  (forall data e, zip.Open f = Ok (data, Some e) ->
     exists s' pm,
       extractFile f destPath overwrite out s =
         (s', Err (errorString ("extract " ++ zip.Name (zip.Header f) ++ ": " ++ Error e))) /\
       os.lookup (disk s') (delems ++ [x]) = Some (os.File pm (clock s) data) /\
       sink s' = sink s).
Proof.
  intros Hd He Hc Hnd Hfree.
  assert (Hstat : (if negb overwrite
                   then fun s0 =>
                          match os_Stat destPath s0 with
                          | (s', Ok _) =>
                              (s', Err (errorString
                                          ("file exists: " ++ destPath ++
                                           " (use overwrite option)")))
                          | (s', Err _) => (s', Ok tt)
                          end
                   else ret tt) s = (s, Ok tt)).
  { destruct overwrite; [reflexivity|]. simpl.
    unfold os_Stat, bind, resolve. rewrite He, (Hfree eq_refl). reflexivity. }
  split.
  - intros e Hopen.
    destruct (extract_steps (zip.Mode (zip.Header f)) s delems x [] Hc Hnd)
      as (n1 & _ & _ & _ & Hu1 & _ & _ & _ & Hsame & Hdir).
    exists (setDisk s n1). split; [|repeat split; assumption].
    unfold extractFile.
    erewrite bind_run by exact Hstat.
    erewrite bind_run by (apply (os_MkdirAll_run _ _ s delems n1 Hd Hu1)).
    unfold bind at 1. rewrite Hopen. reflexivity.
  - intros data e Hopen.
    destruct (extract_steps (zip.Mode (zip.Header f)) s delems x data Hc Hnd)
      as (n1 & n2 & n3 & pm & Hu1 & Hu2 & Hu3 & Hl3 & _ & _).
    exists (setDisk (setDisk (setDisk s n1) n2) n3), pm.
    split; [|split; [exact Hl3 | reflexivity]].
    unfold extractFile.
    erewrite bind_run by exact Hstat.
    erewrite bind_run by (apply (os_MkdirAll_run _ _ s delems n1 Hd Hu1)).
    erewrite bind_run by (rewrite Hopen; reflexivity).
    erewrite bind_run
      by (apply (os_OpenFile_run destPath _ (setDisk s n1) (delems ++ [x]) n2 He Hu2)).
    unfold bind at 1. unfold io_Copy. unfold bind at 1. simpl fst. simpl snd.
    rewrite (os_Write_run (delems ++ [x]) data (setDisk (setDisk s n1) n2) n3 Hu3).
    reflexivity.
Qed.

Lemma extractFile_unreadable_witness :
  (exists s',
     extractFile
       (zip.mkFile (Examples.header "a/b/f.txt" 384%Z) (Err (errorString "zip: checksum error")))
       "/tmp/out/a/b/f.txt" false io.Sink Examples.nestedWorld =
       (s', Err (errorString "open entry a/b/f.txt: zip: checksum error")) /\
     isDirectory (disk s') ["tmp"; "out"; "a"; "b"] /\
     os.lookup (disk s') ["tmp"; "out"; "a"; "b"; "f.txt"] = None /\
     sink s' = "") /\
  (exists s' pm,
     extractFile
       (zip.mkFile (Examples.header "a/b/f.txt" 384%Z)
          (Ok (Examples.bytes "hel", Some (errorString "unexpected EOF"))))
       "/tmp/out/a/b/f.txt" false io.Sink Examples.nestedWorld =
       (s', Err (errorString "extract a/b/f.txt: unexpected EOF")) /\
     os.lookup (disk s') ["tmp"; "out"; "a"; "b"; "f.txt"] =
       Some (os.File pm 1000%Z (Examples.bytes "hel")) /\
     sink s' = "").
Proof.
  split.
  - refine (proj1 (extractFile_unreadable
                     (zip.mkFile (Examples.header "a/b/f.txt" 384%Z)
                        (Err (errorString "zip: checksum error")))
                     "/tmp/out/a/b/f.txt" false io.Sink Examples.nestedWorld
                     ["tmp"; "out"; "a"; "b"] "f.txt" _ _ _ _ _)
                  (errorString "zip: checksum error") _).
    + reflexivity.
    + reflexivity.
    + clear_way.
    + intros pm es H. vm_compute in H. discriminate H.
    + reflexivity.
    + reflexivity.
  - refine (proj2 (extractFile_unreadable
                     (zip.mkFile (Examples.header "a/b/f.txt" 384%Z)
                        (Ok (Examples.bytes "hel", Some (errorString "unexpected EOF"))))
                     "/tmp/out/a/b/f.txt" false io.Sink Examples.nestedWorld
                     ["tmp"; "out"; "a"; "b"] "f.txt" _ _ _ _ _)
                  (Examples.bytes "hel") (errorString "unexpected EOF") _).
    + reflexivity.
    + reflexivity.
    + clear_way.
    + intros pm es H. vm_compute in H. discriminate H.
    + reflexivity.
    + reflexivity.
Defined.

(** ** Junk paths *)

Lemma last_Forall {A : Type} (P : A -> Prop) (l : list A) (d : A) :
  Forall P l -> l <> [] -> P (last l d).
Proof.
  induction l as [|a l IH]; intros H Hne; [congruence|].
  inversion H as [|? ? Ha Hl]; subst. destruct l as [|b l]; [exact Ha|].
  apply IH; [exact Hl | discriminate].
Qed.

(** [filepath.Base] gives the separator or an element without one. *)
Lemma Base_shape (path : string) :
  filepath.Base path = "/"%string \/
  (slashFree (filepath.Base path) /\ filepath.Base path <> ""%string).
Proof.
  unfold filepath.Base. destruct (path =? "")%string.
  - right. split; [reflexivity | discriminate].
  - set (l := last (strings.SplitSlash (filepath.trimSlashes path)) ""%string).
    destruct (l =? "")%string eqn:E; [left; reflexivity|].
    right. split; [|apply String.eqb_neq; exact E].
    apply last_Forall; [apply SplitSlash_slashFree | apply SplitSlash_nonempty].
Qed.

(** X12. With [JunkPaths] an entry that is processed without an error has
    as its destination the output directory itself or the place of the
    base name of the entry directly in the output directory: nothing is
    extracted into a directory below the output directory. *)
Theorem unzipEntry_junk_paths (opts : UnzipOptions) (out : io.Writer) (f : zip.File)
    (s s' : World) (oelems : list string) :
  filepath.IsAbs (wd s) = true ->
  os.namei (wd s) (outputDirOf opts) = Some oelems ->
  JunkPaths opts = true -> selected opts f ->
  unzipEntry opts out (outputDirOf opts) (filepath.Abs (wd s) (outputDirOf opts)) f s
  = (s', Ok tt) ->
  os.namei (wd s) (destPathOf opts f) = Some oelems \/
  os.namei (wd s) (destPathOf opts f) =
    Some (oelems ++ [filepath.Base (zip.Name (zip.Header f))]).
Proof.
  intros Habs Ho Hj Hsel H.
  rewrite (unzipEntry_selected opts _ _ _ f Hsel) in H.
  fold (targetName opts f) in H. fold (destPathOf opts f) in H.
  apply placeEntry_Ok in H. destruct H as [Hw _].
  assert (Hdp : destPathOf opts f =
                filepath.Join [outputDirOf opts; filepath.Base (zip.Name (zip.Header f))]).
  { unfold destPathOf, targetName. rewrite Hj. reflexivity. }
  set (b := filepath.Base (zip.Name (zip.Header f))) in *.
  destruct (nameiRev_Join (wd s) (outputDirOf opts) b (outputDirOf_nonempty opts))
    as [Hrev Hne].
  rewrite <- Hdp in Hrev, Hne.
  assert (Hd : os.namei (wd s) (destPathOf opts f)
               = Some (rev (os.nameiRev (wd s) (destPathOf opts f)))).
  { unfold os.namei. apply String.eqb_neq in Hne. rewrite Hne. reflexivity. }
  assert (HO : oelems = rev (os.nameiRev (wd s) (outputDirOf opts))).
  { unfold os.namei in Ho. destruct (outputDirOf opts =? "")%string; [discriminate|].
    injection Ho as <-. reflexivity. }
  destruct (within_elems _ _ _ _ _ Habs Ho Hd Hw) as (r & Hr).
  rewrite Hd. rewrite Hrev in *.
  set (O := os.nameiRev (wd s) (outputDirOf opts)) in *.
  assert (Hstep : fold_left os.nameiStep (strings.SplitSlash b) O = O \/
                  fold_left os.nameiStep (strings.SplitSlash b) O = tl O \/
                  fold_left os.nameiStep (strings.SplitSlash b) O = b :: O).
  { destruct (Base_shape (zip.Name (zip.Header f))) as [E|[Hsf Hnb]]; fold b in E || fold b in Hsf, Hnb.
    - rewrite E. left. reflexivity.
    - rewrite (SplitSlash_single _ Hsf). cbn [fold_left]. unfold os.nameiStep.
      apply String.eqb_neq in Hnb. rewrite Hnb. simpl orb.
      destruct (b =? ".")%string; [left; reflexivity|].
      destruct (b =? "..")%string; [right; left | right; right]; reflexivity. }
  destruct Hstep as [E|[E|E]]; rewrite E in *.
  - left. rewrite <- HO. reflexivity.
  - left. rewrite rev_tl, <- HO in Hr. rewrite rev_tl, <- HO.
    destruct oelems as [|o O'] using rev_ind; [reflexivity|].
    exfalso. rewrite removelast_last in Hr.
    rewrite <- app_assoc in Hr. revert Hr. apply app_longer. discriminate.
  - right. simpl. rewrite <- HO. reflexivity.
Qed.

Lemma unzipEntry_junk_paths_witness :
  os.namei "/" (destPathOf (Examples.intoTmpOut true) Examples.nestedEntry) =
    Some ["tmp"; "out"] \/
  os.namei "/" (destPathOf (Examples.intoTmpOut true) Examples.nestedEntry) =
    Some (["tmp"; "out"] ++ ["f.txt"]).
Proof.
  refine (unzipEntry_junk_paths (Examples.intoTmpOut true) io.Discard Examples.nestedEntry
            Examples.nestedWorld
            (fst (unzipEntry (Examples.intoTmpOut true) io.Discard "/tmp/out" "/tmp/out"
                    Examples.nestedEntry Examples.nestedWorld))
            ["tmp"; "out"] _ _ _ _ _).
  - reflexivity.
  - reflexivity.
  - reflexivity.
  - left. reflexivity.
  - vm_compute. reflexivity.
Defined.

(** * cmd/gozip/main.go *)

(** The loop of [RunE] over the flags [-0] to [-9]:
    [for i, set := range levels { if set { level = i } }]. *)
Fixpoint levelLoop (i : nat) (levels : list bool) (level : Z) : Z :=
  match levels with
  | [] => level
  | set :: levels => levelLoop (S i) levels (if set then Z.of_nat i else level)
  end.

(** [RunE] of the command, which cobra calls with the flags parsed and at
    least two arguments; the status sink is [os.Stdout]. *)
Definition gozip_RunE (codec : zip.Codec) (recursive : bool)
    (excludePatterns : list string) (levels : list bool) (args : list string) : M unit :=
  let zipPath := nth 0 args ""%string in
  let files := skipn 1 args in
  let level := levelLoop 0 levels (-1) in
  let opts := mkZipOptions recursive level excludePatterns true in
  Zip codec zipPath files opts.

Lemma levelLoop_spec (levels : list bool) :
  forall i level0,
    (levelLoop i levels level0 = level0 /\ forall j, nth j levels false = false) \/
    (exists k, (k < List.length levels)%nat /\
               levelLoop i levels level0 = Z.of_nat (i + k) /\
               nth k levels false = true /\
               forall j, (k < j)%nat -> nth j levels false = false).
Proof.
  induction levels as [|set levels IH]; intros i level0; simpl.
  - left. split; [reflexivity|]. intros [|j]; reflexivity.
  - destruct (IH (S i) (if set then Z.of_nat i else level0))
      as [[E Hnone]|(k & Hk & E & Hset & Hlater)].
    + destruct set.
      * right. exists 0%nat. rewrite E, Nat.add_0_r.
        split; [lia|]. split; [reflexivity|]. split; [reflexivity|].
        intros [|j] Hj; [lia | apply Hnone].
      * left. split; [exact E|]. intros [|j]; [reflexivity | apply Hnone].
    + right. exists (S k). rewrite E.
      split; [lia|]. split; [f_equal; lia|]. split; [exact Hset|].
      intros [|j] Hj; [lia|]. apply Hlater. lia.
Qed.

(** X13. [gozip] hands [Zip] the first argument as the path of the
    archive, the others as source paths, and as compression level the
    number of the highest of the flags [-0] to [-9] that is set, or -1 when
    none is; this level is in the range [Zip] accepts, so it is the level
    of the compressor. *)
Theorem gozip_level (codec : zip.Codec) (recursive : bool)
    (excludePatterns : list string) (levels : list bool)
    (zipPath : string) (files : list string) :
  List.length levels = 10%nat ->
  exists level,
    gozip_RunE codec recursive excludePatterns levels (zipPath :: files) =
      Zip codec zipPath files (mkZipOptions recursive level excludePatterns true) /\
    levelFor (mkZipOptions recursive level excludePatterns true) = level /\
    ((level = (-1)%Z /\ forall j, nth j levels false = false) \/
     ((0 <= level <= 9)%Z /\ nth (Z.to_nat level) levels false = true /\
      forall j, (Z.to_nat level < j)%nat -> nth j levels false = false)).
Proof.
  intros Hlen. exists (levelLoop 0 levels (-1)).
  split; [reflexivity|].
  destruct (levelLoop_spec levels 0 (-1)%Z) as [[E Hnone]|(k & Hk & E & Hset & Hlater)].
  - rewrite E. split; [reflexivity|]. left. auto.
  - rewrite E. simpl Nat.add. rewrite Hlen in Hk.
    assert (Hr : (0 <= Z.of_nat k <= 9)%Z) by lia.
    split.
    + unfold levelFor. simpl CompressionLevel.
      destruct (Z.ltb_spec (Z.of_nat k) (-1)), (Z.gtb_spec (Z.of_nat k) 9);
        simpl; try reflexivity; lia.
    + right. rewrite Nat2Z.id. auto.
Qed.

Lemma gozip_level_witness :
  exists level,
    gozip_RunE refcodec.codec true []
      [false; false; false; true; false; false; false; true; false; false]
      ["/tmp/t.zip"; "hello.txt"] =
      Zip refcodec.codec "/tmp/t.zip" ["hello.txt"] (mkZipOptions true level [] true) /\
    levelFor (mkZipOptions true level [] true) = level /\
    ((level = (-1)%Z /\
      forall j, nth j [false; false; false; true; false; false; false; true; false; false]
                  false = false) \/
     ((0 <= level <= 9)%Z /\
      nth (Z.to_nat level)
        [false; false; false; true; false; false; false; true; false; false] false = true /\
      forall j, (Z.to_nat level < j)%nat ->
        nth j [false; false; false; true; false; false; false; true; false; false]
          false = false)).
Proof.
  exact (gozip_level refcodec.codec true []
           [false; false; false; true; false; false; false; true; false; false]
           "/tmp/t.zip" ["hello.txt"] eq_refl).
Defined.

(** * Patterns without a class, a question mark or an escape *)

(** The byte stands for itself in a pattern. *)
Definition plain (c : ascii) : bool :=
  negb (Ascii.eqb c "*" || Ascii.eqb c "?" || Ascii.eqb c "[" || Ascii.eqb c "\").

Fixpoint literal (p : string) : bool :=
  match p with
  | EmptyString => true
  | String c r => plain c && literal r
  end.

(** What is left of [s] after [chunk], when [s] begins with it. *)
Fixpoint stripPrefix (chunk s : string) : option string :=
  match chunk with
  | EmptyString => Some s
  | String c chunk =>
      match s with
      | EmptyString => None
      | String c' s => if Ascii.eqb c c' then stripPrefix chunk s else None
      end
  end.

Lemma stripPrefix_spec (chunk : string) :
  forall s t, stripPrefix chunk s = Some t <-> s = (chunk ++ t)%string.
Proof.
  induction chunk as [|c chunk IH]; intros s t; simpl.
  - split; [intros H; injection H; auto | intros ->; reflexivity].
  - destruct s as [|c' s].
    + split; discriminate.
    + destruct (Ascii.eqb_spec c c') as [->|Hc].
      * rewrite IH. split; [intros ->; reflexivity | intros H; injection H; auto].
      * split; [discriminate | intros H; injection H; intros; congruence].
Qed.

Lemma plain_inv (c : ascii) :
  plain c = true ->
  Ascii.eqb c "*" = false /\ Ascii.eqb c "?" = false /\
  Ascii.eqb c "[" = false /\ Ascii.eqb c "\" = false.
Proof.
  unfold plain. rewrite Bool.negb_true_iff, !Bool.orb_false_iff. tauto.
Qed.

Lemma matchChunkLoop_literal (chunk : string) :
  literal chunk = true ->
  forall fuel s failed,
    (String.length chunk < fuel)%nat ->
    filepath.matchChunkLoop fuel chunk s failed =
    if failed then ("", false, None)
    else match stripPrefix chunk s with
         | Some t => (t, true, None)
         | None => ("", false, None)
         end.
Proof.
  induction chunk as [|c chunk IH]; intros Hlit fuel s failed Hfuel;
    (destruct fuel as [|fuel]; [simpl in Hfuel; lia|]).
  - simpl. destruct failed; reflexivity.
  - simpl in Hlit. apply Bool.andb_true_iff in Hlit. destruct Hlit as [Hc Hlit].
    destruct (plain_inv c Hc) as (_ & Hq & Hb & He).
    cbn [filepath.matchChunkLoop]. rewrite Hb, Hq, He.
    cbn [filepath.tail filepath.head].
    rewrite (IH Hlit) by (simpl in Hfuel; lia).
    destruct failed; [reflexivity|]. simpl.
    destruct s as [|c' s]; [reflexivity|]. simpl.
    destruct (Ascii.eqb c c'); reflexivity.
Qed.

Lemma matchChunk_literal (chunk s : string) :
  literal chunk = true ->
  filepath.matchChunk chunk s =
  match stripPrefix chunk s with
  | Some t => (t, true, None)
  | None => ("", false, None)
  end.
Proof.
  intros Hlit. unfold filepath.matchChunk.
  rewrite (matchChunkLoop_literal chunk Hlit) by lia. reflexivity.
Qed.

Lemma substring_all (s : string) : substring 0 (String.length s) s = s.
Proof. induction s as [|c s IH]; simpl; [reflexivity | rewrite IH; reflexivity]. Qed.

Lemma substring_none (s : string) : substring (String.length s) 0 s = "".
Proof. induction s as [|c s IH]; simpl; [reflexivity | exact IH]. Qed.

Lemma scanChunkEnd_literal (p : string) :
  literal p = true -> filepath.scanChunkEnd p false = String.length p.
Proof.
  induction p as [|c p IH]; intros Hlit; simpl; [reflexivity|].
  simpl in Hlit. apply Bool.andb_true_iff in Hlit. destruct Hlit as [Hc Hlit].
  destruct (plain_inv c Hc) as (Hs & _ & Hb & He).
  rewrite He, Hb, Hs, (IH Hlit). destruct (Ascii.eqb c "]"); reflexivity.
Qed.

Lemma trimStars_literal (p : string) :
  literal p = true -> filepath.trimStars p = (false, p).
Proof.
  destruct p as [|c p]; intros Hlit; simpl; [reflexivity|].
  simpl in Hlit. apply Bool.andb_true_iff in Hlit. destruct Hlit as [Hc _].
  destruct (plain_inv c Hc) as (-> & _). reflexivity.
Qed.

Lemma scanChunk_literal (p : string) :
  literal p = true -> filepath.scanChunk p = (false, p, "").
Proof.
  intros Hlit. unfold filepath.scanChunk.
  rewrite (trimStars_literal p Hlit), (scanChunkEnd_literal p Hlit), Nat.sub_diag,
    substring_all, substring_none.
  reflexivity.
Qed.

Lemma scanChunk_star_literal (p : string) :
  literal p = true -> filepath.scanChunk (String "*" p) = (true, p, "").
Proof.
  intros Hlit. unfold filepath.scanChunk.
  cbn [filepath.trimStars]. change (Ascii.eqb "*" "*") with true. cbv iota.
  rewrite (trimStars_literal p Hlit). cbn [snd].
  rewrite (scanChunkEnd_literal p Hlit), Nat.sub_diag, substring_all, substring_none.
  reflexivity.
Qed.

Lemma append_same_r (p t : string) : (p ++ t)%string = p -> t = "".
Proof.
  induction p as [|c p IH]; simpl; intros H; [exact H|].
  injection H as H. exact (IH H).
Qed.

(** A pattern of plain bytes matches its own text and nothing else. *)
Lemma Match_literal (p name : string) :
  literal p = true -> filepath.Match p name = (name =? p, None).
Proof.
  intros Hlit. unfold filepath.Match.
  destruct p as [|c p]; [reflexivity|].
  set (pat := String c p) in *.
  assert (Hne : (pat =? "") = false) by reflexivity.
  cbn [filepath.matchLoop]. rewrite Hne, (scanChunk_literal pat Hlit).
  cbn [andb]. rewrite (matchChunk_literal pat name Hlit).
  destruct (stripPrefix pat name) as [t|] eqn:Hs.
  - apply stripPrefix_spec in Hs. subst name.
    destruct t as [|c' t].
    + rewrite append_empty_r, (String.eqb_refl pat). subst pat. reflexivity.
    + destruct (String.eqb_spec (pat ++ String c' t)%string pat) as [E|_]; [|reflexivity].
      apply append_same_r in E. discriminate.
  - destruct (String.eqb_spec name pat) as [E|_]; [|reflexivity].
    subst name. assert (H : stripPrefix pat pat = Some "").
    { apply stripPrefix_spec. symmetry. apply append_empty_r. }
    congruence.
Qed.

(** The name is [lit] after at least one byte, none of them a
    separator. *)
Definition behindSome (lit name : string) : Prop :=
  exists c pre, name = String c (pre ++ lit)%string /\
                strings.ContainsSlash (String c pre) = false.

Lemma stripPrefix_self (lit : string) : stripPrefix lit lit = Some "".
Proof. apply stripPrefix_spec. symmetry. apply append_empty_r. Qed.

Lemma starLoop_literal (lit : string) :
  literal lit = true ->
  forall name,
    (filepath.starLoop lit true name = Ok (Some "") /\ behindSome lit name) \/
    (filepath.starLoop lit true name = Ok None /\ ~ behindSome lit name).
Proof.
  intros Hlit. induction name as [|c name IH].
  - right. split; [reflexivity|]. intros (c & pre & H & _). discriminate.
  - cbn [filepath.starLoop]. unfold filepath.Separator.
    destruct (Ascii.eqb c "/") eqn:Hc.
    { right. split; [reflexivity|]. intros (c0 & pre & H & Hs).
      injection H as <- _. simpl in Hs. rewrite Hc in Hs. discriminate. }
    rewrite (matchChunk_literal lit name Hlit).
    assert (Hrec :
      (filepath.starLoop lit true name = Ok (Some "") /\ behindSome lit (String c name)) \/
      (filepath.starLoop lit true name = Ok None /\
       (name <> lit -> ~ behindSome lit (String c name)))).
    { destruct IH as [[E (c1 & pre1 & -> & Hs)]|[E Hno]].
      - left. split; [exact E|]. exists c, (String c1 pre1). split; [reflexivity|].
        change (strings.ContainsSlash (String c (String c1 pre1)))
          with (Ascii.eqb c "/" || strings.ContainsSlash (String c1 pre1)).
        rewrite Hc, Hs. reflexivity.
      - right. split; [exact E|]. intros Hne (c0 & pre & H & Hs).
        injection H as <- H. destruct pre as [|c1 pre1].
        + apply Hne. exact H.
        + apply Hno. exists c1, pre1. split; [exact H|].
          change (strings.ContainsSlash (String c (String c1 pre1)))
            with (Ascii.eqb c "/" || strings.ContainsSlash (String c1 pre1)) in Hs.
          apply Bool.orb_false_iff in Hs. exact (proj2 Hs). }
    destruct (stripPrefix lit name) as [t|] eqn:Hs.
    + destruct t as [|c' t].
      * left. split; [reflexivity|].
        apply stripPrefix_spec in Hs. rewrite append_empty_r in Hs. subst name.
        exists c, "". split; [reflexivity|]. simpl. rewrite Hc. reflexivity.
      * cbn [andb negb String.eqb].
        destruct Hrec as [H|[E Hno]]; [left; exact H|].
        right. split; [exact E|]. apply Hno. intros ->.
        rewrite stripPrefix_self in Hs. discriminate.
    + destruct Hrec as [H|[E Hno]]; [left; exact H|].
      right. split; [exact E|]. apply Hno. intros ->.
      rewrite stripPrefix_self in Hs. discriminate.
Qed.

(** A star before plain bytes matches the names that end with these
    bytes after bytes that are no separator. *)
Lemma Match_star_literal (lit name : string) :
  literal lit = true ->
  exists b,
    filepath.Match (String "*" lit) name = (b, None) /\
    (b = true <->
     exists pre, name = (pre ++ lit)%string /\ strings.ContainsSlash pre = false).
Proof.
  intros Hlit. unfold filepath.Match.
  cbn [filepath.matchLoop String.eqb]. rewrite (scanChunk_star_literal lit Hlit).
  destruct lit as [|c l].
  - exists (negb (strings.ContainsSlash name)). split; [reflexivity|].
    rewrite Bool.negb_true_iff. split.
    + intros H. exists name. rewrite append_empty_r. auto.
    + intros (pre & -> & H). rewrite append_empty_r. exact H.
  - set (lit := String c l) in *.
    replace (true && (lit =? "")) with false by reflexivity.
    rewrite (matchChunk_literal lit name Hlit).
    assert (Hstar :
      exists b,
        match filepath.starLoop lit true name with
        | Ok (Some t) => filepath.matchLoop (String.length (String "*" lit)) "" t
        | Ok None =>
            match filepath.checkRest (String.length "") "" with
            | Some e => (false, Some e)
            | None => (false, None)
            end
        | Err e => (false, Some e)
        end = (b, None) /\
        (b = true <-> behindSome lit name)).
    { destruct (starLoop_literal lit Hlit name) as [[E H]|[E H]]; rewrite E.
      - exists true. split; [reflexivity | tauto].
      - exists false. split; [reflexivity|]. split; [discriminate | contradiction]. }
    assert (Hbehind : forall b,
      (b = true <-> behindSome lit name) -> name <> lit ->
      (b = true <->
       exists pre, name = (pre ++ lit)%string /\ strings.ContainsSlash pre = false)).
    { intros b Hb Hne. rewrite Hb. split.
      - intros (c0 & pre & H1 & H2). exists (String c0 pre). auto.
      - intros ([|c0 pre] & H1 & H2); [contradiction|]. exists c0, pre. auto. }
    destruct (stripPrefix lit name) as [t|] eqn:Hs.
    + destruct t as [|c' t].
      * exists true. split; [reflexivity|]. split; [|reflexivity]. intros _.
        apply stripPrefix_spec in Hs. rewrite append_empty_r in Hs.
        exists "". split; [exact Hs | reflexivity].
      * cbn [andb orb negb String.eqb].
        destruct Hstar as (b & E & Hb). exists b. split; [exact E|].
        apply Hbehind; [exact Hb|]. intros ->.
        rewrite stripPrefix_self in Hs. discriminate.
    + cbn [andb].
      destruct Hstar as (b & E & Hb). exists b. split; [exact E|].
      apply Hbehind; [exact Hb|]. intros ->.
      rewrite stripPrefix_self in Hs. discriminate.
Qed.

(** X14. A pattern without [*], [?], [[] or [\] selects the names whose
    base name is the pattern, byte for byte: [matchesAny] answers true
    for such a name whatever the other patterns are, and for every other
    name it answers as the other patterns do. *)
Theorem matchesAny_literal (name p : string) (patterns : list string) :
  literal p = true ->
  matchesAny name (p :: patterns) =
  (filepath.Base name =? p)%string || matchesAny name patterns.
Proof.
  intros Hlit. cbn [matchesAny]. rewrite (Match_literal p _ Hlit).
  destruct (filepath.Base name =? p)%string; reflexivity.
Qed.

(** X15. A pattern that is a [*] before bytes other than [*], [?], [[]
    and [\] selects the names whose base name ends with these bytes, the
    bytes before them being no separator: [*.log] takes [a.log] and
    [dir/a.log], and [*] alone takes every name but those whose base name
    is the separator. *)
Theorem matchesAny_suffix (name lit : string) (patterns : list string) :
  literal lit = true ->
  (matchesAny name (String "*" lit :: patterns) = true <->
   (exists pre, filepath.Base name = (pre ++ lit)%string /\
                strings.ContainsSlash pre = false) \/
   matchesAny name patterns = true).
Proof.
  intros Hlit. cbn [matchesAny].
  destruct (Match_star_literal lit (filepath.Base name) Hlit) as (b & -> & Hb).
  destruct b.
  - split; [intros _; left; apply Hb; reflexivity | reflexivity].
  - split; [intros H; right; exact H|].
    intros [H|H]; [|exact H]. apply Hb in H. discriminate.
Qed.

Lemma matchesAny_literal_witness :
  matchesAny "sub/nested.txt" ["nested.txt"; "*.go"] = true.
Proof.
  rewrite (matchesAny_literal "sub/nested.txt" "nested.txt" ["*.go"] eq_refl).
  reflexivity.
Defined.

Lemma matchesAny_suffix_witness :
  matchesAny "sub/nested.txt" ["*.txt"] = true.
Proof.
  apply (proj2 (matchesAny_suffix "sub/nested.txt" ".txt" [] eq_refl)).
  left. exists "nested". split; reflexivity.
Defined.

(** * [List] on an archive [Zip] has written *)

Lemma Forall2_map_eq {A B C : Type} (f : A -> C) (g : B -> C) (l : list A) (m : list B) :
  Forall2 (fun a b => g b = f a) l m -> map g m = map f l.
Proof. induction 1; simpl; [reflexivity | congruence]. Qed.

(** X16. When [Zip] has returned no error and the reader gives back the
    entries of the container under the names they were written with,
    [List] on the path of the archive, from the state [Zip] left, opens
    the file [Zip] wrote and returns one record for every file that was
    archived, in the order of the source paths and of the walk, named by
    the path the file was reached by; it changes nothing. *)
Theorem Zip_then_List (codec : zip.Codec) (zipPath : string) (files : list string)
    (opts : ZipOptions) (s s1 : World) (fl : list zip.File) :
  os.wellFormed (disk s) = true ->
  Zip codec zipPath files opts s = (s1, Ok tt) ->
  zip.decode codec (zip.encode codec (zip.level (zw s1)) (zip.entries (zw s1))) = Ok fl ->
  Forall2 (fun e f => zip.Name (zip.Header f) = zip.Name (fst e)) (zip.entries (zw s1)) fl ->
  exists zelems dc l,
    os.namei (wd s) zipPath = Some zelems /\
    os.update None (os.truncLeaf (os.Perm 438%Z) (clock s)) (disk s) zelems = inr dc /\
    List codec zipPath s1 = (s1, Ok l) /\
    map Name l = map fst (allSources opts (wd s) dc files).
Proof.
  intros Hwf Hzip Hdec Hback.
  destruct (Zip_Ok codec zipPath files opts s s1 Hwf Hzip)
    as (zelems & dc & Hz & Hu & _ & Hwd1 & Hent & (pm & t & Hfile)).
  exists zelems, dc, (map metadata fl).
  split; [exact Hz|]. split; [exact Hu|]. split.
  - unfold List, bind, wrapErr, zip_OpenReader, os_Open, resolve, os_reader, bind.
    rewrite Hwd1, Hz. rewrite Hfile. cbn [fst snd]. rewrite Hfile. cbn [fst snd].
    rewrite Hdec. reflexivity.
  - rewrite map_map.
    change (fun x => Name (metadata x)) with (fun f => zip.Name (zip.Header f)).
    rewrite (Forall2_map_eq (fun e => zip.Name (fst e)) _ _ _ Hback), Hent.
    unfold entriesOf. rewrite map_map. reflexivity.
Qed.

Lemma Zip_then_List_witness :
  let s1 := fst (Zip refcodec.codec "/tmp/t.zip" ["."]
                   (Examples.zipOpts true (-1) []) Examples.srcWorld) in
  exists l,
    List refcodec.codec "/tmp/t.zip" s1 = (s1, Ok l) /\
    map Name l = ["foo.go"; "hello.txt"; "sub/nested.txt"].
Proof.
  intros s1.
  destruct (Zip_then_List refcodec.codec "/tmp/t.zip" ["."]
              (Examples.zipOpts true (-1) []) Examples.srcWorld s1
              (match snd (zip_OpenReader refcodec.codec "/tmp/t.zip" s1) with
               | Ok fl => fl
               | Err _ => []
               end))
    as (zelems & dc & l & Hz & Hu & Hl & Hnames).
  - reflexivity.
  - vm_compute. reflexivity.
  - vm_compute. reflexivity.
  - match goal with
    | |- Forall2 _ ?a ?b =>
        let a' := eval vm_compute in a in
        let b' := eval vm_compute in b in
        replace a with a' by (vm_compute; reflexivity);
        replace b with b' by (vm_compute; reflexivity)
    end.
    repeat constructor.
  - vm_compute in Hz. injection Hz as <-.
    vm_compute in Hu. injection Hu as <-.
    exists l. split; [exact Hl | exact Hnames].
Defined.
